(** * Content-addressed image storage (docs/sai-inference-storage-module.py)

    A shallow embedding of the [ImageStorage] class: SHA-256 digests,
    sharded path derivation through [pathlib], and the store / fetch /
    exists / get_path / delete operations over an explicit filesystem
    state with injectable I/O faults.

    Conventions.
    - A Python [str] is a [list ascii] with one element per character, the
      value of the element being the code point: the strings of the model
      are those whose characters lie in U+0000 .. U+00FF, and slicing and
      [len] count characters.  A [bytes] value is a [list byte].
    - Python [int]s ([shard_depth], [shard_width], slice bounds) are [Z].
    - [pathlib.Path] is the POSIX flavour, as implemented by CPython 3.11's
      [pathlib] ([parse_parts], [join_parsed_parts], [with_suffix],
      [exists]); a path value is its anchor ([p_root]) and the list of its
      name components ([p_parts]).
    - The filesystem is a finite map from path values to nodes.  It is keyed
      by the lexical path: [..] components and symbolic links are not
      resolved, and there is a single sequential caller.
    - A name can be refused by the operating system: it holds a NUL, it is
      longer than [NAME_MAX] or its path longer than [PATH_MAX], or the
      world lists it in [denied] (a directory that cannot be searched, a
      read-only file system, ...).  Where the tree holds a node the node is
      found; the refusal is met when a name the tree does not hold is
      looked up, and when a name is created, removed or renamed.
    - [await] is sequencing: every awaited call runs to completion before
      the next statement, and no task is cancelled.  The exceptions of the
      model, [ValueError] and [OSError], are [Exception]s: an
      [except Exception] clause catches each of them.
    - Logging calls have no effect on any modelled value and are omitted. *)

From Stdlib Require Import ZArith List Lia Bool.
From Stdlib.Strings Require Import Ascii String Byte.
From Stdlib Require Floats.PrimFloat.
From stdpp Require Import base decidable option list countable gmap.

Import ListNotations.
Local Open Scope Z_scope.

(* ====================================================================== *)
(** * Python strings and bytes *)
(* ====================================================================== *)

Definition str := list ascii.
Definition bytes := list byte.

(** String literals. *)
Definition lit (s : string) : str := list_ascii_of_string s.

(** Byte-string literals ([b"..."]). *)
Definition blit (s : string) : bytes := list_byte_of_string s.

Definition sep : ascii := "/"%char.
Definition dot : ascii := "."%char.

(** [len(s)] as a Python int. *)
Definition len {A} (s : list A) : Z := Z.of_nat (length s).

(** Normalisation of one slice bound: a negative bound counts from the end,
    and the result is clamped to [0, len]. *)
Definition clamp_index (n i : Z) : Z :=
  if i <? 0 then Z.max 0 (i + n) else Z.min i n.

(** [s[start:end]] -- never raises, out-of-range bounds are clamped. *)
Definition pyslice {A} (s : list A) (start stop : Z) : list A :=
  let n := len s in
  let lo := clamp_index n start in
  let hi := clamp_index n stop in
  if lo <? hi then take (Z.to_nat (hi - lo)) (drop (Z.to_nat lo) s) else [].

(** [s.split(c)]. *)
Fixpoint split_on (c : ascii) (s : str) : list str :=
  match s with
  | [] => [[]]
  | x :: s' =>
      if Ascii.eqb x c then [] :: split_on c s'
      else match split_on c s' with
           | [] => [[x]]
           | w :: ws => (x :: w) :: ws
           end
  end.

(** [c.join(l)]. *)
Fixpoint join_with (c : ascii) (l : list str) : str :=
  match l with
  | [] => []
  | [w] => w
  | w :: ws => w ++ c :: join_with c ws
  end.

(** [s.lstrip(c)]. *)
Fixpoint lstrip (c : ascii) (s : str) : str :=
  match s with
  | x :: s' => if Ascii.eqb x c then lstrip c s' else s
  | [] => []
  end.

(** [s.rfind(c)] for a one-character needle, counting from position [i];
    -1 when the character does not occur. *)
Fixpoint rfind_from (c : ascii) (s : str) (i : Z) : Z :=
  match s with
  | [] => -1
  | x :: s' =>
      let r := rfind_from c s' (i + 1) in
      if 0 <=? r then r else if Ascii.eqb x c then i else -1
  end.

Definition rfind (c : ascii) (s : str) : Z := rfind_from c s 0.

(** [c in s]. *)
Definition contains (c : ascii) (s : str) : bool :=
  existsb (Ascii.eqb c) s.

(** [s.startswith(c)]. *)
Definition startswith (c : ascii) (s : str) : bool :=
  match s with
  | x :: _ => Ascii.eqb x c
  | [] => false
  end.

Definition str_eqb (a b : str) : bool := bool_decide (a = b).

(** [range(n)]. *)
Definition range (n : Z) : list Z := map Z.of_nat (seq 0 (Z.to_nat n)).

(* ====================================================================== *)
(** * SHA-256 (FIPS 180-4), as computed by [hashlib.sha256(...).hexdigest()] *)
(* ====================================================================== *)

Module SHA256.

Definition wrap (x : Z) : Z := x mod 2 ^ 32.
Definition add32 (x y : Z) : Z := wrap (x + y).
Definition rotr (n x : Z) : Z :=
  Z.lor (Z.shiftr x n) (wrap (Z.shiftl x (32 - n))).
Definition shr (n x : Z) : Z := Z.shiftr x n.
Definition not32 (x : Z) : Z := Z.lxor x 0xffffffff.

Definition Ch (x y z : Z) : Z := Z.lxor (Z.land x y) (Z.land (not32 x) z).
Definition Maj (x y z : Z) : Z :=
  Z.lxor (Z.lxor (Z.land x y) (Z.land x z)) (Z.land y z).
Definition Sigma0 (x : Z) : Z := Z.lxor (Z.lxor (rotr 2 x) (rotr 13 x)) (rotr 22 x).
Definition Sigma1 (x : Z) : Z := Z.lxor (Z.lxor (rotr 6 x) (rotr 11 x)) (rotr 25 x).
Definition sigma0 (x : Z) : Z := Z.lxor (Z.lxor (rotr 7 x) (rotr 18 x)) (shr 3 x).
Definition sigma1 (x : Z) : Z := Z.lxor (Z.lxor (rotr 17 x) (rotr 19 x)) (shr 10 x).

(** The first 64 primes. *)
Definition primes : list Z :=
  [   2;   3;   5;   7;  11;  13;  17;  19;  23;  29;  31;  37;  41;
     43;  47;  53;  59;  61;  67;  71;  73;  79;  83;  89;  97; 101;
    103; 107; 109; 113; 127; 131; 137; 139; 149; 151; 157; 163; 167;
    173; 179; 181; 191; 193; 197; 199; 211; 223; 227; 229; 233; 239;
    241; 251; 257; 263; 269; 271; 277; 281; 283; 293; 307; 311 ].

(** Integer cube root, one bit at a time from bit [k - 1] down. *)
Fixpoint cube_root_bits (k : nat) (n r : Z) : Z :=
  match k with
  | O => r
  | S k' =>
      let c := r + 2 ^ Z.of_nat k' in
      cube_root_bits k' n (if c * c * c <=? n then c else r)
  end.

(** The first 32 bits of the fractional part of the cube root of [p]. *)
Definition frac_cube_root (p : Z) : Z := wrap (cube_root_bits 36 (p * 2 ^ 96) 0).

(** The first 32 bits of the fractional part of the square root of [p]. *)
Definition frac_square_root (p : Z) : Z := wrap (Z.sqrt (p * 2 ^ 64)).

(** The round constants. *)
Definition K : list Z := Eval vm_compute in map frac_cube_root primes.

(** The eight working variables / chaining values. *)
Record regs := Regs { ra : Z; rb : Z; rc : Z; rd : Z;
                      re : Z; rf : Z; rg : Z; rh : Z }.

(** The initial hash value. *)
Definition H0 : regs :=
  Eval vm_compute in
    match map frac_square_root (take 8 primes) with
    | [a; b; c; d; e; f; g; h] => Regs a b c d e f g h
    | _ => Regs 0 0 0 0 0 0 0 0
    end.

Definition byte_val (b : byte) : Z := Z.of_N (Byte.to_N b).

(** Big-endian encoding of [x] on [n] bytes. *)
Fixpoint be_bytes (n : nat) (x : Z) : list Z :=
  match n with
  | O => []
  | S n' => (Z.shiftr x (8 * Z.of_nat n')) mod 256 :: be_bytes n' x
  end.

(** Message padding: 0x80, zeros up to 56 mod 64, then the bit length. *)
Definition pad (msg : bytes) : list Z :=
  let l := len msg in
  let k := (55 - l) mod 64 in
  map byte_val msg ++ 0x80 :: repeat 0 (Z.to_nat k) ++ be_bytes 8 (8 * l).

Fixpoint words_of (bs : list Z) : list Z :=
  match bs with
  | b0 :: b1 :: b2 :: b3 :: rest =>
      (((b0 * 256 + b1) * 256 + b2) * 256 + b3) :: words_of rest
  | _ => []
  end.

(** Extends the message schedule by [n] words; [ws] holds the schedule so
    far, most recent word first. *)
Fixpoint schedule (n : nat) (ws : list Z) : list Z :=
  match n with
  | O => ws
  | S n' =>
      let w := add32 (add32 (sigma1 (nth 1 ws 0)) (nth 6 ws 0))
                     (add32 (sigma0 (nth 14 ws 0)) (nth 15 ws 0)) in
      schedule n' (w :: ws)
  end.

Definition round (s : regs) (kw : Z * Z) : regs :=
  let t1 := add32 (add32 (add32 (rh s) (Sigma1 (re s)))
                         (add32 (Ch (re s) (rf s) (rg s)) (fst kw))) (snd kw) in
  let t2 := add32 (Sigma0 (ra s)) (Maj (ra s) (rb s) (rc s)) in
  Regs (add32 t1 t2) (ra s) (rb s) (rc s) (add32 (rd s) t1) (re s) (rf s) (rg s).

Definition compress (h : regs) (block : list Z) : regs :=
  let w := rev (schedule 48 (rev (words_of block))) in
  let s := fold_left round (combine K w) h in
  Regs (add32 (ra h) (ra s)) (add32 (rb h) (rb s))
       (add32 (rc h) (rc s)) (add32 (rd h) (rd s))
       (add32 (re h) (re s)) (add32 (rf h) (rf s))
       (add32 (rg h) (rg s)) (add32 (rh h) (rh s)).

(** Consumes the padded message 64 bytes at a time; [n] bounds the number
    of blocks. *)
Fixpoint blocks (n : nat) (h : regs) (bs : list Z) : regs :=
  match n, bs with
  | S n', _ :: _ => blocks n' (compress h (take 64 bs)) (drop 64 bs)
  | _, _ => h
  end.

Definition digest (msg : bytes) : regs :=
  let p := pad msg in blocks (length p) H0 p.

Definition hexdigit (n : Z) : ascii :=
  match n mod 16 with
  | 0 => "0" | 1 => "1" | 2 => "2" | 3 => "3" | 4 => "4"
  | 5 => "5" | 6 => "6" | 7 => "7" | 8 => "8" | 9 => "9"
  | 10 => "a" | 11 => "b" | 12 => "c" | 13 => "d" | 14 => "e"
  | _ => "f"
  end%char.

(** A 32-bit word as eight lowercase hexadecimal digits. *)
Definition hex32 (x : Z) : str :=
  map (fun i => hexdigit (Z.shiftr x (4 * i))) [7; 6; 5; 4; 3; 2; 1; 0].

Definition hex_of_regs (s : regs) : str :=
  hex32 (ra s) ++ hex32 (rb s) ++ hex32 (rc s) ++ hex32 (rd s) ++
  hex32 (re s) ++ hex32 (rf s) ++ hex32 (rg s) ++ hex32 (rh s).

Definition hexdigest (msg : bytes) : str := hex_of_regs (digest msg).

End SHA256.

(* ====================================================================== *)
(** * Exceptions *)
(* ====================================================================== *)

Inductive exn :=
| ValueError
| OSError (errno : Z).

Inductive outcome (A : Type) :=
| Ret (a : A)
| Raise (e : exn).
Arguments Ret {A} a.
Arguments Raise {A} e.

Definition ENOENT : Z := 2.
Definition EBADF : Z := 9.
Definition EEXIST : Z := 17.
Definition ENOTDIR : Z := 20.
Definition EISDIR : Z := 21.
Definition ENAMETOOLONG : Z := 36.
Definition ELOOP : Z := 40.

(* ====================================================================== *)
(** * [pathlib] (POSIX flavour) *)
(* ====================================================================== *)

(** A parsed path: the anchor ([""], ["/"] or ["//"]) and the name
    components after it.  Name components are non-empty, contain no
    separator and are never ["."] when they come out of the parser. *)
Record PurePosixPath := PosixPath { p_root : str; p_parts : list str }.

Global Instance PurePosixPath_eq_dec : EqDecision PurePosixPath.
Proof. solve_decision. Defined.

Global Instance PurePosixPath_countable : Countable PurePosixPath.
Proof.
  refine (inj_countable' (fun p => (p_root p, p_parts p))
                         (fun t => PosixPath (fst t) (snd t)) _).
  intros []; reflexivity.
Defined.

(** [splitroot]: one leading slash or three and more give the root ["/"],
    exactly two give ["//"]. *)
Definition splitroot (part : str) : str * str :=
  if startswith sep part then
    let stripped := lstrip sep part in
    if len part - len stripped =? 2 then ([sep; sep], stripped)
    else ([sep], stripped)
  else ([], part).

(** Components that survive parsing: not empty and not ["."]. *)
Definition is_name (x : str) : bool :=
  negb (str_eqb x []) && negb (str_eqb x [dot]).

Definition names_of (rel : str) : list str :=
  List.filter is_name (split_on sep rel).

(** [parse_parts], walking the arguments from the last one backwards: empty
    arguments are skipped and an anchored argument discards everything to
    its left. *)
Fixpoint parse_rev (rparts : list str) : str * list str :=
  match rparts with
  | [] => ([], [])
  | [] :: rest => parse_rev rest
  | part :: rest =>
      let '(rt, rel) := splitroot part in
      match rt with
      | [] => let '(rt', names') := parse_rev rest in
              (rt', names' ++ names_of rel)
      | _ => (rt, names_of rel)
      end
  end.

Definition parse_parts (args : list str) : str * list str :=
  parse_rev (rev args).

(** [Path(s)]. *)
Definition Path (s : str) : PurePosixPath :=
  let '(rt, names) := parse_parts [s] in PosixPath rt names.

(** [self.joinpath] applied to the unpacked argument list. *)
Definition joinpath (self : PurePosixPath) (args : list str) : PurePosixPath :=
  let '(rt, names) := parse_parts args in
  match rt with
  | [] => PosixPath (p_root self) (p_parts self ++ names)
  | _ => PosixPath rt names
  end.

(** [self / key]. *)
Definition truediv (self : PurePosixPath) (key : str) : PurePosixPath :=
  joinpath self [key].

(** [str(self)]. *)
Definition path_str (self : PurePosixPath) : str :=
  match p_root self ++ join_with sep (p_parts self) with
  | [] => [dot]
  | s => s
  end.

(** [self.name]: the last name component, [""] when there is none. *)
Definition name (self : PurePosixPath) : str := List.last (p_parts self) [].

(** [self.suffix]: from the last dot of the name, unless the name starts or
    ends with that dot. *)
Definition suffix (self : PurePosixPath) : str :=
  let nm := name self in
  let i := rfind dot nm in
  if (0 <? i) && (i <? len nm - 1) then pyslice nm i (len nm) else [].

(** [self.with_suffix(suffix)]. *)
Definition with_suffix (self : PurePosixPath) (sfx : str) : outcome PurePosixPath :=
  if contains sep sfx then Raise ValueError
  else if (negb (str_eqb sfx []) && negb (startswith dot sfx)) || str_eqb sfx [dot]
  then Raise ValueError
  else
    let nm := name self in
    if str_eqb nm [] then Raise ValueError
    else
      let old_suffix := suffix self in
      let nm' := if str_eqb old_suffix [] then nm ++ sfx
                 else pyslice nm 0 (- len old_suffix) ++ sfx in
      Ret (PosixPath (p_root self) (removelast (p_parts self) ++ [nm'])).

(* ====================================================================== *)
(** * The filesystem and the I/O monad *)
(* ====================================================================== *)

Inductive node :=
| File (content : bytes)
| Dir.

(** The calls that reach the operating system and can fail or mutate. *)
Inductive event :=
| EvMakedirs (p : PurePosixPath)
| EvOpen (p : PurePosixPath)
| EvWrite (p : PurePosixPath) (data : bytes)
| EvRename (src dst : PurePosixPath)
| EvRemove (p : PurePosixPath)
| EvRead (p : PurePosixPath).

(** An injected I/O failure: the error number raised and how far the call
    got before the failure -- for a write the number of bytes that reached
    the file, for [makedirs] the number of directories it made. *)
Record fault := { f_errno : Z; f_written : nat }.

(** The environment of a call: the filesystem, the faults still to be
    injected (one entry per system call, [None] lets the call run), the
    clock, the record of the system calls issued so far, and the names the
    operating system refuses, each with the error number of the refusal. *)
Record world := {
  fs : gmap PurePosixPath node;
  plan : list (option fault);
  clock : Z;
  log : list event;
  denied : gmap PurePosixPath Z
}.

Definition M (A : Type) : Type := world -> outcome A * world.

Global Instance M_ret : MRet M := fun A a w => (Ret a, w).
Global Instance M_bind : MBind M := fun A B k m w =>
  match m w with
  | (Ret a, w') => k a w'
  | (Raise e, w') => (Raise e, w')
  end.

Definition raise {A} (e : exn) : M A := fun w => (Raise e, w).

Definition lift {A} (o : outcome A) : M A := fun w => (o, w).

(** [try: body except Exception as e: handler e]; every [exn] is an
    [Exception]. *)
Definition try_except {A} (body : M A) (handler : exn -> M A) : M A :=
  fun w =>
    match body w with
    | (Ret a, w') => (Ret a, w')
    | (Raise e, w') => handler e w'
    end.

(** The world after a system call [ev] that leaves the filesystem [m]: the
    call is recorded and one entry of the fault plan is consumed. *)
Definition advance (w : world) (ev : event) (m : gmap PurePosixPath node)
  : world :=
  {| fs := m; plan := tail (plan w); clock := clock w; log := log w ++ [ev];
     denied := denied w |}.

(** One system call: it either fails with the injected fault (leaving
    [partial] behind) or runs [sem] in the world. *)
Definition syscall {A} (ev : event)
    (sem : world -> outcome (A * gmap PurePosixPath node))
    (partial : fault -> gmap PurePosixPath node -> gmap PurePosixPath node)
  : M A :=
  fun w =>
    match head (plan w) with
    | Some (Some f) =>
        (Raise (OSError (f_errno f)), advance w ev (partial f (fs w)))
    | _ => match sem w with
           | Ret (a, m) => (Ret a, advance w ev m)
           | Raise e => (Raise e, advance w ev (fs w))
           end
    end.

(** The events issued between two worlds. *)
Definition issued (w w' : world) : list event := drop (length (log w)) (log w').

Definition parent (p : PurePosixPath) : PurePosixPath :=
  PosixPath (p_root p) (removelast (p_parts p)).

(** The path itself and every directory above it, the anchor included. *)
Definition ancestors (p : PurePosixPath) : list PurePosixPath :=
  map (fun k => PosixPath (p_root p) (take k (p_parts p)))
      (seq 0 (S (length (p_parts p)))).

(** [os.path.isdir(p)]. *)
Definition is_dir (m : gmap PurePosixPath node) (p : PurePosixPath) : bool :=
  match m !! p with Some Dir => true | _ => false end.

(** [os.path.exists(p)]: any failure of the look-up is [False]. *)
Definition os_path_exists (m : gmap PurePosixPath node) (p : PurePosixPath)
  : bool :=
  bool_decide (is_Some (m !! p)).

(** The limits of Linux on one name and on a whole path, counted in bytes
    of the file system encoding (UTF-8: one byte for a code point below
    128, two for the others of the model); a path has to fit in [PATH_MAX]
    bytes with its final NUL. *)
Definition NAME_MAX : Z := 255.
Definition PATH_MAX : Z := 4096.

Definition encoded_len (s : str) : Z :=
  fold_right (fun c n => (if (N_of_ascii c <? 128)%N then 1 else 2) + n) 0 s.

Definition nul : ascii := Ascii.zero.

(** The refusal of one name in the directory that holds it. *)
Definition refused_name (d : gmap PurePosixPath Z) (q : PurePosixPath)
  : option exn :=
  if NAME_MAX <? encoded_len (name q) then Some (OSError ENAMETOOLONG)
  else OSError <$> d !! q.

(** The walk down the levels of a path: directories the tree holds are
    passed; the walk ends at the first level that is not one, or at the
    last level, and meets the refusal of that name, if any. *)
Fixpoint resolve (d : gmap PurePosixPath Z) (m : gmap PurePosixPath node)
    (levels : list PurePosixPath) : option exn :=
  match levels with
  | [] => None
  | q :: rest =>
      match rest, m !! q with
      | _ :: _, Some Dir => resolve d m rest
      | _, _ => refused_name d q
      end
  end.

(** The error with which the operating system refuses the path [p], if it
    does: [ValueError] for an embedded NUL (raised by Python before any
    system call), [ENAMETOOLONG] for a path or a name over the limits, or
    the error of a name listed in [d]. *)
Definition refusal (d : gmap PurePosixPath Z) (m : gmap PurePosixPath node)
    (p : PurePosixPath) : option exn :=
  if contains nul (path_str p) then Some ValueError
  else if PATH_MAX <=? encoded_len (path_str p) then Some (OSError ENAMETOOLONG)
  else resolve d m (ancestors p).

(** [os.mkdir(q)]. *)
Definition mkdir (d : gmap PurePosixPath Z) (m : gmap PurePosixPath node)
    (q : PurePosixPath) : outcome (gmap PurePosixPath node) :=
  match m !! q with
  | Some _ => Raise (OSError EEXIST)
  | None =>
      match refusal d m q with
      | Some e => Raise e
      | None =>
          match p_parts q, m !! parent q with
          | [], _ | _, Some Dir => Ret (<[q := Dir]> m)
          | _, Some (File _) => Raise (OSError ENOTDIR)
          | _, None => Raise (OSError ENOENT)
          end
      end
  end.

Fixpoint take_while {A} (f : A -> bool) (l : list A) : list A :=
  match l with
  | x :: l' => if f x then x :: take_while f l' else []
  | [] => []
  end.

(** The directories [os.makedirs(p)] calls [mkdir] on, in the order of the
    calls: it climbs from the parent of [p] while [os.path.exists] is
    false, makes those levels from the top down, and then [p] itself. *)
Definition makedirs_steps (m : gmap PurePosixPath node) (p : PurePosixPath)
  : list PurePosixPath :=
  rev (take_while (fun q => negb (os_path_exists m q))
                  (rev (removelast (ancestors p)))) ++ [p].

(** [isinstance(e, FileExistsError)]. *)
Definition is_FileExistsError (e : exn) : bool :=
  match e with
  | OSError errno => errno =? EEXIST
  | ValueError => false
  end.

(** The [mkdir] calls of [os.makedirs(p, exist_ok=True)].  [inject] is the
    injected failure, if any: the number of calls that still run and the
    error number of the one that fails.  A failure with [EEXIST] above the
    leaf is passed over ([except FileExistsError: pass]), any other one is
    raised; a failure at the leaf is raised unless the leaf is a
    directory. *)
Fixpoint mkdirs (d : gmap PurePosixPath Z) (inject : option (nat * Z))
    (steps : list PurePosixPath) (m : gmap PurePosixPath node)
  : outcome unit * gmap PurePosixPath node :=
  match steps with
  | [] => (Ret tt, m)
  | q :: rest =>
      let made := match inject with
                  | Some (O, errno) => Raise (OSError errno)
                  | _ => mkdir d m q
                  end in
      let inject' := match inject with
                     | Some (S n, errno) => Some (n, errno)
                     | _ => None
                     end in
      match made with
      | Ret m' => mkdirs d inject' rest m'
      | Raise e =>
          match rest with
          | [] => if is_dir m q then (Ret tt, m) else (Raise e, m)
          | _ :: _ =>
              if is_FileExistsError e then mkdirs d inject' rest m
              else (Raise e, m)
          end
      end
  end.

(** [os.makedirs(p, exist_ok=True)].  An injected fault fails the [mkdir]
    call that follows [f_written] successful ones, or the last call when
    there are fewer: the directories made before it stay. *)
Definition aio_makedirs (p : PurePosixPath) : M unit :=
  fun w =>
    let steps := makedirs_steps (fs w) p in
    let inject :=
      match head (plan w) with
      | Some (Some f) =>
          Some (Nat.min (f_written f) (length steps - 1), f_errno f)
      | _ => None
      end in
    let '(r, m) := mkdirs (denied w) inject steps (fs w) in
    (r, advance w (EvMakedirs p) m).

(** [open(p, 'wb')]: creates or truncates the file. *)
Definition aio_open_wb (p : PurePosixPath) : M unit :=
  syscall (EvOpen p)
    (fun w =>
       let m := fs w in
       match m !! p, refusal (denied w) m p, m !! parent p with
       | Some Dir, _, _ => Raise (OSError EISDIR)
       | None, Some e, _ => Raise e
       | _, _, Some Dir => Ret (tt, <[p := File []]> m)
       | _, _, Some (File _) => Raise (OSError ENOTDIR)
       | _, _, None => Raise (OSError ENOENT)
       end)
    (fun _ m => m).

(** [f.write(data)] followed by the close of the [with] block. *)
Definition aio_write (p : PurePosixPath) (data : bytes) : M unit :=
  syscall (EvWrite p data)
    (fun w => Ret (tt, <[p := File data]> (fs w)))
    (fun f m => <[p := File (take (f_written f) data)]> m).

(** [os.rename(src, dst)]. *)
Definition aio_rename (src dst : PurePosixPath) : M unit :=
  syscall (EvRename src dst)
    (fun w =>
       let m := fs w in
       match refusal (denied w) m src, m !! src with
       | Some e, _ => Raise e
       | None, None => Raise (OSError ENOENT)
       | None, Some n =>
           match refusal (denied w) m dst, n, m !! dst with
           | Some e, _, _ => Raise e
           | None, File _, Some Dir => Raise (OSError EISDIR)
           | None, Dir, Some (File _) => Raise (OSError ENOTDIR)
           | None, _, _ => Ret (tt, <[dst := n]> (delete src m))
           end
       end)
    (fun _ m => m).

(** [os.remove(p)]. *)
Definition aio_remove (p : PurePosixPath) : M unit :=
  syscall (EvRemove p)
    (fun w =>
       let m := fs w in
       match refusal (denied w) m p, m !! p with
       | Some e, _ => Raise e
       | None, None => Raise (OSError ENOENT)
       | None, Some Dir => Raise (OSError EISDIR)
       | None, Some (File _) => Ret (tt, delete p m)
       end)
    (fun _ m => m).

(** [open(p, 'rb')] and [f.read()]. *)
Definition aio_read (p : PurePosixPath) : M bytes :=
  syscall (EvRead p)
    (fun w =>
       let m := fs w in
       match m !! p with
       | None => Raise (default (OSError ENOENT) (refusal (denied w) m p))
       | Some Dir => Raise (OSError EISDIR)
       | Some (File c) => Ret (c, m)
       end)
    (fun _ m => m).

(** [os.stat(p)]. *)
Definition stat (p : PurePosixPath) (w : world) : outcome node :=
  match fs w !! p with
  | Some n => Ret n
  | None => Raise (default (OSError ENOENT) (refusal (denied w) (fs w) p))
  end.

(** The error numbers [pathlib] takes for "no such file". *)
Definition IGNORED_ERRNOS : list Z := [ENOENT; ENOTDIR; EBADF; ELOOP].

(** [p.exists()]: [stat], with [False] for an error of [IGNORED_ERRNOS]
    and for a [ValueError]; every other error of the [stat] is raised.
    The probe is not recorded and no fault is injected into it. *)
Definition path_exists (p : PurePosixPath) : M bool :=
  fun w =>
    match stat p w with
    | Ret _ => (Ret true, w)
    | Raise (OSError errno) =>
        if bool_decide (errno ∈ IGNORED_ERRNOS) then (Ret false, w)
        else (Raise (OSError errno), w)
    | Raise ValueError => (Ret false, w)
    end.

(** [datetime.utcnow()]. *)
Definition utcnow : M Z := fun w => (Ret (clock w), w).

(* ====================================================================== *)
(** * Values exchanged with the caller *)
(* ====================================================================== *)

Module StorageResult.
Record t := {
  hash : str;
  path : str;
  size : Z;
  is_duplicate : bool;
  stored_at : Z
}.
End StorageResult.

(** The argument of [store]: [Union[bytes, io.BytesIO]]. *)
Inductive image_input :=
| RawBytes (b : bytes)
| BytesIO (buffer : bytes).

Definition getvalue (i : image_input) : bytes :=
  match i with RawBytes b => b | BytesIO b => b end.

(* ====================================================================== *)
(** * The [ImageStorage] class *)
(* ====================================================================== *)

(** The literal ['.tmp'] of [store]. *)
Definition tmp_suffix : str := lit ".tmp".

Module ImageStorage.

Record t := {
  base_path : PurePosixPath;
  shard_depth : Z;
  shard_width : Z
}.

Definition default_base_path : str := lit "/mnt/raid1/sai-images".
Definition default_shard_depth : Z := 2.
Definition default_shard_width : Z := 2.
Definition default_extension : str := lit ".jpg".

(** [ImageStorage.__init__]: the three attributes are assigned, nothing is
    checked. *)
Definition __init__ (base_path : str) (shard_depth shard_width : Z)
  : outcome t :=
  Ret {| base_path := Path base_path;
         shard_depth := shard_depth;
         shard_width := shard_width |}.

(** The module-level instance [image_storage = ImageStorage()]. *)
Definition image_storage : t :=
  {| base_path := Path default_base_path;
     shard_depth := default_shard_depth;
     shard_width := default_shard_width |}.

Definition _compute_hash (data : bytes) : str := SHA256.hexdigest data.

(** The list [parts] built by the loop of [_get_shard_path]. *)
Definition shard_parts (self : t) (hash : str) : list str :=
  map (fun i => let start := i * shard_width self in
                let stop := start + shard_width self in
                pyslice hash start stop)
      (range (shard_depth self)).

Definition _get_shard_path (self : t) (hash : str) : PurePosixPath :=
  joinpath (base_path self) (shard_parts self hash).

Definition _get_file_path (self : t) (hash extension : str)
  : PurePosixPath :=
  truediv (_get_shard_path self hash) (hash ++ extension).

Definition get_path (self : t) (image_hash extension : str) : str :=
  path_str (_get_file_path self image_hash extension).

(** The body of the [try] block of [store]. *)
Definition store_write (temp_path file_path : PurePosixPath) (image_data : bytes)
  : M unit :=
  aio_open_wb temp_path;;
  aio_write temp_path image_data;;
  aio_rename temp_path file_path.

(** The [except Exception] handler of [store]. *)
Definition store_cleanup (temp_path : PurePosixPath) (e : exn) : M unit :=
  present ← path_exists temp_path;
  (if present : bool then aio_remove temp_path else mret tt);;
  raise e.

(** [store]; the [metadata] argument, which the source accepts and never
    reads, is left out. *)
Definition store (self : t) (image_data : image_input)
    (extension : str) : M StorageResult.t :=
  let image_data := getvalue image_data in
  let image_hash := _compute_hash image_data in
  let file_path := _get_file_path self image_hash extension in
  is_duplicate ← path_exists file_path;
  (if negb is_duplicate then
     let shard_dir := _get_shard_path self image_hash in
     aio_makedirs shard_dir;;
     temp_path ← lift (with_suffix file_path tmp_suffix);
     try_except (store_write temp_path file_path image_data)
                (store_cleanup temp_path)
   else mret tt);;
  now ← utcnow;
  mret {| StorageResult.hash := image_hash;
          StorageResult.path := path_str file_path;
          StorageResult.size := len image_data;
          StorageResult.is_duplicate := is_duplicate;
          StorageResult.stored_at := now |}.

Definition fetch (self : t) (image_hash extension : str)
  : M (option bytes) :=
  let file_path := _get_file_path self image_hash extension in
  present ← path_exists file_path;
  if negb present then mret None
  else data ← aio_read file_path; mret (Some data).

(** [ImageStorage.exists] ([exists] is a reserved word here). *)
Definition exists_ (self : t) (image_hash extension : str) : M bool :=
  let file_path := _get_file_path self image_hash extension in
  path_exists file_path.

Definition delete (self : t) (image_hash extension : str) : M bool :=
  let file_path := _get_file_path self image_hash extension in
  present ← path_exists file_path;
  if negb present then mret false
  else aio_remove file_path;; mret true.

End ImageStorage.

Definition image_storage : ImageStorage.t := ImageStorage.image_storage.

(** A world with an empty filesystem, no injected fault and an empty log. *)
Definition fresh (now : Z) : world :=
  {| fs := ∅; plan := []; clock := now; log := []; denied := ∅ |}.

Definition with_plan (w : world) (pl : list (option fault)) : world :=
  {| fs := fs w; plan := pl; clock := clock w; log := log w;
     denied := denied w |}.

(* ====================================================================== *)
(** * Digests, well-formed paths and the layout of the specification *)
(* ====================================================================== *)

Definition hello_hash : str :=
  lit "2cf24dba5fb0a30e26e83b2ac5b9e29e1b161e5c1fa7425e73043362938b9824".

Definition is_hex (c : ascii) : bool :=
  existsb (Ascii.eqb c) (lit "0123456789abcdef").

(** A full-length digest: 64 lowercase hexadecimal characters. *)
Definition full_length_digest (h : str) : Prop :=
  length h = 64%nat /\ forallb is_hex h = true.

(** A well-formed name component: what the parser lets through. *)
Definition name_ok (x : str) : Prop :=
  x <> [] /\ x <> [dot] /\ contains sep x = false.

(** A well-formed path value: one of the three anchors and well-formed
    name components. *)
Definition wf_path (p : PurePosixPath) : Prop :=
  In (p_root p) [[]; [sep]; [sep; sep]] /\ Forall name_ok (p_parts p).

Definition hex_str (s : str) : Prop := forallb is_hex s = true.

(** The layout of the specification, [{root}/{digest[0:w]}/{digest[w:2w]}/
    .../{digest}{extension}]: the root joined, one [/] at a time, with the
    [d] slices of the digest and then with the leaf name. *)
Definition spec_levels (d w : Z) (digest : str) : list str :=
  map (fun i => pyslice digest (i * w) ((i + 1) * w)) (range d).

Definition spec_location (root : PurePosixPath) (d w : Z) (digest extension : str)
  : str :=
  path_str (fold_left truediv (spec_levels d w digest ++ [digest ++ extension]) root).

(** A configuration the specification calls invalid. *)
Definition spec_invalid_configuration (d w : Z) : Prop :=
  (w = 0 /\ d <> 0) \/ d < 0.

(** The component [".."], which the parser keeps and the operating system
    resolves to the directory above. *)
Definition dotdot : str := [dot; dot].

(** [p] lies under [base]: same anchor, the components of [base] come
    first, and none of the components after them is [".."], so that the
    operating system does not climb out of [base] again. *)
Definition under_root (base p : PurePosixPath) : Prop :=
  p_root p = p_root base /\
  exists rest, p_parts p = p_parts base ++ rest /\ ~ In dotdot rest.

(** The error number the probe [p.exists()] raises when the tree does not
    hold [p], if it raises: the refusal of [p], unless it is a
    [ValueError] or one of the errors the probe takes for "no such
    file". *)
Definition probe_refused (w : world) (p : PurePosixPath) : option Z :=
  match refusal (denied w) (fs w) p with
  | Some (OSError errno) =>
      if bool_decide (errno ∈ IGNORED_ERRNOS) then None else Some errno
  | _ => None
  end.

(** The next system call is not hit by an injected fault. *)
Definition unfaulted (w : world) : bool :=
  match head (plan w) with Some (Some _) => false | _ => true end.

(** The result record [store] builds for a payload. *)
Definition storage_result (self : ImageStorage.t) (data : bytes)
    (extension : str) (is_duplicate : bool) (now : Z) : StorageResult.t :=
  {| StorageResult.hash := ImageStorage._compute_hash data;
     StorageResult.path :=
       path_str (ImageStorage._get_file_path self (ImageStorage._compute_hash data)
                                            extension);
     StorageResult.size := len data;
     StorageResult.is_duplicate := is_duplicate;
     StorageResult.stored_at := now |}.

(* ====================================================================== *)
(** * Concrete inputs *)
(* ====================================================================== *)

Definition hello : bytes := blit "hello".
Definition hello_in : image_input := RawBytes hello.
Definition jpg : str := ImageStorage.default_extension.

(** The digest of [b"hello"], its final locations under the extensions
    [.jpg] and [.tmp], and its shard directory, in the default store. *)
Abbreviation hello_digest := (ImageStorage._compute_hash (getvalue hello_in)).
Abbreviation hello_jpg :=
  (ImageStorage._get_file_path image_storage hello_digest jpg).
Abbreviation hello_tmp :=
  (ImageStorage._get_file_path image_storage hello_digest tmp_suffix).
Abbreviation hello_shard :=
  (ImageStorage._get_shard_path image_storage hello_digest).

Definition hello_jpg_location : str :=
  lit "/mnt/raid1/sai-images/2c/f2/2cf24dba5fb0a30e26e83b2ac5b9e29e1b161e5c1fa7425e73043362938b9824.jpg".
Definition hello_tmp_location : str :=
  lit "/mnt/raid1/sai-images/2c/f2/2cf24dba5fb0a30e26e83b2ac5b9e29e1b161e5c1fa7425e73043362938b9824.tmp".
Definition hello_flat_location : str :=
  lit "/mnt/raid1/sai-images/2cf24dba5fb0a30e26e83b2ac5b9e29e1b161e5c1fa7425e73043362938b9824.jpg".

(** The result of a first write of [b"hello"]. *)
Definition first_result : StorageResult.t :=
  {| StorageResult.hash := hello_hash;
     StorageResult.path := hello_jpg_location;
     StorageResult.size := 5;
     StorageResult.is_duplicate := false;
     StorageResult.stored_at := 0 |}.

(** Two injected faults: no space left on device after two bytes, and
    permission denied. *)
Definition enospc : fault := {| f_errno := 28; f_written := 2 |}.
Definition eacces : fault := {| f_errno := 13; f_written := 0 |}.

(** The world a computation leaves behind. *)
Definition after {A} (m : M A) (w : world) : world := snd (m w).

(** The world after [b"hello"] has been stored once. *)
Abbreviation stored :=
  (after (ImageStorage.store image_storage hello_in jpg) (fresh 0)).

(** Fault plans for one call of [store] on the first-write path, whose
    system calls are makedirs, open, write, rename and, in the handler,
    remove; and the worlds along such a call. *)
Definition rename_fails : world :=
  with_plan (fresh 0) [None; None; None; Some enospc].
Abbreviation rename_fails_dirs :=
  (after (aio_makedirs hello_shard) rename_fails).
Abbreviation rename_fails_tried :=
  (after (ImageStorage.store_write hello_tmp hello_jpg (getvalue hello_in))
         rename_fails_dirs).
Abbreviation rename_fails_cleaned :=
  (after (aio_remove hello_tmp) rename_fails_tried).

Definition cleanup_fails : world :=
  with_plan (fresh 0) [None; None; None; Some enospc; Some eacces].
Abbreviation cleanup_fails_dirs :=
  (after (aio_makedirs hello_shard) cleanup_fails).
Abbreviation cleanup_fails_tried :=
  (after (ImageStorage.store_write hello_tmp hello_jpg (getvalue hello_in))
         cleanup_fails_dirs).
Abbreviation cleanup_fails_end :=
  (after (aio_remove hello_tmp) cleanup_fails_tried).

Definition write_and_cleanup_fail : world :=
  with_plan (fresh 0) [None; None; Some enospc; Some eacces].

(** Stores built with configurations the specification calls invalid. *)
Definition zero_width_storage : ImageStorage.t :=
  {| ImageStorage.base_path := Path ImageStorage.default_base_path;
     ImageStorage.shard_depth := 2;
     ImageStorage.shard_width := 0 |}.
Definition negative_depth_storage : ImageStorage.t :=
  {| ImageStorage.base_path := Path ImageStorage.default_base_path;
     ImageStorage.shard_depth := -1;
     ImageStorage.shard_width := 2 |}.

(** Worlds for the operations that take a digest: the object of
    [hello_hash] in place, once with a removal that will fail; a store
    whose directory creation fails; a directory where the object of
    [b"hello"] belongs. *)
Abbreviation hello_hash_jpg :=
  (ImageStorage._get_file_path image_storage hello_hash jpg).

Definition hello_present : world :=
  {| fs := {[ hello_hash_jpg := File hello ]}; plan := []; clock := 0; log := [];
     denied := ∅ |}.
Abbreviation hello_deleted :=
  (after (ImageStorage.delete image_storage hello_hash jpg) hello_present).
Abbreviation hello_fetched :=
  (after (ImageStorage.fetch image_storage hello_hash jpg) hello_present).

Definition remove_fails : world := with_plan hello_present [Some eacces].
Abbreviation remove_fails_end :=
  (after (ImageStorage.delete image_storage hello_hash jpg) remove_fails).

(** Permission denied at the sixth [mkdir] of a [makedirs]: the anchor
    and the four directories above the shard directory of [b"hello"] are
    made, the shard directory itself is not. *)
Definition eacces_late : fault := {| f_errno := 13; f_written := 5 |}.

Definition makedirs_fails : world := with_plan (fresh 0) [Some eacces_late].
Abbreviation makedirs_fails_end :=
  (after (aio_makedirs hello_shard) makedirs_fails).

Definition directory_in_the_way : world :=
  {| fs := {[ hello_jpg := Dir ]}; plan := []; clock := 0; log := [];
     denied := ∅ |}.

(** The shard directory of [hello_hash] in place and empty; the same with
    a temporary path that the operating system refuses while the open is
    hit by another fault; and the same with the look-up of the location of
    [hello_hash] refused (errno 13: the directory cannot be searched). *)
Abbreviation hello_hash_shard :=
  (ImageStorage._get_shard_path image_storage hello_hash).

Definition shard_in_place : world :=
  {| fs := foldr (fun q acc => <[q := Dir]> acc) ∅ (ancestors hello_hash_shard);
     plan := []; clock := 0; log := []; denied := ∅ |}.

Definition temp_refused : world :=
  {| fs := fs shard_in_place; plan := [None; Some enospc]; clock := 0; log := [];
     denied := {[ hello_tmp := 13 ]} |}.
Abbreviation temp_refused_dirs :=
  (after (aio_makedirs hello_shard) temp_refused).
Abbreviation temp_refused_tried :=
  (after (ImageStorage.store_write hello_tmp hello_jpg (getvalue hello_in))
         temp_refused_dirs).

Definition shard_unsearchable : world :=
  {| fs := fs shard_in_place; plan := []; clock := 0; log := [];
     denied := {[ hello_hash_jpg := 13 ]} |}.

(** A digest of 300 characters that begins like [hello_hash], so that its
    shard directory is the one of [hello_hash]. *)
Definition long_digest : str := hello_hash ++ repeat "0"%char 236.
Abbreviation long_digest_jpg :=
  (ImageStorage._get_file_path image_storage long_digest jpg).

(** A digest made of dots, and an extension that spells out the location
    of [hello_hash] below the root. *)
Definition dotted_digest : str := lit "....".
Definition nested_extension : str := lit "2c/f2/" ++ hello_hash ++ jpg.

(** A store with more shard levels than a digest has slices. *)
Definition deep_storage : ImageStorage.t :=
  {| ImageStorage.base_path := Path ImageStorage.default_base_path;
     ImageStorage.shard_depth := 40;
     ImageStorage.shard_width := 2 |}.

(* ====================================================================== *)
(** * The reprocessing script (scripts/reprocess_bboxes.py)

    Conventions.
    - The values handled are those [resp.json()] returns: [None], [bool],
      [int] ([Z]), [float] (binary64), [str], [list], and [dict] with
      string keys, a dict being the list of its items in insertion order.
    - Python's binary [-] and [>] on such values are parameters
      ([Operators]); a property that depends on how they act says so in
      a hypothesis.
    - The database, the inference service and the filesystem are an
      environment ([Environment]) that decides, from the calls made so
      far, whether the next call raises and what it answers.  The state of
      a run is the list of the calls made and of the lines printed.
    - [print] is one of the calls the environment can make raise (a
      closed or broken stream); a line is recorded when it was printed, a
      [print] that raises records nothing.  The wording of a line is left
      out, what it reports is kept.  Timing ([time.time()]) is left out.
      The command line is parsed already ([args]).
    - An error is an [Exception], or one of the two [BaseException]s that
      an [except Exception] clause lets through. *)
(* ====================================================================== *)

Module reprocess_bboxes.
Import PrimFloat.

(** The exceptions of a run: the two the conversion of values raises,
    any other subclass of [Exception] ([OtherError], with a code to tell
    them apart), and the exceptions that derive from [BaseException]
    without being an [Exception]. *)
Inductive error :=
| AttributeError
| TypeError
| OtherError (code : Z)
| KeyboardInterrupt
| SystemExit.

(** [isinstance(e, Exception)]. *)
Definition is_Exception (e : error) : bool :=
  match e with
  | KeyboardInterrupt | SystemExit => false
  | _ => true
  end.

Inductive result (A : Type) :=
| Ok (a : A)
| Err (e : error).
Arguments Ok {A} a.
Arguments Err {A} e.

Global Instance result_ret : MRet result := fun A a => Ok a.
Global Instance result_bind : MBind result := fun A B k m =>
  match m with
  | Ok a => k a
  | Err e => Err e
  end.

(** ** Python values *)

#[warnings="-register-all"] Inductive value :=
| VNone
| VBool (b : bool)
| VInt (n : Z)
| VFloat (x : PrimFloat.float)
| VStr (s : str)
| VList (items : list value)
| VDict (items : list (str * value)).

(** [bool(v)]. *)
Definition truthy (v : value) : bool :=
  match v with
  | VNone => false
  | VBool b => b
  | VInt n => negb (n =? 0)
  | VFloat x => negb (PrimFloat.eqb x PrimFloat.zero)
  | VStr s => negb (str_eqb s [])
  | VList items => match items with [] => false | _ => true end
  | VDict items => match items with [] => false | _ => true end
  end.

Fixpoint lookup_key (items : list (str * value)) (key : str) : option value :=
  match items with
  | [] => None
  | (k, v) :: rest => if str_eqb k key then Some v else lookup_key rest key
  end.

(** [o.get(key, default)]: only a dict has the method. *)
Definition get (o : value) (key : str) (default : value) : result value :=
  match o with
  | VDict items =>
      Ok (match lookup_key items key with Some v => v | None => default end)
  | _ => Err AttributeError
  end.

(** The items a [for] loop runs over. *)
Definition iterate (o : value) : result (list value) :=
  match o with
  | VList items => Ok items
  | VDict items => Ok (map (fun kv => VStr (fst kv)) items)
  | VStr s => Ok (map (fun c => VStr [c]) s)
  | _ => Err TypeError
  end.

(** Python's [a - b] and [a > b]. *)
Class Operators := {
  py_sub : value -> value -> result value;
  py_gt : value -> value -> result bool
}.

(** [max(a, b)]: the first argument unless the second is greater. *)
Definition py_max `{Operators} (a b : value) : result value :=
  g ← py_gt b a; mret (if g : bool then b else a).

(** ** Config *)

Definition INFERENCE_URL : str := lit "http://localhost:8888/api/v1/infer".
Definition CONFIDENCE_THRESHOLD : PrimFloat.float := 0.25%float.
Definition IOU_THRESHOLD : PrimFloat.float := 0x1.999999999999ap-4%float.
Definition REQUEST_TIMEOUT : Z := 30.

(** ** Helpers *)

Definition xyxy_to_xywh `{Operators} (x1 y1 x2 y2 : value) : result value :=
  width ← py_sub x2 x1;
  height ← py_sub y2 y1;
  mret (VDict [(lit "x", x1); (lit "y", y1);
               (lit "width", width); (lit "height", height)]).

(** The body of the loop of [build_detections]: the entry appended for
    one [det]. *)
Definition build_detection `{Operators} (det : value) : result value :=
  bbox ← get det (lit "bbox") (VDict []);
  class_name ← get det (lit "class_name") VNone;
  class ← (if truthy class_name then mret class_name
           else c ← get det (lit "class") VNone;
                mret (if truthy c then c else VStr (lit "unknown")));
  confidence ← get det (lit "confidence") (VInt 0);
  x1 ← get bbox (lit "x1") (VInt 0);
  y1 ← get bbox (lit "y1") (VInt 0);
  x2 ← get bbox (lit "x2") (VInt 0);
  y2 ← get bbox (lit "y2") (VInt 0);
  bounding_box ← xyxy_to_xywh x1 y1 x2 y2;
  mret (VDict [(lit "class", class); (lit "confidence", confidence);
               (lit "bounding_box", bounding_box)]).

Fixpoint build_detections_loop `{Operators} (dets out : list value)
  : result (list value) :=
  match dets with
  | [] => mret out
  | det :: rest =>
      entry ← build_detection det;
      build_detections_loop rest (out ++ [entry])
  end.

Definition build_detections `{Operators} (raw_detections : value)
  : result (list value) :=
  dets ← iterate raw_detections;
  build_detections_loop dets [].

(** ** Calls and console lines *)

(** The parameters of the [UPDATE execution_analysis] statement, in the
    order of its placeholders; [detections] is passed through
    [json.dumps]. *)
Record update_row := {
  detections : list value;
  detection_count : Z;
  has_fire : value;
  has_smoke : value;
  confidence_fire : value;
  confidence_smoke : value;
  confidence_score : value;
  execution_id : Z
}.

Inductive statement :=
| SelectTargets (limit : option Z)
| UpdateExecutionAnalysis (row : update_row).

Inductive line :=
| LInferenceError (e : error)
| LDryRun (execution_id : Z) (n_detections : Z) (has_fire has_smoke : value)
| LFound (total : Z) (dry_run : bool)
| LNothingToDo
| LSkip (i total exec_id : Z) (img_path : str)
| LInferring (i total exec_id : Z) (img_path : str)
| LFailed
| LDetections (n_det : value)
| LUpdated
| LZeroRows
| LDone (ok skip fail : Z).

Inductive action :=
| Connect
| SetAutocommit (b : bool)
| Cursor
| Execute (s : statement)
| Fetchall
| Commit
| Rollback
| CursorClose
| ConnectionClose
| PathExists (p : str)
| Open (p : str)
| Post (url file_name : str) (data : list (str * value)) (timeout : Z)
| FileClose
| RaiseForStatus
| Json
| Sleep (seconds : PrimFloat.float)
| Print (l : line).

(** What the outside world does: whether a call raises, and the answers
    of the calls that have one, each as a function of the run so far. *)
Class Environment := {
  raises : list action -> action -> option error;
  rows : list action -> list (Z * str);
  rowcount : list action -> Z;
  path_exists : list action -> bool;
  json : list action -> value
}.

Definition P (A : Type) : Type := list action -> result A * list action.

Global Instance P_ret : MRet P := fun A a tr => (Ok a, tr).
Global Instance P_bind : MBind P := fun A B k m tr =>
  match m tr with
  | (Ok a, tr') => k a tr'
  | (Err e, tr') => (Err e, tr')
  end.

Definition lift {A} (r : result A) : P A := fun tr => (r, tr).

(** One call: it is recorded, and raises or answers. *)
Definition call `{Environment} {A} (a : action) (answer : list action -> A)
  : P A :=
  fun tr =>
    match raises tr a with
    | Some e => (Err e, tr ++ [a])
    | None => (Ok (answer tr), tr ++ [a])
    end.

Definition do `{Environment} (a : action) : P unit := call a (fun _ => tt).

(** [print(...)]: the line is recorded when it was printed. *)
Definition print `{Environment} (l : line) : P unit :=
  fun tr =>
    match raises tr (Print l) with
    | Some e => (Err e, tr)
    | None => (Ok tt, tr ++ [Print l])
    end.

(** [try: body except Exception as e: handler e]: an exception that is
    not an [Exception] is not caught. *)
Definition try_except {A} (body : P A) (handler : error -> P A) : P A :=
  fun tr =>
    match body tr with
    | (Ok a, tr') => (Ok a, tr')
    | (Err e, tr') => if is_Exception e then handler e tr' else (Err e, tr')
    end.

(** [with open(...) as f: body]: the file is closed on the way out, also
    when [body] raised. *)
Definition with_open `{Environment} {A} (p : str) (body : P A) : P A :=
  do (Open p);;
  ((fun tr =>
      match body tr with
      | (Ok a, tr') => (do FileClose;; mret a) tr'
      | (Err e, tr') => (do FileClose;; lift (Err e)) tr'
      end) : P A).

Definition infer_image `{Environment} (image_path : str) : P value :=
  try_except
    (with_open image_path
       (do (Post INFERENCE_URL (name (Path image_path))
                 [(lit "confidence_threshold", VFloat CONFIDENCE_THRESHOLD);
                  (lit "iou_threshold", VFloat IOU_THRESHOLD);
                  (lit "return_image", VStr (lit "false"))]
                 REQUEST_TIMEOUT));;
     do RaiseForStatus;;
     call Json json)
    (fun e => print (LInferenceError e);; mret VNone).

Definition update_analysis `{Operators} `{Environment}
    (execution_id : Z) (result : value) (dry_run : bool) : P bool :=
  raw_detections ← lift (get result (lit "detections") (VList []));
  detections ← lift (build_detections raw_detections);
  confidence_scores ← lift (get result (lit "confidence_scores") (VDict []));
  fire_fallback ← lift (get confidence_scores (lit "DetectionClass.FIRE") (VInt 0));
  fire ← lift (get confidence_scores (lit "fire") fire_fallback);
  let conf_fire := if truthy fire then fire else VInt 0 in
  smoke_fallback ← lift (get confidence_scores (lit "DetectionClass.SMOKE") (VInt 0));
  smoke ← lift (get confidence_scores (lit "smoke") smoke_fallback);
  let conf_smoke := if truthy smoke then smoke else VInt 0 in
  highest ← lift (py_max conf_fire conf_smoke);
  let conf_score := if truthy highest then highest else VNone in
  if dry_run then
    has_fire ← lift (get result (lit "has_fire") VNone);
    has_smoke ← lift (get result (lit "has_smoke") VNone);
    print (LDryRun execution_id (len detections) has_fire has_smoke);;
    mret true
  else
    has_fire ← lift (get result (lit "has_fire") (VBool false));
    has_smoke ← lift (get result (lit "has_smoke") (VBool false));
    fire_positive ← lift (py_gt conf_fire (VInt 0));
    smoke_positive ← lift (py_gt conf_smoke (VInt 0));
    do (Execute (UpdateExecutionAnalysis
          {| detections := detections;
             detection_count := len detections;
             has_fire := has_fire;
             has_smoke := has_smoke;
             confidence_fire := if fire_positive : bool then conf_fire else VNone;
             confidence_smoke := if smoke_positive : bool then conf_smoke else VNone;
             confidence_score := conf_score;
             execution_id := execution_id |}));;
    ((fun tr => (Ok (rowcount tr =? 1), tr)) : P bool).

(** [if limit:] -- [None] and [0] add no [LIMIT] clause. *)
Definition limit_clause (limit : option Z) : option Z :=
  match limit with
  | Some n => if n =? 0 then None else Some n
  | None => None
  end.

Definition fetch_targets `{Environment} (limit : option Z) : P (list (Z * str)) :=
  do (Execute (SelectTargets (limit_clause limit)));;
  call Fetchall rows.

(** ** Main *)

Record args := {
  dry_run : bool;
  limit : option Z;
  delay : PrimFloat.float
}.

(** The default of [--delay], [0.1]. *)
Definition default_delay : PrimFloat.float := 0x1.999999999999ap-4%float.

Record counters := { ok : Z; skip : Z; fail : Z }.

(** The body of the [for] loop of [main] for the [i]-th target: it gives
    the counters after the target; [continue] ends it early. *)
Definition main_body `{Operators} `{Environment} (a : args) (total i : Z)
    (exec_id : Z) (img_path : str) (c : counters) : P counters :=
  present ← call (PathExists img_path) path_exists;
  if negb present then
    print (LSkip i total exec_id img_path);;
    mret {| ok := ok c; skip := skip c + 1; fail := fail c |}
  else
    print (LInferring i total exec_id img_path);;
    result ← infer_image img_path;
    match result with
    | VNone =>
        print LFailed;;
        mret {| ok := ok c; skip := skip c; fail := fail c + 1 |}
    | _ =>
        n_det ← lift (get result (lit "detection_count") (VInt 0));
        print (LDetections n_det);;
        updated ← update_analysis exec_id result (dry_run a);
        c' ← (if updated : bool then
                (if negb (dry_run a) then do Commit else mret tt);;
                print LUpdated;;
                mret {| ok := ok c + 1; skip := skip c; fail := fail c |}
              else
                print LZeroRows;;
                do Rollback;;
                mret {| ok := ok c; skip := skip c; fail := fail c + 1 |});
        (if PrimFloat.ltb PrimFloat.zero (delay a) && (i <? total)
         then do (Sleep (delay a)) else mret tt);;
        mret c'
    end.

(** The [for] loop of [main], from the [i]-th target on. *)
Fixpoint main_loop `{Operators} `{Environment} (a : args) (total i : Z)
    (targets : list (Z * str)) (c : counters) : P counters :=
  match targets with
  | [] => mret c
  | (exec_id, img_path) :: rest =>
      c' ← main_body a total i exec_id img_path c;
      main_loop a total (i + 1) rest c'
  end.

Definition main `{Operators} `{Environment} (a : args) : P unit :=
  do Connect;;
  do (SetAutocommit false);;
  do Cursor;;
  targets ← fetch_targets (limit a);
  let total := len targets in
  print (LFound total (dry_run a));;
  if total =? 0 then print LNothingToDo
  else
    c ← main_loop a total 1 targets {| ok := 0; skip := 0; fail := 0 |};
    print (LDone (ok c) (skip c) (fail c));;
    do CursorClose;;
    do ConnectionClose.

End reprocess_bboxes.

(** ** Observations on a run *)

Definition is_dict (v : reprocess_bboxes.value) : bool :=
  match v with reprocess_bboxes.VDict _ => true | _ => false end.

Definition is_update (a : reprocess_bboxes.action) : bool :=
  match a with
  | reprocess_bboxes.Execute (reprocess_bboxes.UpdateExecutionAnalysis _) => true
  | _ => false
  end.

Definition is_commit (a : reprocess_bboxes.action) : bool :=
  match a with reprocess_bboxes.Commit => true | _ => false end.

Definition is_rollback (a : reprocess_bboxes.action) : bool :=
  match a with reprocess_bboxes.Rollback => true | _ => false end.

Definition is_sleep (a : reprocess_bboxes.action) : bool :=
  match a with reprocess_bboxes.Sleep _ => true | _ => false end.

Definition is_close (a : reprocess_bboxes.action) : bool :=
  match a with
  | reprocess_bboxes.CursorClose | reprocess_bboxes.ConnectionClose => true
  | _ => false
  end.

(** The calls [infer_image] makes. *)
Definition is_inference_call (a : reprocess_bboxes.action) : bool :=
  match a with
  | reprocess_bboxes.Open _ | reprocess_bboxes.Post _ _ _ _
  | reprocess_bboxes.FileClose | reprocess_bboxes.RaiseForStatus
  | reprocess_bboxes.Json | reprocess_bboxes.Print _ => true
  | _ => false
  end.

(** The calls [main] makes before its loop. *)
Definition startup (limit : option Z) : list reprocess_bboxes.action :=
  [reprocess_bboxes.Connect; reprocess_bboxes.SetAutocommit false;
   reprocess_bboxes.Cursor;
   reprocess_bboxes.Execute
     (reprocess_bboxes.SelectTargets (reprocess_bboxes.limit_clause limit));
   reprocess_bboxes.Fetchall].

(** The request [infer_image] posts for [image_path]. *)
Definition inference_request (image_path : str) : reprocess_bboxes.action :=
  reprocess_bboxes.Post reprocess_bboxes.INFERENCE_URL (name (Path image_path))
    [(lit "confidence_threshold",
      reprocess_bboxes.VFloat reprocess_bboxes.CONFIDENCE_THRESHOLD);
     (lit "iou_threshold", reprocess_bboxes.VFloat reprocess_bboxes.IOU_THRESHOLD);
     (lit "return_image", reprocess_bboxes.VStr (lit "false"))]
    reprocess_bboxes.REQUEST_TIMEOUT.

(** How many of the calls satisfy [f]. *)
Definition count (f : reprocess_bboxes.action -> bool)
    (evs : list reprocess_bboxes.action) : Z :=
  len (List.filter f evs).

(** The value under [key] when it is there and truthy. *)
Definition truthy_item (items : list (str * reprocess_bboxes.value)) (key : str)
  : option reprocess_bboxes.value :=
  match reprocess_bboxes.lookup_key items key with
  | Some v => if reprocess_bboxes.truthy v then Some v else None
  | None => None
  end.

(** The label of a detection: what it has under ["class_name"] if that is
    there and truthy, else what it has under ["class"] if that is there
    and truthy, else ["unknown"]. *)
Definition label_of (items : list (str * reprocess_bboxes.value))
  : reprocess_bboxes.value :=
  match truthy_item items (lit "class_name"), truthy_item items (lit "class") with
  | Some v, _ => v
  | None, Some v => v
  | None, None => reprocess_bboxes.VStr (lit "unknown")
  end.

(** An entry in the dashboard format made from the detection [det]: the
    label is [label_of] the detection, and so never falsy; the corners
    [x1], [y1] become [x] and [y], and the width and height are the
    differences Python computes. *)
Definition dashboard_entry `{reprocess_bboxes.Operators}
    (det entry : reprocess_bboxes.value) : Prop :=
  exists items bbox class width height,
    det = reprocess_bboxes.VDict items /\
    reprocess_bboxes.get det (lit "bbox") (reprocess_bboxes.VDict [])
    = reprocess_bboxes.Ok (reprocess_bboxes.VDict bbox) /\
    class = label_of items /\
    reprocess_bboxes.truthy class = true /\
    reprocess_bboxes.py_sub
      (default (reprocess_bboxes.VInt 0) (reprocess_bboxes.lookup_key bbox (lit "x2")))
      (default (reprocess_bboxes.VInt 0) (reprocess_bboxes.lookup_key bbox (lit "x1")))
    = reprocess_bboxes.Ok width /\
    reprocess_bboxes.py_sub
      (default (reprocess_bboxes.VInt 0) (reprocess_bboxes.lookup_key bbox (lit "y2")))
      (default (reprocess_bboxes.VInt 0) (reprocess_bboxes.lookup_key bbox (lit "y1")))
    = reprocess_bboxes.Ok height /\
    entry =
    reprocess_bboxes.VDict
      [(lit "class", class);
       (lit "confidence",
        default (reprocess_bboxes.VInt 0)
                (reprocess_bboxes.lookup_key items (lit "confidence")));
       (lit "bounding_box",
        reprocess_bboxes.VDict
          [(lit "x", default (reprocess_bboxes.VInt 0)
                             (reprocess_bboxes.lookup_key bbox (lit "x1")));
           (lit "y", default (reprocess_bboxes.VInt 0)
                             (reprocess_bboxes.lookup_key bbox (lit "y1")));
           (lit "width", width); (lit "height", height)])].

(** The box of a detection that carries no coordinates. *)
Definition zero_box : reprocess_bboxes.value :=
  reprocess_bboxes.VDict
    [(lit "x", reprocess_bboxes.VInt 0); (lit "y", reprocess_bboxes.VInt 0);
     (lit "width", reprocess_bboxes.VInt 0); (lit "height", reprocess_bboxes.VInt 0)].

(** What the calls of a stretch of the loop of [main] add up to: nothing is
    closed; a dry run writes nothing; without a positive delay nothing
    sleeps; every commit and every rollback has its [UPDATE]. *)
Definition quiet (a : reprocess_bboxes.args)
    (evs : list reprocess_bboxes.action) : Prop :=
  count is_close evs = 0 /\
  (reprocess_bboxes.dry_run a = true ->
   count is_update evs = 0 /\ count is_commit evs = 0 /\
   count is_rollback evs = 0) /\
  (PrimFloat.ltb PrimFloat.zero (reprocess_bboxes.delay a) = false ->
   count is_sleep evs = 0) /\
  count is_commit evs + count is_rollback evs <= count is_update evs.

(** The counters [c'] after [n] targets were gone through from the
    counters [c], with the calls [evs]: every target was counted once; and
    outside a dry run every target counted [ok] was committed, every
    [UPDATE] was committed or rolled back, and what was rolled back was
    counted [fail]. *)
Definition settled (a : reprocess_bboxes.args)
    (c c' : reprocess_bboxes.counters) (n : Z)
    (evs : list reprocess_bboxes.action) : Prop :=
  reprocess_bboxes.ok c' + reprocess_bboxes.skip c' + reprocess_bboxes.fail c'
  = reprocess_bboxes.ok c + reprocess_bboxes.skip c + reprocess_bboxes.fail c + n /\
  reprocess_bboxes.ok c <= reprocess_bboxes.ok c' /\
  reprocess_bboxes.skip c <= reprocess_bboxes.skip c' /\
  reprocess_bboxes.fail c <= reprocess_bboxes.fail c' /\
  (reprocess_bboxes.dry_run a = false ->
   count is_commit evs = reprocess_bboxes.ok c' - reprocess_bboxes.ok c /\
   count is_update evs = count is_commit evs + count is_rollback evs /\
   count is_rollback evs <= reprocess_bboxes.fail c' - reprocess_bboxes.fail c).

(** ** Concrete inputs for the script *)

(** Python's [-] and [>] on two ints; the inputs below have no other
    operands. *)
Definition int_operators : reprocess_bboxes.Operators :=
  {| reprocess_bboxes.py_sub := fun a b =>
       match a, b with
       | reprocess_bboxes.VInt x, reprocess_bboxes.VInt y =>
           reprocess_bboxes.Ok (reprocess_bboxes.VInt (x - y))
       | _, _ => reprocess_bboxes.Err reprocess_bboxes.TypeError
       end;
     reprocess_bboxes.py_gt := fun a b =>
       match a, b with
       | reprocess_bboxes.VInt x, reprocess_bboxes.VInt y =>
           reprocess_bboxes.Ok (y <? x)
       | _, _ => reprocess_bboxes.Err reprocess_bboxes.TypeError
       end |}.

(** A detection as the service returns it, and the entry made from it. *)
Definition sample_detection : reprocess_bboxes.value :=
  reprocess_bboxes.VDict
    [(lit "class_name", reprocess_bboxes.VStr (lit "fire"));
     (lit "confidence", reprocess_bboxes.VInt 1);
     (lit "bbox",
      reprocess_bboxes.VDict
        [(lit "x1", reprocess_bboxes.VInt 10); (lit "y1", reprocess_bboxes.VInt 20);
         (lit "x2", reprocess_bboxes.VInt 110); (lit "y2", reprocess_bboxes.VInt 220)])].

Definition sample_entry : reprocess_bboxes.value :=
  reprocess_bboxes.VDict
    [(lit "class", reprocess_bboxes.VStr (lit "fire"));
     (lit "confidence", reprocess_bboxes.VInt 1);
     (lit "bounding_box",
      reprocess_bboxes.VDict
        [(lit "x", reprocess_bboxes.VInt 10); (lit "y", reprocess_bboxes.VInt 20);
         (lit "width", reprocess_bboxes.VInt 100);
         (lit "height", reprocess_bboxes.VInt 200)])].

(** A detection without coordinates, and one whose ["bbox"] is [null]. *)
Definition bare_detection : list (str * reprocess_bboxes.value) :=
  [(lit "class", reprocess_bboxes.VStr (lit "smoke"))].

Definition null_bbox_detection : reprocess_bboxes.value :=
  reprocess_bboxes.VDict [(lit "bbox", reprocess_bboxes.VNone)].

(** A body of the inference service. *)
Definition sample_result : reprocess_bboxes.value :=
  reprocess_bboxes.VDict
    [(lit "detections", reprocess_bboxes.VList [sample_detection]);
     (lit "detection_count", reprocess_bboxes.VInt 1);
     (lit "has_fire", reprocess_bboxes.VBool true);
     (lit "has_smoke", reprocess_bboxes.VBool false);
     (lit "confidence_scores",
      reprocess_bboxes.VDict
        [(lit "fire", reprocess_bboxes.VInt 1);
         (lit "smoke", reprocess_bboxes.VInt 0)])].

(** A body whose ["fire"] score is zero while the fallback key is not. *)
Definition shadowed_scores : list (str * reprocess_bboxes.value) :=
  [(lit "fire", reprocess_bboxes.VInt 0);
   (lit "DetectionClass.FIRE", reprocess_bboxes.VInt 1)].

Definition shadowed_result : reprocess_bboxes.value :=
  reprocess_bboxes.VDict
    [(lit "detections", reprocess_bboxes.VList []);
     (lit "confidence_scores", reprocess_bboxes.VDict shadowed_scores)].

Definition is_path_probe (a : reprocess_bboxes.action) : bool :=
  match a with reprocess_bboxes.PathExists _ => true | _ => false end.

Definition is_status_check (a : reprocess_bboxes.action) : bool :=
  match a with reprocess_bboxes.RaiseForStatus => true | _ => false end.

(** An environment with three targets: the image of the first is missing,
    the second is answered with [sample_result] and updates one row, the
    service refuses the third (the second status check raises). *)
Definition three_targets : reprocess_bboxes.Environment :=
  {| reprocess_bboxes.raises := fun tr a =>
       match a with
       | reprocess_bboxes.RaiseForStatus =>
           if count is_status_check tr =? 1
           then Some (reprocess_bboxes.OtherError 500) else None
       | _ => None
       end;
     reprocess_bboxes.rows := fun _ =>
       [(101, lit "/data/a.jpg"); (102, lit "/data/b.jpg"); (103, lit "/data/c.jpg")];
     reprocess_bboxes.rowcount := fun _ => 1;
     reprocess_bboxes.path_exists := fun tr => negb (count is_path_probe tr =? 0);
     reprocess_bboxes.json := fun _ => sample_result |}.

(** An environment in which the request is interrupted from the keyboard,
    and one in which the image cannot be opened and the standard error
    stream is closed. *)
Definition interrupted : reprocess_bboxes.Environment :=
  {| reprocess_bboxes.raises := fun tr a =>
       match a with
       | reprocess_bboxes.Post _ _ _ _ => Some reprocess_bboxes.KeyboardInterrupt
       | _ => None
       end;
     reprocess_bboxes.rows := fun _ => [];
     reprocess_bboxes.rowcount := fun _ => 0;
     reprocess_bboxes.path_exists := fun _ => true;
     reprocess_bboxes.json := fun _ => reprocess_bboxes.VNone |}.

Definition stderr_closed : reprocess_bboxes.Environment :=
  {| reprocess_bboxes.raises := fun tr a =>
       match a with
       | reprocess_bboxes.Open _ => Some (reprocess_bboxes.OtherError 2)
       | reprocess_bboxes.Print _ => Some (reprocess_bboxes.OtherError 9)
       | _ => None
       end;
     reprocess_bboxes.rows := fun _ => [];
     reprocess_bboxes.rowcount := fun _ => 0;
     reprocess_bboxes.path_exists := fun _ => true;
     reprocess_bboxes.json := fun _ => reprocess_bboxes.VNone |}.

(** An environment whose query finds nothing. *)
Definition no_target : reprocess_bboxes.Environment :=
  {| reprocess_bboxes.raises := fun _ _ => None;
     reprocess_bboxes.rows := fun _ => [];
     reprocess_bboxes.rowcount := fun _ => 0;
     reprocess_bboxes.path_exists := fun _ => false;
     reprocess_bboxes.json := fun _ => reprocess_bboxes.VNone |}.

Definition default_args : reprocess_bboxes.args :=
  {| reprocess_bboxes.dry_run := false;
     reprocess_bboxes.limit := None;
     reprocess_bboxes.delay := reprocess_bboxes.default_delay |}.

Definition dry_run_args : reprocess_bboxes.args :=
  {| reprocess_bboxes.dry_run := true;
     reprocess_bboxes.limit := None;
     reprocess_bboxes.delay := reprocess_bboxes.default_delay |}.

Definition limit_zero_args : reprocess_bboxes.args :=
  {| reprocess_bboxes.dry_run := false;
     reprocess_bboxes.limit := Some 0;
     reprocess_bboxes.delay := reprocess_bboxes.default_delay |}.

(* ====================================================================== *)
(** * Sanity checks on concrete inputs *)
(* ====================================================================== *)

Example sha256_empty :
  SHA256.hexdigest [] =
  lit "e3b0c44298fc1c149afbf4c8996fb92427ae41e4649b934ca495991b7852b855".
Proof. vm_compute. reflexivity. Qed.

Example sha256_abc :
  SHA256.hexdigest (blit "abc") =
  lit "ba7816bf8f01cfea414140de5dae2223b00361a396177a9cb410ff61f20015ad".
Proof. vm_compute. reflexivity. Qed.

Example sha256_hello :
  SHA256.hexdigest (blit "hello") =
  lit "2cf24dba5fb0a30e26e83b2ac5b9e29e1b161e5c1fa7425e73043362938b9824".
Proof. vm_compute. reflexivity. Qed.

Example get_path_hello :
  ImageStorage.get_path image_storage (ImageStorage._compute_hash (blit "hello")) ImageStorage.default_extension =
  lit "/mnt/raid1/sai-images/2c/f2/2cf24dba5fb0a30e26e83b2ac5b9e29e1b161e5c1fa7425e73043362938b9824.jpg".
Proof. vm_compute. reflexivity. Qed.

Example get_path_short :
  ImageStorage.get_path image_storage (lit "abc") ImageStorage.default_extension =
  lit "/mnt/raid1/sai-images/ab/c/abc.jpg".
Proof. vm_compute. reflexivity. Qed.

Example get_path_empty :
  ImageStorage.get_path image_storage [] ImageStorage.default_extension = lit "/mnt/raid1/sai-images/.jpg".
Proof. vm_compute. reflexivity. Qed.

Example get_path_absolute :
  ImageStorage.get_path image_storage (lit "/x") ImageStorage.default_extension = lit "/x.jpg".
Proof. vm_compute. reflexivity. Qed.

Example with_suffix_jpg :
  with_suffix (Path (lit "/a/b/c0ffee.jpg")) (lit ".tmp") = Ret (Path (lit "/a/b/c0ffee.tmp")).
Proof. vm_compute. reflexivity. Qed.

Example with_suffix_tmp :
  with_suffix (Path (lit "/a/b/c0ffee.tmp")) (lit ".tmp") = Ret (Path (lit "/a/b/c0ffee.tmp")).
Proof. vm_compute. reflexivity. Qed.

Example with_suffix_targz :
  with_suffix (Path (lit "/a/b/c0ffee.tar.gz")) (lit ".tmp") = Ret (Path (lit "/a/b/c0ffee.tar.tmp")).
Proof. vm_compute. reflexivity. Qed.

Example with_suffix_none :
  with_suffix (Path (lit "/a/b/c0ffee")) (lit ".tmp") = Ret (Path (lit "/a/b/c0ffee.tmp")).
Proof. vm_compute. reflexivity. Qed.

Example with_suffix_dotfile :
  with_suffix (Path (lit "/a/b/.tmp")) (lit ".tmp") = Ret (Path (lit "/a/b/.tmp.tmp")).
Proof. vm_compute. reflexivity. Qed.

Example with_suffix_trailing_dot :
  with_suffix (Path (lit "/a/b/c0ffee.")) (lit ".tmp") = Ret (Path (lit "/a/b/c0ffee..tmp")).
Proof. vm_compute. reflexivity. Qed.

Example with_suffix_noname :
  with_suffix (Path (lit "/")) (lit ".tmp") = Raise ValueError.
Proof. vm_compute. reflexivity. Qed.

Example path_str_examples :
  path_str (Path []) = lit "." /\
  path_str (Path (lit "//a//b/./c/")) = lit "//a/b/c" /\
  path_str (Path (lit "///a/../b")) = lit "/a/../b" /\
  path_str (joinpath (Path (lit "/r")) [lit "x"; lit "/y"; lit "z"]) = lit "/y/z".
Proof. vm_compute. repeat split. Qed.

(* ====================================================================== *)
(** * Lemmas on digests *)
(* ====================================================================== *)

Lemma hexdigit_is_hex n : is_hex (SHA256.hexdigit n) = true.
Proof.
  unfold SHA256.hexdigit.
  destruct (n `mod` 16) as [|p|p]; try reflexivity.
  do 4 (destruct p as [p|p|]; try reflexivity).
Qed.

Lemma hex32_length x : length (SHA256.hex32 x) = 8%nat.
Proof. reflexivity. Qed.

Lemma hex32_is_hex x : forallb is_hex (SHA256.hex32 x) = true.
Proof.
  unfold SHA256.hex32. cbn [map forallb].
  rewrite !hexdigit_is_hex. reflexivity.
Qed.

Lemma hexdigest_full_length data : full_length_digest (SHA256.hexdigest data).
Proof.
  unfold SHA256.hexdigest, SHA256.hex_of_regs. split.
  - rewrite !length_app, !hex32_length. reflexivity.
  - rewrite !forallb_app, !hex32_is_hex. reflexivity.
Qed.

Lemma compute_hash_full_length data :
  full_length_digest (ImageStorage._compute_hash data).
Proof. apply hexdigest_full_length. Qed.

(* ====================================================================== *)
(** * Lemmas on strings *)
(* ====================================================================== *)

Lemma contains_app c a b : contains c (a ++ b) = contains c a || contains c b.
Proof. unfold contains. apply existsb_app. Qed.

Lemma contains_cons c x s :
  contains c (x :: s) = Ascii.eqb c x || contains c s.
Proof. reflexivity. Qed.

Lemma ascii_eqb_sym (a b : ascii) : Ascii.eqb a b = Ascii.eqb b a.
Proof.
  destruct (Ascii.eqb_spec a b) as [->|Hab].
  - symmetry. apply Ascii.eqb_refl.
  - symmetry. apply Ascii.eqb_neq. congruence.
Qed.

Lemma str_eqb_eq a b : str_eqb a b = true <-> a = b.
Proof. unfold str_eqb. apply bool_decide_eq_true. Qed.

Lemma str_eqb_neq a b : str_eqb a b = false <-> a <> b.
Proof. unfold str_eqb. apply bool_decide_eq_false. Qed.

Lemma split_on_nonnil c s : split_on c s <> [].
Proof.
  destruct s as [|x s]; simpl; [discriminate|].
  destruct (Ascii.eqb x c); [discriminate|].
  destruct (split_on c s); discriminate.
Qed.

(** A string without the separator is its own single piece. *)
Lemma split_on_absent c s : contains c s = false -> split_on c s = [s].
Proof.
  induction s as [|x s IH]; simpl; [reflexivity|].
  rewrite ascii_eqb_sym. intros H. apply orb_false_iff in H as [Hx Hs].
  rewrite Hx, (IH Hs). reflexivity.
Qed.

(** A separator-free prefix is glued to the first piece of what follows. *)
Lemma split_on_app_absent c h e :
  contains c h = false ->
  split_on c (h ++ e) =
  (h ++ hd [] (split_on c e)) :: tl (split_on c e).
Proof.
  induction h as [|x h IH]; simpl.
  - intros _. destruct (split_on c e) eqn:E; [|reflexivity].
    exfalso. exact (split_on_nonnil _ _ E).
  - rewrite ascii_eqb_sym. intros H. apply orb_false_iff in H as [Hx Hh].
    rewrite Hx, (IH Hh). reflexivity.
Qed.

Lemma split_on_pieces c s : Forall (fun x => contains c x = false) (split_on c s).
Proof.
  induction s as [|x s IH]; simpl.
  - constructor; [reflexivity|constructor].
  - destruct (Ascii.eqb x c) eqn:E.
    + constructor; [reflexivity|exact IH].
    + destruct (split_on c s) as [|w ws]; inversion IH; subst.
      * constructor; [|constructor]. simpl. rewrite ascii_eqb_sym, E. reflexivity.
      * constructor; [|assumption]. simpl. rewrite ascii_eqb_sym, E. assumption.
Qed.

(** Splitting undoes joining when no joined piece holds the separator. *)
Lemma split_on_join c l :
  l <> [] -> Forall (fun x => contains c x = false) l ->
  split_on c (join_with c l) = l.
Proof.
  induction l as [|w ws IH]; [congruence|]. intros _ Hall.
  inversion Hall as [|? ? Hw Hws]; subst.
  destruct ws as [|w' ws'].
  - simpl. apply split_on_absent. assumption.
  - change (join_with c (w :: w' :: ws')) with (w ++ c :: join_with c (w' :: ws')).
    rewrite split_on_app_absent by assumption.
    cbn [split_on]. rewrite Ascii.eqb_refl. cbn [hd tl].
    rewrite app_nil_r, IH by (assumption || discriminate). reflexivity.
Qed.

Lemma rfind_from_absent c s i :
  0 <= i -> contains c s = false -> rfind_from c s i = -1.
Proof.
  revert i. induction s as [|x s IH]; intros i Hi; simpl; [reflexivity|].
  intros H. apply orb_false_iff in H as [Hx Hs].
  rewrite (IH (i + 1)) by (lia || assumption).
  rewrite ascii_eqb_sym, Hx. reflexivity.
Qed.

Lemma rfind_from_last c a b i :
  0 <= i -> contains c b = false ->
  rfind_from c (a ++ c :: b) i = i + len a.
Proof.
  revert i. induction a as [|x a IH]; intros i Hi Hb.
  - simpl. rewrite rfind_from_absent by (lia || assumption).
    rewrite Ascii.eqb_refl. unfold len. simpl. lia.
  - cbn [app rfind_from]. rewrite IH by (lia || assumption).
    unfold len. cbn [length].
    destruct (0 <=? i + 1 + Z.of_nat (length a)) eqn:E; [lia|].
    apply Z.leb_gt in E. lia.
Qed.

Lemma rfind_last c a b :
  contains c b = false -> rfind c (a ++ c :: b) = len a.
Proof. intros. unfold rfind. rewrite rfind_from_last by (lia || assumption). lia. Qed.

Lemma rfind_absent c s : contains c s = false -> rfind c s = -1.
Proof. intros. apply rfind_from_absent; [lia|assumption]. Qed.

Lemma len_app {A} (a b : list A) : len (a ++ b) = len a + len b.
Proof. unfold len. rewrite length_app. lia. Qed.

Lemma len_nonneg {A} (a : list A) : 0 <= len a.
Proof. unfold len. lia. Qed.

(** [s[i:]] written as [s[i:len(s)]]. *)
Lemma pyslice_tail {A} (a b : list A) :
  b <> [] -> pyslice (a ++ b) (len a) (len (a ++ b)) = b.
Proof.
  intros Hb. unfold pyslice, clamp_index. rewrite len_app.
  pose proof (len_nonneg a). pose proof (len_nonneg b).
  assert (0 < len b) by (destruct b; [congruence|unfold len; simpl; lia]).
  destruct (len a <? 0) eqn:E1; [lia|].
  destruct (len a + len b <? 0) eqn:E2; [lia|].
  rewrite Z.min_l, Z.min_l by lia.
  destruct (len a <? len a + len b) eqn:E3; [|lia].
  replace (Z.to_nat (len a)) with (length a) by (unfold len; lia).
  replace (Z.to_nat (len a + len b - len a)) with (length b) by (unfold len; lia).
  rewrite drop_app_length. apply firstn_all.
Qed.

(** [s[:-k]] drops the last [k] characters. *)
Lemma pyslice_init {A} (a b : list A) :
  b <> [] -> pyslice (a ++ b) 0 (- len b) = a.
Proof.
  intros Hb. unfold pyslice, clamp_index. rewrite len_app.
  pose proof (len_nonneg a). pose proof (len_nonneg b).
  assert (0 < len b) by (destruct b; [congruence|unfold len; simpl; lia]).
  destruct (0 <? 0) eqn:E1; [lia|].
  destruct (- len b <? 0) eqn:E2; [|lia].
  rewrite Z.min_l by lia. rewrite Z.max_r by lia.
  destruct (0 <? - len b + (len a + len b)) eqn:E3.
  - replace (Z.to_nat (- len b + (len a + len b) - 0)) with (length a)
      by (unfold len; lia).
    change (Z.to_nat 0) with 0%nat. rewrite drop_0. apply take_app_length.
  - apply Z.ltb_ge in E3. destruct a; [reflexivity|].
    unfold len in *. cbn [length] in *. lia.
Qed.

Lemma contains_take c n s : contains c s = false -> contains c (take n s) = false.
Proof.
  revert n. induction s as [|x s IH]; intros [|n]; simpl; try reflexivity.
  intros H. apply orb_false_iff in H as [Hx Hs].
  rewrite Hx. simpl. apply IH. assumption.
Qed.

Lemma contains_drop c n s : contains c s = false -> contains c (drop n s) = false.
Proof.
  revert n. induction s as [|x s IH]; intros [|n]; simpl; try reflexivity.
  - intros H. exact H.
  - intros H. apply orb_false_iff in H as [Hx Hs]. apply IH. assumption.
Qed.

Lemma contains_pyslice c s a b :
  contains c s = false -> contains c (pyslice s a b) = false.
Proof.
  intros H. unfold pyslice. destruct (_ <? _); [|reflexivity].
  apply contains_take, contains_drop. assumption.
Qed.

Lemma startswith_absent c s : contains c s = false -> startswith c s = false.
Proof.
  destruct s as [|x s]; simpl; [reflexivity|].
  rewrite ascii_eqb_sym. intros H. apply orb_false_iff in H as [Hx _]. exact Hx.
Qed.

Lemma hex_str_app a b : hex_str (a ++ b) <-> hex_str a /\ hex_str b.
Proof. unfold hex_str. rewrite forallb_app. apply andb_true_iff. Qed.

Lemma hex_str_absent c s : is_hex c = false -> hex_str s -> contains c s = false.
Proof.
  intros Hc. unfold hex_str. induction s as [|x s IH]; simpl; [reflexivity|].
  intros H. apply andb_true_iff in H as [Hx Hs].
  rewrite (IH Hs), orb_false_r.
  destruct (Ascii.eqb_spec c x) as [->|]; [congruence|reflexivity].
Qed.

Lemma hex_str_take n s : hex_str s -> hex_str (take n s).
Proof.
  unfold hex_str. revert n. induction s as [|x s IH]; intros [|n]; simpl;
    try reflexivity.
  intros H. apply andb_true_iff in H as [Hx Hs]. rewrite Hx. simpl. auto.
Qed.

Lemma hex_str_drop n s : hex_str s -> hex_str (drop n s).
Proof.
  unfold hex_str. revert n. induction s as [|x s IH]; intros [|n]; simpl;
    try reflexivity; [tauto|].
  intros H. apply andb_true_iff in H as [Hx Hs]. auto.
Qed.

Lemma hex_str_pyslice s a b : hex_str s -> hex_str (pyslice s a b).
Proof.
  intros H. unfold pyslice. destruct (_ <? _); [|reflexivity].
  apply hex_str_take, hex_str_drop. assumption.
Qed.

(** A non-empty hexadecimal string is a well-formed name component. *)
Lemma hex_str_name_ok s : s <> [] -> hex_str s -> name_ok s.
Proof.
  intros Hne Hs. repeat split; [assumption| |].
  - intros ->. discriminate Hs.
  - apply hex_str_absent; [reflexivity|assumption].
Qed.

Lemma is_name_true x : is_name x = true <-> x <> [] /\ x <> [dot].
Proof.
  unfold is_name. rewrite andb_true_iff, !negb_true_iff, !str_eqb_neq. tauto.
Qed.

Lemma name_ok_is_name x : name_ok x -> is_name x = true.
Proof. intros (? & ? & _). apply is_name_true. tauto. Qed.

Lemma names_of_ok s : Forall name_ok (names_of s).
Proof.
  unfold names_of. apply List.Forall_forall. intros x Hx.
  apply filter_In in Hx as [Hin Hn]. apply is_name_true in Hn as [? ?].
  repeat split; try assumption.
  pose proof (split_on_pieces sep s) as Hall.
  rewrite List.Forall_forall in Hall. apply Hall. assumption.
Qed.

Lemma names_of_name_ok s : name_ok s -> names_of s = [s].
Proof.
  intros Hs. unfold names_of. rewrite split_on_absent by apply Hs.
  simpl. rewrite name_ok_is_name by assumption. reflexivity.
Qed.

Lemma names_of_nil : names_of [] = [].
Proof. reflexivity. Qed.

(** The leaf [hash ++ extension]: a separator-free, non-empty hash stays at
    the head of the first component. *)
Lemma names_of_app_absent h e :
  contains sep h = false -> is_name (h ++ hd [] (split_on sep e)) = true ->
  names_of (h ++ e) =
  (h ++ hd [] (split_on sep e)) :: List.filter is_name (tl (split_on sep e)).
Proof.
  intros Hh Hn. unfold names_of. rewrite split_on_app_absent by assumption.
  simpl. rewrite Hn. reflexivity.
Qed.

Lemma splitroot_relative s : startswith sep s = false -> splitroot s = ([], s).
Proof. intros H. unfold splitroot. rewrite H. reflexivity. Qed.

Lemma splitroot_anchor s : In (fst (splitroot s)) [[]; [sep]; [sep; sep]].
Proof.
  unfold splitroot. destruct (startswith sep s); [|simpl; tauto].
  destruct (_ =? _); simpl; tauto.
Qed.

Lemma parse_rev_wf l :
  In (fst (parse_rev l)) [[]; [sep]; [sep; sep]] /\
  Forall name_ok (snd (parse_rev l)).
Proof.
  induction l as [|part rest IH]; [simpl; split; [tauto|constructor]|].
  destruct part as [|c part']; [exact IH|].
  cbn [parse_rev]. pose proof (splitroot_anchor (c :: part')) as Ha.
  destruct (splitroot (c :: part')) as [rt rel]. cbn [fst] in Ha.
  destruct rt as [|r rt'].
  - destruct (parse_rev rest) as [rt' names']. cbn [fst snd] in *.
    split; [tauto|]. apply Forall_app. split; [tauto|apply names_of_ok].
  - cbn [fst snd]. split; [assumption|apply names_of_ok].
Qed.

Lemma parse_rev_relative l :
  Forall (fun x => startswith sep x = false) l ->
  parse_rev l = ([], concat (map names_of (rev l))).
Proof.
  induction l as [|part rest IH]; [reflexivity|].
  intros Hall. inversion Hall as [|? ? Hp Hrest]; subst.
  cbn [rev]. rewrite map_app, concat_app. cbn [map concat]. rewrite app_nil_r.
  destruct part as [|c part'].
  - cbn [parse_rev]. rewrite names_of_nil, app_nil_r. auto.
  - cbn [parse_rev]. rewrite (splitroot_relative _ Hp), (IH Hrest). reflexivity.
Qed.

Lemma joinpath_relative p args :
  Forall (fun x => startswith sep x = false) args ->
  joinpath p args = PosixPath (p_root p) (p_parts p ++ concat (map names_of args)).
Proof.
  intros Hall. unfold joinpath, parse_parts.
  rewrite parse_rev_relative, rev_involutive; [reflexivity|].
  apply Forall_rev. assumption.
Qed.

Lemma truediv_relative p key :
  startswith sep key = false ->
  truediv p key = PosixPath (p_root p) (p_parts p ++ names_of key).
Proof.
  intros H. unfold truediv. rewrite joinpath_relative by (constructor; auto).
  simpl. rewrite app_nil_r. reflexivity.
Qed.

Lemma Path_wf s : wf_path (Path s).
Proof.
  unfold Path, parse_parts. pose proof (parse_rev_wf (rev [s])) as H.
  destruct (parse_rev (rev [s])). exact H.
Qed.

Lemma joinpath_wf p args : wf_path p -> wf_path (joinpath p args).
Proof.
  intros [Hr Hp]. unfold joinpath, parse_parts.
  pose proof (parse_rev_wf (rev args)) as [Ha Hn].
  destruct (parse_rev (rev args)) as [rt names]. cbn [fst snd] in *.
  destruct rt; split; cbn [p_root p_parts]; try assumption.
  apply Forall_app. tauto.
Qed.

Lemma truediv_wf p key : wf_path p -> wf_path (truediv p key).
Proof. apply joinpath_wf. Qed.

(** The n-ary join is the iterated [/] operator. *)
Lemma joinpath_snoc p args x :
  joinpath p (args ++ [x]) = truediv (joinpath p args) x.
Proof.
  unfold truediv. unfold joinpath at 1 2. unfold parse_parts.
  rewrite rev_app_distr. cbn [rev app].
  destruct x as [|c x'].
  - cbn [parse_rev]. fold (parse_parts args). fold (joinpath p args).
    rewrite app_nil_r. destruct (joinpath p args). reflexivity.
  - cbn [parse_rev]. destruct (splitroot (c :: x')) as [rt rel].
    destruct rt as [|r rt']; [|reflexivity].
    unfold joinpath, parse_parts.
    destruct (parse_rev (rev args)) as [rt' names'].
    destruct rt'; cbn [p_root p_parts app]; rewrite ?app_assoc; reflexivity.
Qed.

Lemma joinpath_fold p args : joinpath p args = fold_left truediv args p.
Proof.
  induction args as [|x args IH] using rev_ind.
  - unfold joinpath. simpl. rewrite app_nil_r. destruct p. reflexivity.
  - rewrite joinpath_snoc, fold_left_app, IH. reflexivity.
Qed.

Lemma join_with_head c l :
  Forall (fun x => x <> [] /\ contains c x = false) l -> l <> [] ->
  join_with c l <> [] /\ startswith c (join_with c l) = false.
Proof.
  destruct l as [|w ws]; [congruence|]. intros Hall _.
  inversion Hall as [|? ? [Hne Hw] _]; subst.
  destruct w as [|x w]; [congruence|].
  assert (Hx : Ascii.eqb x c = false).
  { simpl in Hw. apply orb_false_iff in Hw as [Hx _].
    rewrite ascii_eqb_sym. exact Hx. }
  destruct ws; simpl; (split; [discriminate|exact Hx]).
Qed.

Lemma join_with_inj c l l' :
  Forall (fun x => x <> [] /\ contains c x = false) l ->
  Forall (fun x => x <> [] /\ contains c x = false) l' ->
  join_with c l = join_with c l' -> l = l'.
Proof.
  intros Hl Hl' E.
  destruct l as [|w ws], l' as [|w' ws']; [reflexivity| | |].
  - exfalso. destruct (join_with_head c (w' :: ws') Hl') as [Hne _];
      [discriminate|]. apply Hne. symmetry. exact E.
  - exfalso. destruct (join_with_head c (w :: ws) Hl) as [Hne _];
      [discriminate|]. apply Hne. exact E.
  - rewrite <- (split_on_join c (w :: ws)), <- (split_on_join c (w' :: ws')).
    + rewrite E. reflexivity.
    + discriminate.
    + eapply Forall_impl; [exact Hl'|]. intros ? [_ ?]. assumption.
    + discriminate.
    + eapply Forall_impl; [exact Hl|]. intros ? [_ ?]. assumption.
Qed.

Lemma name_ok_piece l :
  Forall name_ok l -> Forall (fun x => x <> [] /\ contains sep x = false) l.
Proof. intros H. eapply Forall_impl; [exact H|]. intros x (? & _ & ?). tauto. Qed.

(** Stripping the leading separators of a rendered path leaves the joined
    name components. *)
Lemma lstrip_body p :
  wf_path p ->
  lstrip sep (p_root p ++ join_with sep (p_parts p)) = join_with sep (p_parts p).
Proof.
  intros [Hr Hp].
  assert (Hj : lstrip sep (join_with sep (p_parts p)) = join_with sep (p_parts p)).
  { destruct (p_parts p) as [|w ws] eqn:E; [reflexivity|].
    destruct (join_with_head sep (w :: ws)) as [_ Hs];
      [apply name_ok_piece; assumption|discriminate|].
    destruct (join_with sep (w :: ws)) as [|x s]; [reflexivity|].
    simpl in Hs. simpl. rewrite Hs. reflexivity. }
  simpl in Hr. destruct Hr as [<-|[<-|[<-|[]]]]; simpl; exact Hj.
Qed.

Lemma path_body_inj p q :
  wf_path p -> wf_path q ->
  p_root p ++ join_with sep (p_parts p) = p_root q ++ join_with sep (p_parts q) ->
  p = q.
Proof.
  intros Hp Hq E.
  assert (Hj : join_with sep (p_parts p) = join_with sep (p_parts q)).
  { rewrite <- (lstrip_body p Hp), <- (lstrip_body q Hq), E. reflexivity. }
  rewrite Hj in E. apply app_inv_tail in E.
  apply join_with_inj in Hj; try (apply name_ok_piece; apply Hp || apply Hq).
  destruct p, q. simpl in *. congruence.
Qed.

(** [str] is injective on well-formed paths: a location string names one
    path value. *)
Lemma path_str_inj p q :
  wf_path p -> wf_path q -> path_str p = path_str q -> p = q.
Proof.
  intros Hp Hq. unfold path_str.
  assert (Hdot : forall r, wf_path r ->
            p_root r ++ join_with sep (p_parts r) <> [dot]).
  { intros r [Hr Hn] E.
    assert (Hroot : p_root r = []).
    { simpl in Hr. destruct Hr as [Hr|[Hr|[Hr|[]]]]; [congruence| |];
        rewrite <- Hr in E; cbn [app] in E; unfold sep, dot in E;
        discriminate E. }
    rewrite Hroot in E. simpl in E.
    destruct (p_parts r) as [|w ws] eqn:Eparts; [discriminate|].
    assert (Hs : split_on sep (join_with sep (w :: ws)) = w :: ws).
    { apply split_on_join; [discriminate|].
      eapply Forall_impl; [exact Hn|]. intros ? (_ & _ & ?). assumption. }
    rewrite E in Hs. cbn in Hs. injection Hs as <- <-.
    inversion Hn as [|? ? (_ & Hd & _) _]. congruence. }
  destruct (p_root p ++ join_with sep (p_parts p)) as [|x s] eqn:Ep;
    destruct (p_root q ++ join_with sep (p_parts q)) as [|y t] eqn:Eq;
    intros E.
  - apply path_body_inj; congruence.
  - exfalso. apply (Hdot q Hq). congruence.
  - exfalso. apply (Hdot p Hp). congruence.
  - apply path_body_inj; congruence.
Qed.

(* ====================================================================== *)
(** * Path derivation *)
(* ====================================================================== *)

Lemma digest_hex h : full_length_digest h -> hex_str h.
Proof. intros [_ H]. exact H. Qed.

Lemma digest_len h : full_length_digest h -> len h = 64.
Proof. intros [H _]. unfold len. rewrite H. reflexivity. Qed.

Lemma digest_nonempty h : full_length_digest h -> h <> [].
Proof. intros [H _] ->. discriminate H. Qed.

Lemma digest_no_sep h : full_length_digest h -> contains sep h = false.
Proof. intros H. apply hex_str_absent; [reflexivity|apply digest_hex, H]. Qed.

Lemma digest_no_dot h : full_length_digest h -> contains dot h = false.
Proof. intros H. apply hex_str_absent; [reflexivity|apply digest_hex, H]. Qed.

(** The leaf name of a full-length digest starts with the digest. *)
Lemma digest_leaf_is_name h e0 :
  full_length_digest h -> is_name (h ++ e0) = true.
Proof.
  intros H. apply is_name_true.
  pose proof (digest_nonempty h H) as Hne. pose proof (digest_no_dot h H) as Hd.
  destruct h as [|x h]; [congruence|]. split; [discriminate|].
  intros E. cbn [app] in E. injection E as -> _.
  rewrite contains_cons, Ascii.eqb_refl in Hd. discriminate.
Qed.

Lemma digest_leaf h e :
  full_length_digest h ->
  names_of (h ++ e) =
  (h ++ hd [] (split_on sep e)) :: List.filter is_name (tl (split_on sep e)).
Proof.
  intros H. apply names_of_app_absent;
    [apply digest_no_sep, H|apply digest_leaf_is_name, H].
Qed.

Lemma digest_leaf_plain h e :
  full_length_digest h -> contains sep e = false -> names_of (h ++ e) = [h ++ e].
Proof.
  intros H He. rewrite digest_leaf by assumption.
  rewrite split_on_absent by assumption. reflexivity.
Qed.

Lemma digest_leaf_relative h e :
  full_length_digest h -> startswith sep (h ++ e) = false.
Proof.
  intros H. pose proof (digest_nonempty h H) as Hne.
  pose proof (digest_no_sep h H) as Hs.
  destruct h as [|x h]; [congruence|]. simpl in *.
  apply orb_false_iff in Hs as [Hx _]. rewrite ascii_eqb_sym. exact Hx.
Qed.

(** The file path of a full-length digest: the shard directory followed by
    the components of the leaf. *)
Lemma file_path_digest self h e :
  full_length_digest h ->
  ImageStorage._get_file_path self h e =
  PosixPath (p_root (ImageStorage._get_shard_path self h))
            (p_parts (ImageStorage._get_shard_path self h) ++
             (h ++ hd [] (split_on sep e)) ::
             List.filter is_name (tl (split_on sep e))).
Proof.
  intros H. unfold ImageStorage._get_file_path.
  rewrite truediv_relative by (apply digest_leaf_relative, H).
  rewrite digest_leaf by assumption. reflexivity.
Qed.

Lemma name_snoc r l x : name (PosixPath r (l ++ [x])) = x.
Proof. unfold name. simpl. apply last_last. Qed.

(** The suffix of a name [stem.ext]. *)
Lemma suffix_stem_ext p stem ext :
  name p = stem ++ dot :: ext -> stem <> [] -> ext <> [] ->
  contains dot ext = false -> suffix p = dot :: ext.
Proof.
  intros Hn Hstem Hext Hd. unfold suffix. rewrite Hn.
  rewrite rfind_last by assumption.
  rewrite len_app. change (len (dot :: ext)) with (Z.of_nat (S (length ext))).
  assert (0 < len stem) by (destruct stem; [congruence|unfold len; simpl; lia]).
  assert (0 < Z.of_nat (length ext)) by (destruct ext; [congruence|simpl; lia]).
  replace (0 <? len stem) with true by (symmetry; apply Z.ltb_lt; lia).
  replace (len stem <? len stem + Z.of_nat (S (length ext)) - 1)
    with true by (symmetry; apply Z.ltb_lt; lia).
  cbn [andb].
  change (Z.of_nat (S (length ext))) with (len (dot :: ext)).
  rewrite <- len_app. apply pyslice_tail. discriminate.
Qed.

(** Replacing the suffix [.tmp] by [.tmp] gives the path back. *)
Lemma with_suffix_tmp_same p stem :
  p_parts p <> [] -> name p = stem ++ tmp_suffix -> stem <> [] ->
  with_suffix p tmp_suffix = Ret p.
Proof.
  intros Hparts Hn Hstem.
  assert (Hs : suffix p = tmp_suffix).
  { apply (suffix_stem_ext p stem (lit "tmp")); auto; discriminate. }
  unfold with_suffix. rewrite Hs.
  change (contains sep tmp_suffix) with false.
  change (str_eqb tmp_suffix []) with false.
  change (startswith dot tmp_suffix) with true.
  change (str_eqb tmp_suffix [dot]) with false.
  cbn [negb andb orb].
  replace (str_eqb (name p) []) with false.
  2:{ symmetry. apply str_eqb_neq. rewrite Hn. destruct stem; [congruence|discriminate]. }
  rewrite Hn, pyslice_init by discriminate.
  rewrite <- Hn. unfold name.
  rewrite <- app_removelast_last by assumption.
  destruct p. reflexivity.
Qed.

(** A non-empty suffix is the tail of the name from its last dot on. *)
Lemma suffix_split p :
  suffix p <> [] ->
  exists stem, name p = stem ++ suffix p.
Proof.
  unfold suffix. generalize (name p). intros nm.
  destruct ((0 <? rfind dot nm) && (rfind dot nm <? len nm - 1)) eqn:E;
    [|congruence].
  intros _. apply andb_true_iff in E as [E1 E2].
  apply Z.ltb_lt in E1, E2. revert E1 E2. generalize (rfind dot nm). intros i E1 E2.
  exists (take (Z.to_nat i) nm).
  assert (Hlen : len (take (Z.to_nat i) nm) = i).
  { unfold len in *. rewrite length_take. lia. }
  assert (Hb : drop (Z.to_nat i) nm <> []).
  { intros Hnil. apply (f_equal (@length ascii)) in Hnil.
    rewrite length_drop in Hnil. unfold len in *. simpl in Hnil. lia. }
  pose proof (pyslice_tail (take (Z.to_nat i) nm) (drop (Z.to_nat i) nm) Hb) as H.
  rewrite take_drop, Hlen in H. rewrite H. symmetry. apply take_drop.
Qed.

(** [with_suffix('.tmp')] returns the path it is applied to exactly when the
    suffix of that path already is [.tmp]. *)
Lemma with_suffix_tmp_fixed p q :
  with_suffix p tmp_suffix = Ret q -> (q = p <-> suffix p = tmp_suffix).
Proof.
  unfold with_suffix.
  change (contains sep tmp_suffix) with false.
  change (str_eqb tmp_suffix []) with false.
  change (startswith dot tmp_suffix) with true.
  change (str_eqb tmp_suffix [dot]) with false.
  cbn [negb andb orb].
  destruct (str_eqb (name p) []) eqn:Hname; [discriminate|].
  apply str_eqb_neq in Hname.
  assert (Hparts : p_parts p <> []).
  { intros E. apply Hname. unfold name. rewrite E. reflexivity. }
  assert (Hp : p = PosixPath (p_root p) (removelast (p_parts p) ++ [name p])).
  { unfold name. rewrite <- app_removelast_last by assumption.
    destruct p. reflexivity. }
  intros H. injection H as <-.
  assert (Hiff : forall nm',
             PosixPath (p_root p) (removelast (p_parts p) ++ [nm']) = p <->
             nm' = name p).
  { intros nm'. split.
    - intros E. rewrite Hp in E at 3. injection E as E.
      apply app_inj_tail in E. tauto.
    - intros ->. symmetry. exact Hp. }
  rewrite Hiff.
  destruct (str_eqb (suffix p) []) eqn:Hs.
  - apply str_eqb_eq in Hs. rewrite Hs. split.
    + intros E. apply (f_equal (@length ascii)) in E.
      rewrite length_app in E. simpl in E. lia.
    + discriminate.
  - apply str_eqb_neq in Hs. destruct (suffix_split p Hs) as [stem Hstem].
    rewrite Hstem at 1 2. rewrite pyslice_init by assumption. split.
    + intros E. apply app_inv_head in E. congruence.
    + intros ->. reflexivity.
Qed.

Lemma shard_parts_spec self h :
  ImageStorage.shard_parts self h =
  spec_levels (ImageStorage.shard_depth self) (ImageStorage.shard_width self) h.
Proof.
  unfold ImageStorage.shard_parts, spec_levels. apply map_ext. intros i.
  cbv zeta. f_equal. lia.
Qed.

Lemma in_range i n : In i (range n) -> 0 <= i < n.
Proof.
  unfold range. rewrite in_map_iff. intros (k & <- & Hk).
  apply in_seq in Hk. lia.
Qed.

Lemma length_range n : 0 <= n -> len (range n) = n.
Proof. intros H. unfold len, range. rewrite length_map, length_seq. lia. Qed.

(** A slice that lies inside the string has the requested width. *)
Lemma pyslice_inside {A} (s : list A) a b :
  0 <= a -> a <= b -> b <= len s -> len (pyslice s a b) = b - a.
Proof.
  intros Ha Hab Hb. unfold pyslice, clamp_index.
  replace (a <? 0) with false by (symmetry; apply Z.ltb_ge; lia).
  replace (b <? 0) with false by (symmetry; apply Z.ltb_ge; lia).
  rewrite !Z.min_l by lia.
  destruct (a <? b) eqn:E.
  - unfold len in *. rewrite length_take, length_drop. lia.
  - apply Z.ltb_ge in E. unfold len. simpl. lia.
Qed.

(** A slice that starts at or after the end of the string is empty. *)
Lemma pyslice_beyond {A} (s : list A) a b : len s <= a -> pyslice s a b = [].
Proof.
  intros Ha. unfold pyslice, clamp_index. pose proof (len_nonneg s).
  replace (a <? 0) with false by (symmetry; apply Z.ltb_ge; lia).
  rewrite (Z.min_r a) by lia.
  destruct (b <? 0) eqn:Eb;
    [apply Z.ltb_lt in Eb|apply Z.ltb_ge in Eb];
    (destruct (_ <? _) eqn:E; [apply Z.ltb_lt in E; lia|reflexivity]).
Qed.

(** A slice of width zero is empty. *)
Lemma pyslice_empty {A} (s : list A) a : pyslice s a a = [].
Proof. unfold pyslice. rewrite Z.ltb_irrefl. reflexivity. Qed.

Lemma sane_levels h d w :
  full_length_digest h -> 0 < w -> d * w <= 64 ->
  Forall (fun s => name_ok s /\ len s = w) (spec_levels d w h).
Proof.
  intros Hh Hw Hdw. apply List.Forall_forall. intros s Hs.
  unfold spec_levels in Hs. apply in_map_iff in Hs as (i & <- & Hi).
  apply in_range in Hi.
  assert (Hlen : len (pyslice h (i * w) ((i + 1) * w)) = w).
  { rewrite pyslice_inside; [lia|nia|nia|]. rewrite (digest_len h Hh). nia. }
  split; [|exact Hlen].
  apply hex_str_name_ok; [|apply hex_str_pyslice, digest_hex, Hh].
  intros E. rewrite E in Hlen. unfold len in Hlen. simpl in Hlen. lia.
Qed.

Lemma names_of_absent_filter l :
  Forall (fun x => contains sep x = false) l ->
  concat (map names_of l) = List.filter is_name l.
Proof.
  induction 1 as [|x l Hx _ IH]; [reflexivity|].
  cbn [map concat List.filter]. rewrite IH. unfold names_of.
  rewrite split_on_absent by assumption. simpl.
  destruct (is_name x); reflexivity.
Qed.

Lemma filter_is_name_ok l : Forall name_ok l -> List.filter is_name l = l.
Proof.
  induction 1 as [|x l Hx _ IH]; [reflexivity|].
  simpl. rewrite (name_ok_is_name x Hx), IH. reflexivity.
Qed.

(** The shard directory when no slice holds a separator: the root followed
    by the non-empty slices. *)
Lemma shard_path_absent self h :
  contains sep h = false ->
  ImageStorage._get_shard_path self h =
  PosixPath (p_root (ImageStorage.base_path self))
            (p_parts (ImageStorage.base_path self) ++
             List.filter is_name (ImageStorage.shard_parts self h)).
Proof.
  intros Hh.
  assert (Hall : Forall (fun x => contains sep x = false)
                        (ImageStorage.shard_parts self h)).
  { unfold ImageStorage.shard_parts. apply List.Forall_forall. intros s Hs.
    apply in_map_iff in Hs as (i & <- & _). apply contains_pyslice, Hh. }
  unfold ImageStorage._get_shard_path. rewrite joinpath_relative.
  - rewrite names_of_absent_filter by assumption. reflexivity.
  - eapply Forall_impl; [exact Hall|]. intros. apply startswith_absent. assumption.
Qed.

Lemma file_path_wf root d w self h e :
  ImageStorage.__init__ root d w = Ret self ->
  wf_path (ImageStorage._get_file_path self h e).
Proof.
  intros H. injection H as <-. apply truediv_wf, joinpath_wf, Path_wf.
Qed.

(** ** C1 *)

(** C1 (code defect).  For every configuration and every payload, when the
    caller-supplied extension is [".tmp"] the temporary path computed by
    [store] ([file_path.with_suffix('.tmp')]) is the final path itself: the
    payload is written straight to the final location. *)
Theorem store_tmp_extension_temp_is_final
    (self : ImageStorage.t) (data : bytes) :
  with_suffix
    (ImageStorage._get_file_path self (ImageStorage._compute_hash data) tmp_suffix)
    tmp_suffix =
  Ret (ImageStorage._get_file_path self (ImageStorage._compute_hash data) tmp_suffix).
Proof.
  pose proof (compute_hash_full_length data) as Hh.
  rewrite file_path_digest by assumption.
  change (split_on sep tmp_suffix) with [tmp_suffix]. cbn [hd tl List.filter].
  apply (with_suffix_tmp_same _ (ImageStorage._compute_hash data)).
  - cbn [p_parts]. intros E. apply app_eq_nil in E as [_ E]. discriminate.
  - apply name_snoc.
  - apply digest_nonempty, Hh.
Qed.

(** ** C4 *)

Lemma get_path_spec_location self h e :
  ImageStorage.get_path self h e =
  spec_location (ImageStorage.base_path self) (ImageStorage.shard_depth self)
                (ImageStorage.shard_width self) h e.
Proof.
  unfold ImageStorage.get_path, spec_location, ImageStorage._get_file_path,
    ImageStorage._get_shard_path.
  rewrite joinpath_fold, fold_left_app, shard_parts_spec. reflexivity.
Qed.

Lemma file_path_sane self h e :
  full_length_digest h -> contains sep e = false ->
  0 < ImageStorage.shard_width self ->
  ImageStorage.shard_depth self * ImageStorage.shard_width self <= 64 ->
  ImageStorage._get_file_path self h e =
  PosixPath (p_root (ImageStorage.base_path self))
            (p_parts (ImageStorage.base_path self) ++
             spec_levels (ImageStorage.shard_depth self)
                         (ImageStorage.shard_width self) h ++ [h ++ e]).
Proof.
  intros Hh He Hw Hdw.
  rewrite file_path_digest by assumption.
  rewrite shard_path_absent by (apply digest_no_sep, Hh).
  rewrite split_on_absent by assumption. cbn [hd tl List.filter p_root p_parts].
  rewrite shard_parts_spec, filter_is_name_ok, <- app_assoc; [reflexivity|].
  eapply Forall_impl; [apply sane_levels; eassumption|]. intros ? [? _]. assumption.
Qed.

Lemma file_path_digest_inj self h1 h2 e :
  full_length_digest h1 -> full_length_digest h2 ->
  ImageStorage._get_file_path self h1 e = ImageStorage._get_file_path self h2 e ->
  h1 = h2.
Proof.
  intros H1 H2. rewrite !file_path_digest by assumption.
  intros E. injection E as _ E.
  rewrite !(app_assoc _ [_] _) in E || idtac.
  change (?a :: ?t) with ([a] ++ t) in E.
  set (T := List.filter is_name (tl (split_on sep e))) in *.
  assert (E' : forall (p q : list str) a b,
             p ++ a :: T = q ++ b :: T -> a = b).
  { intros p q a b Epq.
    change (p ++ [a] ++ T = q ++ [b] ++ T) in Epq.
    rewrite !app_assoc in Epq. apply app_inv_tail in Epq.
    apply app_inj_tail in Epq. tauto. }
  apply E' in E. apply app_inv_tail in E. exact E.
Qed.

Lemma hex_str_is_name s : hex_str s -> is_name s = negb (Nat.eqb (length s) 0).
Proof.
  intros Hs. destruct s as [|x s]; [reflexivity|].
  apply name_ok_is_name, hex_str_name_ok; [discriminate|assumption].
Qed.

(** The length of a slice with bounds that are not negative. *)
Lemma pyslice_len {A} (s : list A) a b :
  0 <= a -> a <= b -> len (pyslice s a b) = Z.min b (len s) - Z.min a (len s).
Proof.
  intros Ha Hab. unfold pyslice, clamp_index. pose proof (len_nonneg s).
  replace (a <? 0) with false by (symmetry; apply Z.ltb_ge; lia).
  replace (b <? 0) with false by (symmetry; apply Z.ltb_ge; lia).
  destruct (_ <? _) eqn:E.
  - apply Z.ltb_lt in E. unfold len in *. rewrite length_take, length_drop. lia.
  - apply Z.ltb_ge in E. unfold len in *. cbn [length]. lia.
Qed.

(** A slice of a full-length digest is a directory level exactly when it
    starts inside the digest. *)
Lemma level_is_name h w i :
  full_length_digest h -> 0 < w -> 0 <= i ->
  is_name (pyslice h (i * w) ((i + 1) * w)) = (i * w <? 64).
Proof.
  intros Hh Hw Hi.
  rewrite hex_str_is_name by (apply hex_str_pyslice, digest_hex, Hh).
  assert (Hl : len (pyslice h (i * w) ((i + 1) * w)) =
               Z.min ((i + 1) * w) 64 - Z.min (i * w) 64)
    by (rewrite pyslice_len, (digest_len h Hh); [reflexivity|nia|nia]).
  unfold len in Hl.
  destruct (i * w <? 64) eqn:E; [apply Z.ltb_lt in E|apply Z.ltb_ge in E];
    destruct (length _); cbn [Nat.eqb negb]; try reflexivity; exfalso; nia.
Qed.

(** The number of directory levels of a full-length digest: the depth, but
    not more than the digest has slices of the width. *)
Lemma levels_count h d w :
  full_length_digest h -> 0 < w -> 0 <= d ->
  len (List.filter is_name (spec_levels d w h)) = Z.min d (63 / w + 1).
Proof.
  intros Hh Hw Hd. unfold spec_levels, range.
  rewrite <- (Z2Nat.id d Hd) at 2. generalize (Z.to_nat d) as n. clear d Hd.
  pose proof (Z.mul_div_le 63 w Hw) as Hlo.
  pose proof (Z.mul_succ_div_gt 63 w Hw) as Hhi.
  induction n as [|n IH].
  - cbn. unfold len. cbn. assert (0 <= 63 / w) by (apply Z.div_pos; lia). lia.
  - rewrite seq_S, !map_app, List.filter_app, len_app.
    etransitivity; [apply (f_equal (fun x => x + _)), IH|].
    cbn [map List.filter Nat.add]. rewrite level_is_name by (assumption || lia).
    destruct (Z.of_nat n * w <? 64) eqn:E;
      [apply Z.ltb_lt in E|apply Z.ltb_ge in E]; unfold len; cbn [length]; nia.
Qed.

Lemma join_with_app c (a b : list str) :
  a <> [] -> b <> [] ->
  join_with c (a ++ b) = join_with c a ++ c :: join_with c b.
Proof.
  intros Ha Hb. induction a as [|x a IH]; [congruence|].
  destruct a as [|y a].
  - destruct b; [congruence|]. reflexivity.
  - change ((x :: y :: a) ++ b) with (x :: (y :: a) ++ b).
    change (join_with c (x :: (y :: a) ++ b))
      with (x ++ c :: join_with c ((y :: a) ++ b)).
    rewrite IH by discriminate.
    change (join_with c (x :: y :: a)) with (x ++ c :: join_with c (y :: a)).
    rewrite <- app_assoc. reflexivity.
Qed.

(** The rendering of a path below a directory: the rendering of the
    directory, a separator, and the further components joined. *)
Lemma path_str_below r (P L : list str) :
  P <> [] -> L <> [] -> Forall name_ok P ->
  path_str (PosixPath r (P ++ L)) =
  path_str (PosixPath r P) ++ sep :: join_with sep L.
Proof.
  intros HP HL Hok. unfold path_str. cbn [p_root p_parts].
  rewrite join_with_app by assumption.
  destruct (join_with_head sep P (name_ok_piece P Hok) HP) as [Hne _].
  destruct (join_with sep P) as [|x jp] eqn:Ej; [congruence|].
  rewrite app_assoc.
  destruct (r ++ x :: jp) as [|y rest] eqn:Er; [destruct r; discriminate|].
  reflexivity.
Qed.


(* ====================================================================== *)
(** * System calls *)
(* ====================================================================== *)

Lemma bind_run {A B} (m : M A) (k : A -> M B) w :
  (m ≫= k) w =
  match m w with
  | (Ret a, w') => k a w'
  | (Raise e, w') => (Raise e, w')
  end.
Proof. reflexivity. Qed.

(** A computation returns its outcome and the world it leaves behind. *)
Lemma run_eq {A} (m : M A) (w : world) (r : outcome A) :
  fst (m w) = r -> m w = (r, after m w).
Proof. unfold after. destruct (m w). cbn [fst snd]. intros ->. reflexivity. Qed.

Lemma issued_app w w' evs : log w' = log w ++ evs -> issued w w' = evs.
Proof. intros H. unfold issued. rewrite H. apply drop_app_length. Qed.

(** Case analysis on the scrutinees of the matches in a hypothesis. *)
Ltac break_match H :=
  repeat match type of H with
         | context [match ?x with _ => _ end] => destruct x eqn:?
         end.

Lemma syscall_inv {A} ev sem partial w (r : outcome A) w' :
  syscall ev sem partial w = (r, w') ->
  (exists f, head (plan w) = Some (Some f) /\ r = Raise (OSError (f_errno f)) /\
             w' = advance w ev (partial f (fs w))) \/
  (exists a m, sem w = Ret (a, m) /\ r = Ret a /\ w' = advance w ev m) \/
  (exists e, sem w = Raise e /\ r = Raise e /\ w' = advance w ev (fs w)).
Proof.
  unfold syscall. intros H.
  destruct (head (plan w)) as [[f|]|].
  - left. exists f. injection H as <- <-. auto.
  - right. destruct (sem w) as [[a m]|e]; injection H as <- <-; eauto 7.
  - right. destruct (sem w) as [[a m]|e]; injection H as <- <-; eauto 7.
Qed.

(** ** The refusal of a name *)

(** The walk looks at the tree only to tell the directories. *)
Lemma resolve_dirs d (m m' : gmap PurePosixPath node) l :
  (forall q, is_dir m q = is_dir m' q) -> resolve d m l = resolve d m' l.
Proof.
  intros Hd. induction l as [|q rest IH]; [reflexivity|].
  cbn [resolve]. destruct rest as [|q' rest']; [destruct (m !! q), (m' !! q); reflexivity|].
  specialize (Hd q). unfold is_dir in Hd.
  destruct (m !! q) as [[|]|], (m' !! q) as [[|]|]; try discriminate;
    first [exact IH | reflexivity].
Qed.

Lemma refusal_dirs d (m m' : gmap PurePosixPath node) p :
  (forall q, is_dir m q = is_dir m' q) -> refusal d m p = refusal d m' p.
Proof.
  intros Hd. unfold refusal. rewrite (resolve_dirs d m m' _ Hd). reflexivity.
Qed.

(** Taking a regular file away, or putting one where no directory is,
    leaves the directories as they are. *)
Lemma is_dir_delete_file (m : gmap PurePosixPath node) p q :
  is_dir m p = false -> is_dir (base.delete p m) q = is_dir m q.
Proof.
  intros Hp. unfold is_dir in *. destruct (decide (q = p)) as [->|Hne].
  - rewrite lookup_delete_eq. destruct (m !! p) as [[|]|]; congruence.
  - rewrite lookup_delete_ne by congruence. reflexivity.
Qed.

Lemma is_dir_insert_file (m : gmap PurePosixPath node) p c q :
  is_dir m p = false -> is_dir (<[p := File c]> m) q = is_dir m q.
Proof.
  intros Hp. unfold is_dir in *. destruct (decide (q = p)) as [->|Hne].
  - rewrite lookup_insert_eq. destruct (m !! p) as [[|]|]; congruence.
  - rewrite lookup_insert_ne by congruence. reflexivity.
Qed.

(** ** The existence probe *)

Lemma path_exists_present p w :
  is_Some (fs w !! p) -> path_exists p w = (Ret true, w).
Proof. intros [n H]. unfold path_exists, stat. rewrite H. reflexivity. Qed.

Lemma path_exists_absent p w :
  fs w !! p = None ->
  path_exists p w =
  match probe_refused w p with
  | Some errno => (Raise (OSError errno), w)
  | None => (Ret false, w)
  end.
Proof.
  intros H. unfold path_exists, stat, probe_refused. rewrite H.
  destruct (refusal _ _ p) as [[|errno]|]; cbn [default id]; try reflexivity.
  destruct (bool_decide (errno ∈ IGNORED_ERRNOS)); reflexivity.
Qed.

(** The probe hands back the world it received; [True] means that the tree
    holds the path, and [False] or an exception that it does not. *)
Lemma path_exists_inv p w r w' :
  path_exists p w = (r, w') ->
  w' = w /\
  (r = Ret true -> is_Some (fs w !! p)) /\
  (r <> Ret true -> fs w !! p = None) /\
  (forall e, r = Raise e ->
     exists errno, e = OSError errno /\ probe_refused w p = Some errno).
Proof.
  destruct (fs w !! p) as [n|] eqn:E.
  - rewrite path_exists_present by (rewrite E; eauto). intros H.
    injection H as <- <-. split; [reflexivity|]. split; [eauto|].
    split; [congruence|]. discriminate.
  - rewrite path_exists_absent by exact E.
    destruct (probe_refused w p) as [errno|]; intros H; injection H as <- <-.
    + split; [reflexivity|]. split; [discriminate|]. split; [reflexivity|].
      intros e He. injection He as <-. eauto.
    + split; [reflexivity|]. split; [discriminate|]. split; [reflexivity|].
      discriminate.
Qed.

(** ** The calls on files *)

Lemma open_wb_ret p w w' :
  aio_open_wb p w = (Ret tt, w') ->
  w' = advance w (EvOpen p) (<[p := File []]> (fs w)).
Proof.
  intros H. apply syscall_inv in H as [(f & _ & ? & _)|[(a & m & Hs & _ & ->)|(e & _ & ? & _)]];
    try discriminate.
  cbv zeta in Hs. break_match Hs; try discriminate;
    injection Hs as _ <-; reflexivity.
Qed.

Lemma open_wb_raise p w e w' :
  aio_open_wb p w = (Raise e, w') -> w' = advance w (EvOpen p) (fs w).
Proof.
  intros H. apply syscall_inv in H as [(f & _ & _ & ->)|[(a & m & _ & ? & _)|(e' & _ & _ & ->)]];
    try discriminate; reflexivity.
Qed.

Lemma write_ret p data w w' :
  aio_write p data w = (Ret tt, w') ->
  w' = advance w (EvWrite p data) (<[p := File data]> (fs w)).
Proof.
  intros H. apply syscall_inv in H as [(f & _ & ? & _)|[(a & m & Hs & _ & ->)|(e & _ & ? & _)]];
    try discriminate.
  injection Hs as _ <-. reflexivity.
Qed.

Lemma write_raise p data w e w' :
  aio_write p data w = (Raise e, w') ->
  exists k, w' = advance w (EvWrite p data) (<[p := File (take k data)]> (fs w)).
Proof.
  intros H. apply syscall_inv in H as [(f & _ & _ & ->)|[(a & m & _ & ? & _)|(e' & Hs & _ & _)]];
    try discriminate. eauto.
Qed.

Lemma rename_ret src dst w w' :
  aio_rename src dst w = (Ret tt, w') ->
  exists n, fs w !! src = Some n /\
            w' = advance w (EvRename src dst) (<[dst := n]> (base.delete src (fs w))).
Proof.
  intros H. apply syscall_inv in H as [(f & _ & ? & _)|[(a & m & Hs & _ & ->)|(e & _ & ? & _)]];
    try discriminate.
  cbv zeta in Hs.
  destruct (refusal _ _ src); [discriminate|].
  destruct (fs w !! src) as [n|]; [|discriminate].
  exists n. split; [reflexivity|].
  destruct (refusal _ _ dst); [discriminate|].
  destruct n, (fs w !! dst) as [[|]|]; try discriminate;
    injection Hs as _ <-; reflexivity.
Qed.

(** A rename that returned found the destination not refused, and did not
    put a regular file where a directory was. *)
Lemma rename_ret_dst src dst w w' :
  aio_rename src dst w = (Ret tt, w') ->
  refusal (denied w) (fs w) dst = None /\
  (forall c, fs w !! src = Some (File c) -> is_dir (fs w) dst = false).
Proof.
  intros H. apply syscall_inv in H as [(f & _ & ? & _)|[(a & m & Hs & _ & _)|(e & _ & ? & _)]];
    try discriminate.
  cbv zeta in Hs.
  destruct (refusal _ _ src); [discriminate|].
  destruct (fs w !! src) as [n|]; [|discriminate].
  destruct (refusal _ _ dst); [discriminate|].
  split; [reflexivity|]. intros c Hc. injection Hc as ->. unfold is_dir.
  destruct (fs w !! dst) as [[|]|]; try reflexivity. discriminate.
Qed.

Lemma rename_raise src dst w e w' :
  aio_rename src dst w = (Raise e, w') ->
  w' = advance w (EvRename src dst) (fs w).
Proof.
  intros H. apply syscall_inv in H as [(f & _ & _ & ->)|[(a & m & _ & ? & _)|(e' & _ & _ & ->)]];
    try discriminate; reflexivity.
Qed.

Lemma remove_ret p w w' :
  aio_remove p w = (Ret tt, w') ->
  w' = advance w (EvRemove p) (base.delete p (fs w)).
Proof.
  intros H. apply syscall_inv in H as [(f & _ & ? & _)|[(a & m & Hs & _ & ->)|(e & _ & ? & _)]];
    try discriminate.
  cbv zeta in Hs. destruct (refusal _ _ p); [discriminate|].
  destruct (fs w !! p) as [[c|]|]; try discriminate. injection Hs as _ <-. reflexivity.
Qed.

(** A removal that returned took a regular file away, under a name that is
    not refused. *)
Lemma remove_ret_file p w w' :
  aio_remove p w = (Ret tt, w') ->
  (exists c, fs w !! p = Some (File c)) /\ refusal (denied w) (fs w) p = None.
Proof.
  intros H. apply syscall_inv in H as [(f & _ & ? & _)|[(a & m & Hs & _ & _)|(e & _ & ? & _)]];
    try discriminate.
  cbv zeta in Hs. destruct (refusal _ _ p); [discriminate|].
  destruct (fs w !! p) as [[c|]|]; try discriminate. eauto.
Qed.

Lemma remove_raise p w e w' :
  aio_remove p w = (Raise e, w') -> w' = advance w (EvRemove p) (fs w).
Proof.
  intros H. apply syscall_inv in H as [(f & _ & _ & ->)|[(a & m & _ & ? & _)|(e' & _ & _ & ->)]];
    try discriminate; reflexivity.
Qed.

(** A removal that no fault hits takes away a regular file whose name is
    not refused. *)
Lemma remove_file p w c :
  fs w !! p = Some (File c) -> unfaulted w = true ->
  refusal (denied w) (fs w) p = None ->
  aio_remove p w = (Ret tt, advance w (EvRemove p) (base.delete p (fs w))).
Proof.
  unfold unfaulted, aio_remove, syscall. intros Hp Hu Hr.
  destruct (head (plan w)) as [[f|]|]; [discriminate| |]; cbv zeta;
    rewrite Hr, Hp; reflexivity.
Qed.

Lemma read_ret p w c w' :
  aio_read p w = (Ret c, w') ->
  fs w !! p = Some (File c) /\ w' = advance w (EvRead p) (fs w).
Proof.
  intros H. apply syscall_inv in H as [(f & _ & ? & _)|[(a & m & Hs & Hr & ->)|(e & _ & ? & _)]];
    try discriminate.
  injection Hr as <-. cbv zeta in Hs.
  destruct (fs w !! p) as [[c'|]|]; try discriminate. injection Hs as <- <-. auto.
Qed.

Lemma read_raise p w e w' :
  aio_read p w = (Raise e, w') -> w' = advance w (EvRead p) (fs w).
Proof.
  intros H. apply syscall_inv in H as [(f & _ & _ & ->)|[(a & m & _ & ? & _)|(e' & _ & _ & ->)]];
    try discriminate; reflexivity.
Qed.

(** A read that no fault hits returns the content of a regular file. *)
Lemma read_file p w c :
  fs w !! p = Some (File c) -> unfaulted w = true ->
  aio_read p w = (Ret c, advance w (EvRead p) (fs w)).
Proof.
  unfold unfaulted, aio_read, syscall. intros Hp Hu.
  destruct (head (plan w)) as [[f|]|]; [discriminate| |]; cbv zeta; rewrite Hp;
    reflexivity.
Qed.

(** ** The creation of directories *)

Lemma self_in_ancestors p : In p (ancestors p).
Proof.
  unfold ancestors. apply in_map_iff. exists (length (p_parts p)). split.
  - rewrite firstn_all. destruct p. reflexivity.
  - apply in_seq. lia.
Qed.

Lemma take_while_incl {A} (f : A -> bool) l x : In x (take_while f l) -> In x l.
Proof.
  induction l as [|y l IH]; [intros []|]. cbn [take_while].
  destruct (f y); [|intros []]. intros [->|H]; [left; reflexivity|right; auto].
Qed.

Lemma in_removelast {A} (l : list A) x : In x (removelast l) -> In x l.
Proof.
  induction l as [|y l IH]; [intros []|]. cbn [removelast].
  destruct l as [|z l]; [intros []|]. intros [->|H]; [left; reflexivity|right; auto].
Qed.

(** [makedirs] calls [mkdir] on levels of the path only, and last on the
    path itself. *)
Lemma makedirs_steps_incl m p q : In q (makedirs_steps m p) -> In q (ancestors p).
Proof.
  unfold makedirs_steps. intros H. apply in_app_iff in H as [H|[<-|[]]].
  - apply in_rev, take_while_incl in H. apply in_rev in H.
    apply in_removelast. exact H.
  - apply self_in_ancestors.
Qed.

Lemma mkdir_ret d (m m' : gmap PurePosixPath node) q :
  mkdir d m q = Ret m' -> m !! q = None /\ m' = <[q := Dir]> m.
Proof.
  unfold mkdir. destruct (m !! q); [discriminate|].
  destruct (refusal d m q); [discriminate|].
  destruct (p_parts q), (m !! parent q) as [[|]|]; try discriminate;
    intros H; injection H as <-; auto.
Qed.

(** The [mkdir] calls only ever add directories, at levels that were not
    there; and if they end well the last level is a directory. *)
Lemma mkdirs_inv d inject steps (m0 m : gmap PurePosixPath node) r dflt :
  mkdirs d inject steps m0 = (r, m) ->
  (forall x, m !! x = m0 !! x \/
             (m0 !! x = None /\ m !! x = Some Dir /\ In x steps)) /\
  (r = Ret tt -> steps <> [] -> m !! List.last steps dflt = Some Dir).
Proof.
  revert inject m0 r m. induction steps as [|q rest IH]; intros inject m0 r m.
  { intros H. injection H as <- <-. split; [auto|congruence]. }
  cbn [mkdirs]. cbv zeta.
  set (inject' := match inject with Some (S n, errno) => Some (n, errno)
                                  | _ => None end).
  destruct (match inject with Some (O, errno) => Raise (OSError errno)
                            | _ => mkdir d m0 q end) as [m'|e] eqn:Emade.
  - assert (Hmk : mkdir d m0 q = Ret m')
      by (destruct inject as [[[|n] errno]|]; [discriminate|exact Emade..]).
    apply mkdir_ret in Hmk as [Hq ->].
    intros H. apply IH in H as [Hframe Hlast]. split.
    + intros x. destruct (Hframe x) as [Hx|(Hx0 & Hx & Hin)].
      * destruct (decide (x = q)) as [->|Hne].
        -- right. rewrite Hx, lookup_insert_eq. split; [exact Hq|].
           split; [reflexivity|left; reflexivity].
        -- left. rewrite Hx. apply lookup_insert_ne. congruence.
      * right. destruct (decide (x = q)) as [->|Hne].
        -- rewrite lookup_insert_eq in Hx0. discriminate.
        -- rewrite lookup_insert_ne in Hx0 by congruence.
           split; [exact Hx0|]. split; [exact Hx|right; exact Hin].
    + intros Hr _. destruct rest as [|q' rest'].
      * cbn [mkdirs] in *. specialize (Hframe q).
        destruct Hframe as [Hx|(_ & Hx & _)]; cbn [List.last].
        -- rewrite Hx. apply lookup_insert_eq.
        -- exact Hx.
      * change (List.last (q :: q' :: rest') dflt) with (List.last (q' :: rest') dflt).
        apply Hlast; [exact Hr|discriminate].
  - destruct rest as [|q' rest'].
    + unfold is_dir. destruct (m0 !! q) as [[|]|] eqn:Eq; intros H;
        injection H as <- <-; (split; [auto|]); try discriminate.
      intros _ _. exact Eq.
    + assert (Hskip : forall r m, mkdirs d inject' (q' :: rest') m0 = (r, m) ->
                (forall x, m !! x = m0 !! x \/
                   (m0 !! x = None /\ m !! x = Some Dir /\ In x (q :: q' :: rest'))) /\
                (r = Ret tt -> q :: q' :: rest' <> [] ->
                 m !! List.last (q :: q' :: rest') dflt = Some Dir)).
      { intros r1 m1 H. apply IH in H as [Hframe Hlast]. split.
        - intros x. destruct (Hframe x) as [Hx|(Hx0 & Hx & Hin)]; [auto|].
          right. split; [exact Hx0|]. split; [exact Hx|right; exact Hin].
        - intros Hr _. apply Hlast; [exact Hr|discriminate]. }
      destruct (is_FileExistsError e); [apply Hskip|].
      intros H. injection H as <- <-. split; [auto|discriminate].
Qed.

Lemma last_snoc {A} (l : list A) (x dflt : A) : List.last (l ++ [x]) dflt = x.
Proof. apply last_last. Qed.

(** What [makedirs] leaves behind, whether it returns or raises: it is
    recorded as one call, every path is as it was or is a level of [p]
    that was not there and now is a directory, and after a return [p] is
    a directory. *)
Lemma makedirs_inv p w r w' :
  aio_makedirs p w = (r, w') ->
  exists m, w' = advance w (EvMakedirs p) m /\
    (forall x, m !! x = fs w !! x \/
               (fs w !! x = None /\ m !! x = Some Dir /\ In x (ancestors p))) /\
    (r = Ret tt -> m !! p = Some Dir).
Proof.
  unfold aio_makedirs. cbv zeta.
  destruct (mkdirs _ _ _ _) as [r1 m] eqn:E. intros H. injection H as <- <-.
  exists m. split; [reflexivity|].
  apply (mkdirs_inv _ _ _ _ _ _ p) in E as [Hframe Hlast]. split.
  - intros x. destruct (Hframe x) as [Hx|(Hx0 & Hx & Hin)]; [auto|].
    right. split; [exact Hx0|]. split; [exact Hx|].
    eapply makedirs_steps_incl, Hin.
  - intros Hr. specialize (Hlast Hr). unfold makedirs_steps in Hlast.
    rewrite last_snoc in Hlast. apply Hlast.
    intros E. apply app_eq_nil in E as [_ E]. discriminate.
Qed.

Lemma makedirs_log p w r w' :
  aio_makedirs p w = (r, w') -> log w' = log w ++ [EvMakedirs p].
Proof. intros H. apply makedirs_inv in H as (m & -> & _). reflexivity. Qed.

(** [makedirs] does not touch a path that is not a level of [p]. *)
Lemma makedirs_frame p w r w' q :
  aio_makedirs p w = (r, w') -> ~ In q (ancestors p) -> fs w' !! q = fs w !! q.
Proof.
  intros H Hq. apply makedirs_inv in H as (m & -> & Hframe & _). cbn [fs advance].
  destruct (Hframe q) as [Hx|(_ & _ & Hin)]; [exact Hx|]. exfalso. exact (Hq Hin).
Qed.

(** A path with more components than [p] is neither [p] nor above it. *)
Lemma longer_not_ancestor p q :
  (length (p_parts p) < length (p_parts q))%nat -> ~ In q (ancestors p).
Proof.
  intros Hlen Hin. unfold ancestors in Hin.
  apply in_map_iff in Hin as (k & <- & _). cbn [p_parts] in Hlen.
  rewrite length_take in Hlen. lia.
Qed.

(* ====================================================================== *)
(** * The paths through [store] *)
(* ====================================================================== *)

(** The duplicate path: the result is built from the arguments and the
    world is returned as it was received. *)
Lemma store_duplicate self input e w :
  is_Some (fs w !! ImageStorage._get_file_path self
             (ImageStorage._compute_hash (getvalue input)) e) ->
  ImageStorage.store self input e w =
  (Ret (storage_result self (getvalue input) e true (clock w)), w).
Proof.
  intros H. unfold ImageStorage.store. rewrite bind_run.
  rewrite path_exists_present by exact H. reflexivity.
Qed.

(** The other paths, one step at a time: the probe of a free location
    raises, or the first write begins. *)
Lemma store_fresh self input e w :
  fs w !! ImageStorage._get_file_path self
            (ImageStorage._compute_hash (getvalue input)) e = None ->
  ImageStorage.store self input e w =
  let data := getvalue input in
  let h := ImageStorage._compute_hash data in
  let file_path := ImageStorage._get_file_path self h e in
  match probe_refused w file_path with
  | Some errno => (Raise (OSError errno), w)
  | None =>
      match aio_makedirs (ImageStorage._get_shard_path self h) w with
      | (Raise err, w1) => (Raise err, w1)
      | (Ret _, w1) =>
          match with_suffix file_path tmp_suffix with
          | Raise err => (Raise err, w1)
          | Ret temp_path =>
              match try_except (ImageStorage.store_write temp_path file_path data)
                               (ImageStorage.store_cleanup temp_path) w1 with
              | (Raise err, w2) => (Raise err, w2)
              | (Ret _, w2) => (Ret (storage_result self data e false (clock w2)), w2)
              end
          end
      end
  end.
Proof.
  intros H. unfold ImageStorage.store. rewrite bind_run.
  rewrite path_exists_absent by exact H. cbv zeta.
  destruct (probe_refused w _); [reflexivity|].
  cbn [negb]. rewrite !bind_run.
  destruct (aio_makedirs _ w) as [[[]|err] w1]; [|reflexivity].
  rewrite bind_run. unfold lift.
  destruct (with_suffix _ _) as [tp|err]; [|reflexivity].
  destruct (try_except _ _ w1) as [[[]|err] w2]; reflexivity.
Qed.

(** The probe of a free final location raises: [store] raises its error
    and has done nothing. *)
Lemma store_probe_failure self input e w errno :
  fs w !! ImageStorage._get_file_path self
            (ImageStorage._compute_hash (getvalue input)) e = None ->
  probe_refused w (ImageStorage._get_file_path self
                     (ImageStorage._compute_hash (getvalue input)) e)
  = Some errno ->
  ImageStorage.store self input e w = (Raise (OSError errno), w).
Proof.
  intros Hfree Hloud. rewrite store_fresh by exact Hfree. cbv zeta.
  rewrite Hloud. reflexivity.
Qed.

Lemma syscall_log {A} ev sem partial w (r : outcome A) w' :
  syscall ev sem partial w = (r, w') -> log w' = log w ++ [ev].
Proof.
  intros H. apply syscall_inv in H as [(f & _ & _ & ->)|[(a & m & _ & _ & ->)|(e & _ & _ & ->)]];
    reflexivity.
Qed.

(** The [try] block succeeded: the payload sits at the final location and
    the three calls were issued in order. *)
Lemma store_write_ret tp fp data w1 w2 :
  ImageStorage.store_write tp fp data w1 = (Ret tt, w2) ->
  fs w2 !! fp = Some (File data) /\
  log w2 = log w1 ++ [EvOpen tp; EvWrite tp data; EvRename tp fp] /\
  clock w2 = clock w1.
Proof.
  unfold ImageStorage.store_write. rewrite !bind_run.
  destruct (aio_open_wb tp w1) as [[[]|e] wa] eqn:Ha; [|discriminate].
  rewrite bind_run.
  destruct (aio_write tp data wa) as [[[]|e] wb] eqn:Hb; [|discriminate].
  intros Hc.
  apply open_wb_ret in Ha. apply write_ret in Hb.
  apply rename_ret in Hc as (n & Hn & ->). subst wb wa.
  cbn [fs advance log clock] in *.
  rewrite lookup_insert_eq in Hn. injection Hn as <-.
  rewrite lookup_insert_eq, <- !app_assoc. auto.
Qed.

(** After a [try] block that succeeded the final location is a name the
    operating system does not refuse. *)
Lemma store_write_ret_refusal tp fp data w1 w2 :
  ImageStorage.store_write tp fp data w1 = (Ret tt, w2) ->
  refusal (denied w2) (fs w2) fp = None.
Proof.
  unfold ImageStorage.store_write. rewrite !bind_run.
  destruct (aio_open_wb tp w1) as [[[]|e] wa] eqn:Ha; [|discriminate].
  rewrite bind_run.
  destruct (aio_write tp data wa) as [[[]|e] wb] eqn:Hb; [|discriminate].
  intros Hc.
  apply open_wb_ret in Ha. apply write_ret in Hb.
  pose proof (rename_ret_dst _ _ _ _ Hc) as [Href Hdir].
  apply rename_ret in Hc as (n & Hn & ->). subst wb wa.
  cbn [fs advance denied] in *.
  rewrite lookup_insert_eq in Hn. injection Hn as <-.
  specialize (Hdir data (lookup_insert_eq _ _ _)).
  rewrite <- Href. apply refusal_dirs. intros q.
  set (m := <[tp := File data]> (<[tp := File []]> (fs w1))) in *.
  assert (Htp : is_dir m tp = false)
    by (unfold is_dir, m; rewrite lookup_insert_eq; reflexivity).
  rewrite is_dir_insert_file by (rewrite is_dir_delete_file; assumption).
  apply is_dir_delete_file, Htp.
Qed.

(** The [try] block failed: only the temporary path can have changed, and
    if it changed it now holds a regular file. *)
Lemma store_write_raise tp fp data w1 e0 w2 :
  ImageStorage.store_write tp fp data w1 = (Raise e0, w2) ->
  (forall q, q <> tp -> fs w2 !! q = fs w1 !! q) /\
  (fs w2 !! tp = fs w1 !! tp \/ exists c, fs w2 !! tp = Some (File c)) /\
  (exists evs, log w2 = log w1 ++ EvOpen tp :: evs /\
               Forall (fun ev => ev = EvWrite tp data \/ ev = EvRename tp fp) evs).
Proof.
  unfold ImageStorage.store_write. rewrite !bind_run.
  destruct (aio_open_wb tp w1) as [[[]|e] wa] eqn:Ha.
  - rewrite bind_run.
    destruct (aio_write tp data wa) as [[[]|e] wb] eqn:Hb.
    + intros Hc. apply open_wb_ret in Ha. apply write_ret in Hb.
      apply rename_raise in Hc. subst w2 wb wa. cbn [fs advance log].
      split; [|split].
      * intros q Hq. rewrite !lookup_insert_ne by congruence. reflexivity.
      * right. eexists. apply lookup_insert_eq.
      * exists [EvWrite tp data; EvRename tp fp].
        rewrite <- !app_assoc. split; [reflexivity|]. auto.
    + intros Hc. injection Hc as <- <-. apply open_wb_ret in Ha.
      apply write_raise in Hb as [k ->]. subst wa. cbn [fs advance log].
      split; [|split].
      * intros q Hq. rewrite !lookup_insert_ne by congruence. reflexivity.
      * right. eexists. apply lookup_insert_eq.
      * exists [EvWrite tp data]. rewrite <- !app_assoc. split; [reflexivity|]. auto.
  - intros Hc. injection Hc as <- <-. apply open_wb_raise in Ha. subst wa.
    cbn [fs advance log]. split; [|split]; auto.
    exists []. auto.
Qed.

(** The handler with nothing to remove re-raises the exception it caught,
    unless its own probe of the temporary path raises. *)
Lemma store_cleanup_absent tp e0 w2 :
  fs w2 !! tp = None ->
  ImageStorage.store_cleanup tp e0 w2 =
  match probe_refused w2 tp with
  | Some errno => (Raise (OSError errno), w2)
  | None => (Raise e0, w2)
  end.
Proof.
  intros H. unfold ImageStorage.store_cleanup. rewrite bind_run.
  rewrite path_exists_absent by exact H.
  destruct (probe_refused w2 tp); reflexivity.
Qed.

(** The handler with a temporary file: the caught exception is re-raised
    only if the removal succeeds; a failing removal raises its own error. *)
Lemma store_cleanup_present tp e0 w2 :
  is_Some (fs w2 !! tp) ->
  ImageStorage.store_cleanup tp e0 w2 =
  match aio_remove tp w2 with
  | (Ret _, w3) => (Raise e0, w3)
  | (Raise e1, w3) => (Raise e1, w3)
  end.
Proof.
  intros H. unfold ImageStorage.store_cleanup. rewrite bind_run.
  rewrite path_exists_present by exact H. rewrite bind_run.
  destruct (aio_remove tp w2) as [[[]|e1] w3]; reflexivity.
Qed.

Lemma store_cleanup_log tp e0 w2 r w3 :
  ImageStorage.store_cleanup tp e0 w2 = (r, w3) ->
  log w3 = log w2 \/ log w3 = log w2 ++ [EvRemove tp].
Proof.
  destruct (fs w2 !! tp) as [n|] eqn:E.
  - rewrite store_cleanup_present by (rewrite E; eauto).
    destruct (aio_remove tp w2) as [[[]|e1] w3'] eqn:Hr; intros H;
      injection H as <- <-; right; eapply syscall_log; exact Hr.
  - rewrite store_cleanup_absent by assumption.
    destruct (probe_refused w2 tp); intros H; injection H as <- <-;
      left; reflexivity.
Qed.

Lemma file_path_longer self data e :
  (length (p_parts (ImageStorage._get_shard_path self (ImageStorage._compute_hash data))) <
   length (p_parts (ImageStorage._get_file_path self (ImageStorage._compute_hash data) e)))%nat.
Proof.
  rewrite file_path_digest by apply compute_hash_full_length.
  cbn [p_parts]. rewrite length_app. cbn [length]. lia.
Qed.

(** Creating the shard directories does not touch the final location. *)
Lemma makedirs_keeps_file_path self data e w r w1 :
  aio_makedirs (ImageStorage._get_shard_path self (ImageStorage._compute_hash data)) w
  = (r, w1) ->
  fs w1 !! ImageStorage._get_file_path self (ImageStorage._compute_hash data) e =
  fs w !! ImageStorage._get_file_path self (ImageStorage._compute_hash data) e.
Proof.
  intros H. eapply makedirs_frame; [exact H|].
  apply longer_not_ancestor, file_path_longer.
Qed.

(** ** C3 *)

(** C3 (amended).  Take a call of [store] on the first-write path -- the
    probe of the free final location answers [False] and the shard
    directory is made -- whose [try] block -- the open and write of the
    temporary file, then the rename -- fails with [e0].  (A) If the handler
    finds no temporary file to remove, or its removal succeeds, then
    [store] raises [e0], the temporary path does not exist afterwards and
    neither does the final location.  (B) If the removal itself fails with
    [e1], then [store] raises [e1], not [e0], and the temporary file is
    still there.  (C) If the handler's own probe of the temporary path
    raises, then [store] raises the error of the probe, not [e0], and the
    final location does not exist. *)
Theorem store_failure_cleanup
    (self : ImageStorage.t) (input : image_input) (extension : str)
    (w w1 w2 : world) (temp_path : PurePosixPath) (e0 : exn) :
  let data := getvalue input in
  let image_hash := ImageStorage._compute_hash data in
  let file_path := ImageStorage._get_file_path self image_hash extension in
  fs w !! file_path = None ->
  probe_refused w file_path = None ->
  aio_makedirs (ImageStorage._get_shard_path self image_hash) w = (Ret tt, w1) ->
  with_suffix file_path tmp_suffix = Ret temp_path ->
  ImageStorage.store_write temp_path file_path data w1 = (Raise e0, w2) ->
  (forall w3,
      (fs w2 !! temp_path = None /\ probe_refused w2 temp_path = None /\ w3 = w2) \/
      (is_Some (fs w2 !! temp_path) /\ aio_remove temp_path w2 = (Ret tt, w3)) ->
      ImageStorage.store self input extension w = (Raise e0, w3) /\
      fs w3 !! temp_path = None /\
      fs w3 !! file_path = None) /\
  (forall e1 w3,
      is_Some (fs w2 !! temp_path) ->
      aio_remove temp_path w2 = (Raise e1, w3) ->
      ImageStorage.store self input extension w = (Raise e1, w3) /\
      is_Some (fs w3 !! temp_path)) /\
  (forall errno,
      fs w2 !! temp_path = None ->
      probe_refused w2 temp_path = Some errno ->
      ImageStorage.store self input extension w = (Raise (OSError errno), w2) /\
      fs w2 !! file_path = None).
Proof.
  intros data image_hash file_path Hfree Hprobe Hmk Hsfx Hbody.
  pose proof (makedirs_keeps_file_path self data extension w _ w1 Hmk) as Hfp1.
  fold image_hash in Hfp1. fold file_path in Hfp1. rewrite Hfree in Hfp1.
  pose proof (store_write_raise _ _ _ _ _ _ Hbody) as (Hother & _ & _).
  assert (Hstore : forall err w3,
             ImageStorage.store_cleanup temp_path e0 w2 = (Raise err, w3) ->
             ImageStorage.store self input extension w = (Raise err, w3)).
  { intros err w3 Hc. rewrite store_fresh by exact Hfree. cbv zeta.
    fold data. fold image_hash. fold file_path.
    rewrite Hprobe, Hmk, Hsfx. unfold try_except. rewrite Hbody, Hc. reflexivity. }
  split; [|split].
  - intros w3 [(Habs & Hquiet & ->)|[Hpres Hrm]].
    + split; [apply Hstore; rewrite store_cleanup_absent, Hquiet by exact Habs;
              reflexivity|].
      split; [assumption|].
      destruct (decide (file_path = temp_path)) as [->|Hne]; [assumption|].
      rewrite Hother by assumption. assumption.
    + split.
      { apply Hstore. rewrite store_cleanup_present, Hrm by assumption.
        reflexivity. }
      apply remove_ret in Hrm as ->. cbn [fs advance].
      split; [apply lookup_delete_eq|].
      destruct (decide (file_path = temp_path)) as [->|Hne];
        [apply lookup_delete_eq|].
      rewrite lookup_delete_ne by congruence.
      rewrite Hother by assumption. assumption.
  - intros e1 w3 Hpres Hrm. split.
    + apply Hstore. rewrite store_cleanup_present, Hrm by assumption.
      reflexivity.
    + apply remove_raise in Hrm as ->. exact Hpres.
  - intros errno Habs Hloud. split.
    + apply Hstore. rewrite store_cleanup_absent, Hloud by exact Habs.
      reflexivity.
    + destruct (decide (file_path = temp_path)) as [->|Hne]; [assumption|].
      rewrite Hother by assumption. assumption.
Qed.

(** Whatever [store] returns is the record built from the arguments. *)
Lemma store_ret_result self input e w r w' :
  ImageStorage.store self input e w = (Ret r, w') ->
  exists dup, r = storage_result self (getvalue input) e dup (clock w').
Proof.
  destruct (fs w !! ImageStorage._get_file_path self
              (ImageStorage._compute_hash (getvalue input)) e) as [n|] eqn:E.
  - rewrite store_duplicate by (rewrite E; eauto). intros H.
    injection H as <- <-. eauto.
  - rewrite store_fresh by exact E. cbv zeta.
    destruct (probe_refused w _); [discriminate|].
    destruct (aio_makedirs _ w) as [[[]|?] w1]; [|discriminate].
    destruct (with_suffix _ _) as [tp|?]; [|discriminate].
    destruct (try_except _ _ w1) as [[[]|?] w2]; [|discriminate].
    intros H. injection H as <- <-. eauto.
Qed.

(** A first write that succeeds: the calls issued and the final state of
    the location. *)
Lemma store_fresh_ret self input e w r w' :
  fs w !! ImageStorage._get_file_path self
            (ImageStorage._compute_hash (getvalue input)) e = None ->
  ImageStorage.store self input e w = (Ret r, w') ->
  let data := getvalue input in
  let h := ImageStorage._compute_hash data in
  let file_path := ImageStorage._get_file_path self h e in
  r = storage_result self data e false (clock w') /\
  fs w' !! file_path = Some (File data) /\
  exists temp_path,
    with_suffix file_path tmp_suffix = Ret temp_path /\
    log w' = log w ++ [EvMakedirs (ImageStorage._get_shard_path self h);
                       EvOpen temp_path; EvWrite temp_path data;
                       EvRename temp_path file_path].
Proof.
  intros Hfree. rewrite store_fresh by exact Hfree. cbv zeta.
  destruct (probe_refused w _); [discriminate|].
  destruct (aio_makedirs _ w) as [[[]|?] w1] eqn:Hmk; [|discriminate].
  destruct (with_suffix _ _) as [tp|?] eqn:Hsfx; [|discriminate].
  unfold try_except.
  destruct (ImageStorage.store_write tp _ _ w1) as [[[]|e0] w2] eqn:Hbody.
  - intros H. injection H as <- <-.
    apply store_write_ret in Hbody as (Hfp & Hlog & _).
    split; [reflexivity|]. split; [exact Hfp|]. exists tp. split; [reflexivity|].
    rewrite Hlog. apply makedirs_log in Hmk. rewrite Hmk.
    rewrite <- app_assoc. reflexivity.
  - destruct (ImageStorage.store_cleanup tp e0 w2) as [[[]|err] w3] eqn:Hc;
      [|discriminate].
    exfalso. revert Hc. unfold ImageStorage.store_cleanup. rewrite bind_run.
    destruct (path_exists tp w2) as [[b|?] ?]; [|discriminate].
    rewrite bind_run. destruct b.
    + destruct (aio_remove tp _) as [[[]|?] ?]; discriminate.
    + discriminate.
Qed.

(** ** C5 *)


(** ** C7 *)

(** C7 (amended).  Take a digest whose location holds no object.  If the
    look-up of the location is not refused, or is refused with one of the
    errors [pathlib] takes for "no such file", then [fetch] returns
    [None], [exists] returns [False] and [delete] returns [False]; none of
    them raises and each hands back the world it received.  If the look-up
    is refused with another error -- a name that is too long, a directory
    that cannot be searched -- then all three raise that error, again
    without changing anything. *)
Theorem absent_is_not_an_error
    (self : ImageStorage.t) (image_hash extension : str) (w : world) :
  let file_path := ImageStorage._get_file_path self image_hash extension in
  fs w !! file_path = None ->
  (probe_refused w file_path = None ->
   ImageStorage.fetch self image_hash extension w = (Ret None, w) /\
   ImageStorage.exists_ self image_hash extension w = (Ret false, w) /\
   ImageStorage.delete self image_hash extension w = (Ret false, w)) /\
  (forall errno,
      probe_refused w file_path = Some errno ->
      ImageStorage.fetch self image_hash extension w = (Raise (OSError errno), w) /\
      ImageStorage.exists_ self image_hash extension w = (Raise (OSError errno), w) /\
      ImageStorage.delete self image_hash extension w = (Raise (OSError errno), w)).
Proof.
  intros file_path H.
  unfold ImageStorage.fetch, ImageStorage.exists_, ImageStorage.delete.
  rewrite !bind_run. fold file_path. rewrite (path_exists_absent _ _ H).
  split.
  - intros ->. repeat split; reflexivity.
  - intros errno ->. repeat split; reflexivity.
Qed.

(** ** C9 *)

(** C9.  Every result returned by [store], on the first-write path and on
    the duplicate path alike, carries the SHA-256 hex digest of the payload
    and the location [get_path] derives from that digest. *)
Theorem store_result_hash_and_path
    (self : ImageStorage.t) (input : image_input) (extension : str)
    (w w' : world) (r : StorageResult.t) :
  ImageStorage.store self input extension w = (Ret r, w') ->
  StorageResult.hash r = SHA256.hexdigest (getvalue input) /\
  StorageResult.hash r = ImageStorage._compute_hash (getvalue input) /\
  StorageResult.path r =
  ImageStorage.get_path self (StorageResult.hash r) extension.
Proof.
  intros H. apply store_ret_result in H as [dup ->]. repeat split; reflexivity.
Qed.

(** ** C8 *)

(** The only path [store] ever opens is [file_path.with_suffix('.tmp')]. *)
Lemma store_opens self input e w p :
  In (EvOpen p) (issued w (snd (ImageStorage.store self input e w))) ->
  with_suffix (ImageStorage._get_file_path self
                 (ImageStorage._compute_hash (getvalue input)) e) tmp_suffix
  = Ret p.
Proof.
  destruct (fs w !! ImageStorage._get_file_path self
              (ImageStorage._compute_hash (getvalue input)) e) as [n|] eqn:E.
  { rewrite store_duplicate by (rewrite E; eauto). cbn [snd].
    rewrite (issued_app w w []) by (rewrite app_nil_r; reflexivity). intros []. }
  rewrite store_fresh by exact E. cbv zeta.
  destruct (probe_refused w _).
  { cbn [snd]. rewrite (issued_app w w []) by (rewrite app_nil_r; reflexivity).
    intros []. }
  destruct (aio_makedirs _ w) as [[[]|?] w1] eqn:Hmk.
  2:{ cbn [snd]. rewrite (issued_app w w1 [_]) by (eapply makedirs_log, Hmk).
      intros [H|[]]. discriminate H. }
  apply makedirs_log in Hmk.
  destruct (with_suffix _ _) as [tp|?] eqn:Hsfx.
  2:{ cbn [snd]. rewrite (issued_app w w1 [_]) by exact Hmk.
      intros [H|[]]. discriminate H. }
  unfold try_except.
  destruct (ImageStorage.store_write tp _ _ w1) as [[[]|e0] w2] eqn:Hbody.
  - cbn [snd]. apply store_write_ret in Hbody as (_ & Hlog & _).
    rewrite (issued_app w w2 (_ :: _))
      by (rewrite Hlog, Hmk, <- app_assoc; reflexivity).
    cbn [In]. intros [H|[H|[H|[H|[]]]]]; try discriminate H.
    injection H as <-. reflexivity.
  - apply store_write_raise in Hbody as (_ & _ & evs & Hlog & Hevs).
    assert (Hin : forall rest, In (EvOpen p)
              (EvMakedirs (ImageStorage._get_shard_path self
                 (ImageStorage._compute_hash (getvalue input))) ::
               EvOpen tp :: evs ++ rest) ->
              Forall (fun ev => ev = EvRemove tp) rest -> Ret tp = Ret p).
    { intros rest [H|[H|H]] Hrest; [discriminate H|injection H as <-; reflexivity|].
      exfalso. apply in_app_iff in H as [H|H].
      - rewrite List.Forall_forall in Hevs. destruct (Hevs _ H); discriminate.
      - rewrite List.Forall_forall in Hrest. specialize (Hrest _ H). discriminate. }
    destruct (ImageStorage.store_cleanup tp e0 w2) as [r3 w3] eqn:Hc.
    apply store_cleanup_log in Hc.
    assert (Hlog3 : exists rest, Forall (fun ev => ev = EvRemove tp) rest /\
              log w3 = log w ++
                EvMakedirs (ImageStorage._get_shard_path self
                  (ImageStorage._compute_hash (getvalue input))) ::
                EvOpen tp :: evs ++ rest).
    { destruct Hc as [Hc|Hc]; rewrite Hc, Hlog, Hmk, <- !app_assoc.
      - exists []. split; [constructor|]. rewrite app_nil_r. reflexivity.
      - exists [EvRemove tp]. split; [auto|]. reflexivity. }
    destruct Hlog3 as (rest & Hrest & Hlog3).
    destruct r3 as [[]|err]; cbn [snd]; rewrite (issued_app _ _ _ Hlog3);
      intros H; apply (Hin rest H Hrest).
Qed.

(** C8 (amended).  The temporary name is a function of the configuration,
    the digest and the extension alone: two invocations of [store] with the
    same payload and the same extension, from any two worlds, open the same
    temporary path, [file_path.with_suffix('.tmp')]. *)
Theorem store_temp_name_shared
    (self : ImageStorage.t) (input1 input2 : image_input) (extension : str)
    (wA wB : world) (p1 p2 : PurePosixPath) :
  getvalue input1 = getvalue input2 ->
  In (EvOpen p1) (issued wA (snd (ImageStorage.store self input1 extension wA))) ->
  In (EvOpen p2) (issued wB (snd (ImageStorage.store self input2 extension wB))) ->
  p1 = p2 /\
  with_suffix (ImageStorage._get_file_path self
                 (ImageStorage._compute_hash (getvalue input1)) extension)
              tmp_suffix = Ret p1.
Proof.
  intros Hsame H1 H2. apply store_opens in H1, H2.
  rewrite <- Hsame in H2. split; [congruence|exact H1].
Qed.

(** ** Round trip *)

(** A successful [store] followed at once by a [fetch] whose read is not
    hit by a fault returns the payload, provided the location was free or
    already held the payload when [store] was called. *)
Lemma store_then_fetch self input e w r w1 :
  let data := getvalue input in
  let file_path := ImageStorage._get_file_path self (ImageStorage._compute_hash data) e in
  fs w !! file_path = None \/ fs w !! file_path = Some (File data) ->
  ImageStorage.store self input e w = (Ret r, w1) ->
  unfaulted w1 = true ->
  ImageStorage.fetch self (StorageResult.hash r) e w1 =
  (Ret (Some data), advance w1 (EvRead file_path) (fs w1)).
Proof.
  intros data file_path Hpre Hstore Hu.
  assert (Hfp : fs w1 !! file_path = Some (File data) /\
                StorageResult.hash r = ImageStorage._compute_hash data).
  { destruct Hpre as [Hfree|Hdup].
    - destruct (store_fresh_ret _ _ _ _ _ _ Hfree Hstore) as (-> & Hfp & _).
      split; [exact Hfp|reflexivity].
    - rewrite store_duplicate in Hstore by (fold data; fold file_path; rewrite Hdup; eauto).
      injection Hstore as <- <-. split; [exact Hdup|reflexivity]. }
  destruct Hfp as [Hfp ->].
  unfold ImageStorage.fetch. rewrite bind_run.
  fold data. fold file_path.
  rewrite path_exists_present by (rewrite Hfp; eauto).
  cbn [negb]. rewrite bind_run, (read_file _ _ _ Hfp Hu). reflexivity.
Qed.

(** ** C10 *)

Lemma pyslice_nil {A} a b : pyslice (@nil A) a b = [].
Proof. unfold pyslice. destruct (_ <? _); [|reflexivity]. rewrite drop_nil. apply take_nil. Qed.

Lemma filter_is_name_empties l :
  Forall (fun x => x = []) l -> List.filter is_name l = [].
Proof.
  induction 1 as [|x l -> _ IH]; [reflexivity|]. simpl. exact IH.
Qed.

(** The file path of a digest without separator, when the leaf does not
    start with one: the root, the non-empty slices, the leaf components. *)
Lemma file_path_absent self h e :
  contains sep h = false -> startswith sep (h ++ e) = false ->
  ImageStorage._get_file_path self h e =
  PosixPath (p_root (ImageStorage.base_path self))
            (p_parts (ImageStorage.base_path self) ++
             List.filter is_name (ImageStorage.shard_parts self h) ++
             names_of (h ++ e)).
Proof.
  intros Hh Hleaf. unfold ImageStorage._get_file_path.
  rewrite truediv_relative by assumption.
  rewrite shard_path_absent by assumption. cbn [p_root p_parts].
  rewrite <- app_assoc. reflexivity.
Qed.

(** [fetch] raises out of its probe of a location the tree does not hold,
    or out of its read of an occupied location. *)
Lemma fetch_raise self h e w err w' :
  ImageStorage.fetch self h e w = (Raise err, w') ->
  (fs w !! ImageStorage._get_file_path self h e = None /\ w' = w /\
   exists errno, err = OSError errno /\
     probe_refused w (ImageStorage._get_file_path self h e) = Some errno) \/
  (is_Some (fs w !! ImageStorage._get_file_path self h e) /\
   w' = advance w (EvRead (ImageStorage._get_file_path self h e)) (fs w)).
Proof.
  unfold ImageStorage.fetch. rewrite bind_run.
  destruct (path_exists _ w) as [[[|]|e0] w0] eqn:Hp; cbn [negb];
    pose proof (path_exists_inv _ _ _ _ Hp) as (-> & Hyes & Hno & Herr).
  - rewrite bind_run.
    destruct (aio_read _ w) as [[c|e1] w1] eqn:Hr; [discriminate|].
    intros H. injection H as <- <-. right. split; [apply Hyes; reflexivity|].
    eapply read_raise, Hr.
  - discriminate.
  - intros H. injection H as <- <-. left. split; [apply Hno; discriminate|].
    split; [reflexivity|]. apply Herr. reflexivity.
Qed.

(** [delete] raises out of its probe of a location the tree does not
    hold, or out of its removal of an occupied location. *)
Lemma delete_raise self h e w err w' :
  ImageStorage.delete self h e w = (Raise err, w') ->
  (fs w !! ImageStorage._get_file_path self h e = None /\ w' = w /\
   exists errno, err = OSError errno /\
     probe_refused w (ImageStorage._get_file_path self h e) = Some errno) \/
  (is_Some (fs w !! ImageStorage._get_file_path self h e) /\
   w' = advance w (EvRemove (ImageStorage._get_file_path self h e)) (fs w)).
Proof.
  unfold ImageStorage.delete. rewrite bind_run.
  destruct (path_exists _ w) as [[[|]|e0] w0] eqn:Hp; cbn [negb];
    pose proof (path_exists_inv _ _ _ _ Hp) as (-> & Hyes & Hno & Herr).
  - rewrite bind_run.
    destruct (aio_remove _ w) as [[[]|e1] w1] eqn:Hr; [discriminate|].
    intros H. injection H as <- <-. right. split; [apply Hyes; reflexivity|].
    eapply remove_raise, Hr.
  - discriminate.
  - intros H. injection H as <- <-. left. split; [apply Hno; discriminate|].
    split; [reflexivity|]. apply Herr. reflexivity.
Qed.

(** No slice of a hexadecimal string, and no name made of one followed by
    a separator-free extension other than [".."] itself, is [".."]. *)
Lemma hex_str_not_dotdot s : hex_str s -> s <> dotdot.
Proof. intros Hs ->. discriminate Hs. Qed.

Lemma hex_levels_not_dotdot self h :
  hex_str h -> ~ In dotdot (ImageStorage.shard_parts self h).
Proof.
  intros Hh Hin. unfold ImageStorage.shard_parts in Hin.
  apply in_map_iff in Hin as (i & Hi & _).
  eapply hex_str_not_dotdot; [|exact Hi]. apply hex_str_pyslice, Hh.
Qed.

Lemma names_of_plain_not_dotdot s :
  contains sep s = false -> s <> dotdot -> ~ In dotdot (names_of s).
Proof.
  intros Hs Hne Hin. unfold names_of in Hin. rewrite split_on_absent in Hin by exact Hs.
  cbn [List.filter] in Hin. destruct (is_name s); [|destruct Hin].
  destruct Hin as [E|[]]. congruence.
Qed.

(** The empty digest maps to a location that no full-length digest uses. *)
Lemma empty_digest_location_unused self e h' :
  full_length_digest h' -> startswith sep e = false ->
  ImageStorage._get_file_path self [] e <> ImageStorage._get_file_path self h' e.
Proof.
  intros Hh He.
  rewrite (file_path_absent self [] e) by (reflexivity || exact He).
  rewrite (file_path_absent self h' e)
    by (apply digest_no_sep, Hh || apply digest_leaf_relative, Hh).
  rewrite (filter_is_name_empties (ImageStorage.shard_parts self [])).
  2:{ unfold ImageStorage.shard_parts. apply List.Forall_forall. intros s Hs.
      apply in_map_iff in Hs as (i & <- & _). apply pyslice_nil. }
  rewrite (digest_leaf h' e) by assumption. cbn [app].
  intros E. injection E as E. apply app_inv_head in E.
  set (F := List.filter is_name (ImageStorage.shard_parts self h')) in *.
  set (e0 := hd [] (split_on sep e)) in *.
  set (T := List.filter is_name (tl (split_on sep e))) in *.
  assert (Hn : names_of e = (if is_name e0 then [e0] else []) ++ T).
  { unfold names_of, e0, T. destruct (split_on sep e) as [|x l] eqn:Es.
    - exfalso. exact (split_on_nonnil _ _ Es).
    - simpl. destruct (is_name x); reflexivity. }
  rewrite Hn in E.
  change (F ++ (h' ++ e0) :: T) with (F ++ [h' ++ e0] ++ T) in E.
  rewrite app_assoc in E. apply app_inv_tail in E.
  destruct (is_name e0).
  - change [e0] with ([] ++ [e0]) in E. apply app_inj_tail in E as [_ E].
    apply (f_equal (@length ascii)) in E. rewrite length_app in E.
    destruct Hh as [Hlen _]. lia.
  - symmetry in E. apply app_eq_nil in E as [_ E]. discriminate.
Qed.


(** ** C2 *)

Lemma joinpath_empties p l : Forall (fun x => x = []) l -> joinpath p l = p.
Proof.
  intros H. rewrite joinpath_relative.
  - replace (concat (map names_of l)) with (@nil str).
    + rewrite app_nil_r. destruct p. reflexivity.
    + induction H as [|x l -> _ IH]; [reflexivity|]. simpl. exact IH.
  - eapply Forall_impl; [exact H|]. intros x ->. reflexivity.
Qed.

Lemma invalid_configuration_flat self h :
  spec_invalid_configuration (ImageStorage.shard_depth self)
                             (ImageStorage.shard_width self) ->
  ImageStorage._get_shard_path self h = ImageStorage.base_path self.
Proof.
  intros Hinv. unfold ImageStorage._get_shard_path. apply joinpath_empties.
  unfold ImageStorage.shard_parts. apply List.Forall_forall. intros s Hs.
  apply in_map_iff in Hs as (i & <- & Hi). apply in_range in Hi.
  destruct Hinv as [[-> _]|Hneg]; [|lia].
  cbv zeta. rewrite Z.mul_0_r, Z.add_0_r. apply pyslice_empty.
Qed.

(** C2 (amended).  The constructor accepts every configuration: it returns
    a store holding the root, depth and width it was given, also when the
    width is zero with a non-zero depth or when the depth is negative.
    Nothing fails later either: on such a store every digest is located
    directly under the root, with no shard level. *)
Theorem init_accepts_any_configuration (root : str) (d w : Z) :
  exists self,
    ImageStorage.__init__ root d w = Ret self /\
    ImageStorage.base_path self = Path root /\
    ImageStorage.shard_depth self = d /\
    ImageStorage.shard_width self = w /\
    (spec_invalid_configuration d w ->
     forall h e,
       ImageStorage._get_file_path self h e = truediv (Path root) (h ++ e)).
Proof.
  eexists. split; [reflexivity|]. cbn [ImageStorage.base_path
    ImageStorage.shard_depth ImageStorage.shard_width].
  repeat split. intros Hinv h e. unfold ImageStorage._get_file_path.
  rewrite invalid_configuration_flat by exact Hinv. reflexivity.
Qed.

(* ====================================================================== *)
(** * The claims on concrete inputs *)
(* ====================================================================== *)

(** With the extension [".jpg"] the temporary path is the [.tmp] sibling of
    the final path. *)
Example store_jpg_extension_temp :
  with_suffix hello_jpg tmp_suffix = Ret hello_tmp /\ hello_tmp <> hello_jpg.
Proof. split; [vm_compute; reflexivity|]. vm_compute. discriminate. Qed.

(** With the extension [".tmp"] the four system calls of a first write all
    name the final location: the payload is opened, written and renamed in
    place. *)
Example store_tmp_extension_writes_final :
  issued (fresh 0)
         (after (ImageStorage.store image_storage hello_in tmp_suffix) (fresh 0)) =
  [EvMakedirs hello_shard; EvOpen hello_tmp; EvWrite hello_tmp hello;
   EvRename hello_tmp hello_tmp].
Proof. vm_compute. reflexivity. Qed.

(** C2 (counterexample).  Width zero with depth two, and depth minus one,
    are both accepted by the constructor, and the stores they give locate
    and store objects. *)
Lemma init_invalid_configuration_accepted :
  spec_invalid_configuration 2 0 /\
  ImageStorage.__init__ ImageStorage.default_base_path 2 0 = Ret zero_width_storage /\
  ImageStorage.get_path zero_width_storage hello_hash jpg = hello_flat_location /\
  spec_invalid_configuration (-1) 2 /\
  ImageStorage.__init__ ImageStorage.default_base_path (-1) 2 =
  Ret negative_depth_storage /\
  fst (ImageStorage.store negative_depth_storage hello_in jpg (fresh 0)) =
  Ret {| StorageResult.hash := hello_hash;
         StorageResult.path := hello_flat_location;
         StorageResult.size := 5;
         StorageResult.is_duplicate := false;
         StorageResult.stored_at := 0 |}.
Proof.
  split; [left; split; [reflexivity|discriminate]|].
  split; [reflexivity|]. split; [vm_compute; reflexivity|].
  split; [right; reflexivity|]. split; [reflexivity|].
  vm_compute. reflexivity.
Qed.

(** C2 at width zero and depth two: the digest of [b"hello"] is located
    directly under the root. *)
Lemma init_accepts_any_configuration_witness :
  ImageStorage._get_file_path zero_width_storage hello_hash jpg =
  truediv (Path ImageStorage.default_base_path) (hello_hash ++ jpg).
Proof.
  destruct (init_accepts_any_configuration ImageStorage.default_base_path 2 0)
    as (self & Hinit & _ & _ & _ & Hflat).
  injection Hinit as <-. apply Hflat. left. split; [reflexivity|lia].
Defined.

(** C3 (counterexample).  The rename fails with errno 28 and the removal of
    the temporary file then fails with errno 13: [store] raises the error
    of the removal, and the temporary file is still there. *)
Lemma store_cleanup_failure_masks :
  fst (ImageStorage.store_write hello_tmp hello_jpg hello cleanup_fails_dirs) =
  Raise (OSError 28) /\
  fst (ImageStorage.store image_storage hello_in jpg cleanup_fails) =
  Raise (OSError 13) /\
  fs (after (ImageStorage.store image_storage hello_in jpg) cleanup_fails)
  !! hello_tmp = Some (File hello).
Proof. vm_compute. repeat split. Qed.

(** C3 at the default store and the payload [b"hello"]: once with a rename
    that fails and a removal that succeeds, once with a removal that fails
    too, and once with an open that fails with errno 28 on a temporary path
    whose look-up is refused with errno 13. *)
Lemma store_failure_cleanup_witness :
  (ImageStorage.store image_storage hello_in jpg rename_fails =
   (Raise (OSError 28), rename_fails_cleaned) /\
   fs rename_fails_cleaned !! hello_tmp = None /\
   fs rename_fails_cleaned !! hello_jpg = None) /\
  (ImageStorage.store image_storage hello_in jpg cleanup_fails =
   (Raise (OSError 13), cleanup_fails_end) /\
   is_Some (fs cleanup_fails_end !! hello_tmp)) /\
  (fst (ImageStorage.store_write hello_tmp hello_jpg (getvalue hello_in)
          temp_refused_dirs) = Raise (OSError 28) /\
   ImageStorage.store image_storage hello_in jpg temp_refused =
   (Raise (OSError 13), temp_refused_tried) /\
   fs temp_refused_tried !! hello_jpg = None).
Proof.
  split; [|split].
  - refine (proj1 (store_failure_cleanup image_storage hello_in jpg
                     rename_fails rename_fails_dirs rename_fails_tried
                     hello_tmp (OSError 28) _ _ _ _ _)
                  rename_fails_cleaned _).
    + vm_compute. reflexivity.
    + vm_compute. reflexivity.
    + refine (run_eq (aio_makedirs hello_shard) rename_fails (Ret tt) _).
      vm_compute. reflexivity.
    + vm_compute. reflexivity.
    + refine (run_eq (ImageStorage.store_write hello_tmp hello_jpg (getvalue hello_in))
                     rename_fails_dirs (Raise (OSError 28)) _).
      vm_compute. reflexivity.
    + right. split; [vm_compute; eauto|].
      refine (run_eq (aio_remove hello_tmp) rename_fails_tried (Ret tt) _).
      vm_compute. reflexivity.
  - refine (proj1 (proj2 (store_failure_cleanup image_storage hello_in jpg
                     cleanup_fails cleanup_fails_dirs cleanup_fails_tried
                     hello_tmp (OSError 28) _ _ _ _ _))
                  (OSError 13) cleanup_fails_end _ _).
    + vm_compute. reflexivity.
    + vm_compute. reflexivity.
    + refine (run_eq (aio_makedirs hello_shard) cleanup_fails (Ret tt) _).
      vm_compute. reflexivity.
    + vm_compute. reflexivity.
    + refine (run_eq (ImageStorage.store_write hello_tmp hello_jpg (getvalue hello_in))
                     cleanup_fails_dirs (Raise (OSError 28)) _).
      vm_compute. reflexivity.
    + vm_compute. eauto.
    + refine (run_eq (aio_remove hello_tmp) cleanup_fails_tried
                     (Raise (OSError 13)) _).
      vm_compute. reflexivity.
  - split; [vm_compute; reflexivity|].
    refine (proj2 (proj2 (store_failure_cleanup image_storage hello_in jpg
                     temp_refused temp_refused_dirs temp_refused_tried
                     hello_tmp (OSError 28) _ _ _ _ _))
                  13 _ _).
    + vm_compute. reflexivity.
    + vm_compute. reflexivity.
    + refine (run_eq (aio_makedirs hello_shard) temp_refused (Ret tt) _).
      vm_compute. reflexivity.
    + vm_compute. reflexivity.
    + refine (run_eq (ImageStorage.store_write hello_tmp hello_jpg (getvalue hello_in))
                     temp_refused_dirs (Raise (OSError 28)) _).
      vm_compute. reflexivity.
    + vm_compute. reflexivity.
    + vm_compute. reflexivity.
Defined.




(** C6 (code defect).  Two runs in which a successful [store] is followed,
    without any [delete], by a [fetch] that does not return the payload.
    (1) [b"hello"] is stored under [".tmp"] and then under [".jpg"]: the
    second call uses the first object as its temporary file and renames it
    away, and the fetch of the [".tmp"] object finds nothing.  (2) A store
    under [".jpg"] fails in its write and in its cleanup and leaves two
    bytes behind at the temporary path; a store under [".tmp"] then takes
    that file for a duplicate and succeeds, and the fetch returns the two
    bytes. *)
Theorem roundtrip_broken_by_tmp_extension :
  (fst (ImageStorage.store image_storage hello_in tmp_suffix (fresh 0)) =
   Ret {| StorageResult.hash := hello_hash;
          StorageResult.path := hello_tmp_location;
          StorageResult.size := 5;
          StorageResult.is_duplicate := false;
          StorageResult.stored_at := 0 |} /\
   fst (ImageStorage.store image_storage hello_in jpg
          (after (ImageStorage.store image_storage hello_in tmp_suffix) (fresh 0))) =
   Ret first_result /\
   fst (ImageStorage.fetch image_storage hello_hash tmp_suffix
          (after (ImageStorage.store image_storage hello_in jpg)
             (after (ImageStorage.store image_storage hello_in tmp_suffix) (fresh 0)))) =
   Ret None) /\
  (fst (ImageStorage.store image_storage hello_in jpg write_and_cleanup_fail) =
   Raise (OSError 13) /\
   fst (ImageStorage.store image_storage hello_in tmp_suffix
          (after (ImageStorage.store image_storage hello_in jpg)
                 write_and_cleanup_fail)) =
   Ret {| StorageResult.hash := hello_hash;
          StorageResult.path := hello_tmp_location;
          StorageResult.size := 5;
          StorageResult.is_duplicate := true;
          StorageResult.stored_at := 0 |} /\
   fst (ImageStorage.fetch image_storage hello_hash tmp_suffix
          (after (ImageStorage.store image_storage hello_in tmp_suffix)
             (after (ImageStorage.store image_storage hello_in jpg)
                    write_and_cleanup_fail))) =
   Ret (Some (blit "he"))).
Proof. vm_compute. repeat split. Qed.

(** C7 (counterexample).  Two locations that hold no object and whose
    look-up is refused: the digest of 300 characters gives a file name
    longer than [NAME_MAX] in a shard directory that exists, and the
    location of [hello_hash] lies in a directory that cannot be searched.
    [fetch], [exists] and [delete] raise. *)
Lemma absent_location_raises :
  fs shard_in_place !! long_digest_jpg = None /\
  fst (ImageStorage.fetch image_storage long_digest jpg shard_in_place)
  = Raise (OSError ENAMETOOLONG) /\
  fst (ImageStorage.exists_ image_storage long_digest jpg shard_in_place)
  = Raise (OSError ENAMETOOLONG) /\
  fst (ImageStorage.delete image_storage long_digest jpg shard_in_place)
  = Raise (OSError ENAMETOOLONG) /\
  fs shard_unsearchable !! hello_hash_jpg = None /\
  fst (ImageStorage.fetch image_storage hello_hash jpg shard_unsearchable)
  = Raise (OSError 13) /\
  fst (ImageStorage.exists_ image_storage hello_hash jpg shard_unsearchable)
  = Raise (OSError 13) /\
  fst (ImageStorage.delete image_storage hello_hash jpg shard_unsearchable)
  = Raise (OSError 13).
Proof. vm_compute. repeat split. Qed.

(** C7 at the default store: on an empty filesystem, and on the digest of
    300 characters. *)
Lemma absent_is_not_an_error_witness :
  (ImageStorage.fetch image_storage hello_hash jpg (fresh 0) = (Ret None, fresh 0) /\
   ImageStorage.exists_ image_storage hello_hash jpg (fresh 0) = (Ret false, fresh 0) /\
   ImageStorage.delete image_storage hello_hash jpg (fresh 0) = (Ret false, fresh 0)) /\
  (ImageStorage.fetch image_storage long_digest jpg shard_in_place
   = (Raise (OSError ENAMETOOLONG), shard_in_place) /\
   ImageStorage.exists_ image_storage long_digest jpg shard_in_place
   = (Raise (OSError ENAMETOOLONG), shard_in_place) /\
   ImageStorage.delete image_storage long_digest jpg shard_in_place
   = (Raise (OSError ENAMETOOLONG), shard_in_place)).
Proof.
  split.
  - refine (proj1 (absent_is_not_an_error image_storage hello_hash jpg (fresh 0) _) _).
    + vm_compute. reflexivity.
    + vm_compute. reflexivity.
  - refine (proj2 (absent_is_not_an_error image_storage long_digest jpg
                     shard_in_place _) ENAMETOOLONG _).
    + vm_compute. reflexivity.
    + vm_compute. reflexivity.
Defined.

(** C8 (counterexample).  A first invocation whose rename fails and a
    second invocation that succeeds, for the same payload and extension:
    both open the same temporary path. *)
Lemma store_temp_name_repeats :
  issued rename_fails
         (after (ImageStorage.store image_storage hello_in jpg) rename_fails) =
  [EvMakedirs hello_shard; EvOpen hello_tmp; EvWrite hello_tmp hello;
   EvRename hello_tmp hello_jpg; EvRemove hello_tmp] /\
  issued rename_fails_cleaned
         (after (ImageStorage.store image_storage hello_in jpg) rename_fails_cleaned) =
  [EvMakedirs hello_shard; EvOpen hello_tmp; EvWrite hello_tmp hello;
   EvRename hello_tmp hello_jpg].
Proof. vm_compute. split; reflexivity. Qed.

(** C8 at the two invocations above. *)
Lemma store_temp_name_shared_witness :
  hello_tmp = hello_tmp /\ with_suffix hello_jpg tmp_suffix = Ret hello_tmp.
Proof.
  apply (store_temp_name_shared image_storage hello_in hello_in jpg
           rename_fails rename_fails_cleaned hello_tmp hello_tmp eq_refl).
  - vm_compute. right. left. reflexivity.
  - vm_compute. right. left. reflexivity.
Defined.

(** C9 at the first write of [b"hello"] into an empty filesystem. *)
Lemma store_result_hash_and_path_witness :
  StorageResult.hash first_result = SHA256.hexdigest (getvalue hello_in) /\
  StorageResult.hash first_result = hello_digest /\
  StorageResult.path first_result =
  ImageStorage.get_path image_storage (StorageResult.hash first_result) jpg.
Proof.
  apply (store_result_hash_and_path image_storage hello_in jpg (fresh 0) stored
           first_result).
  refine (run_eq (ImageStorage.store image_storage hello_in jpg) (fresh 0)
                 (Ret first_result) _).
  vm_compute. reflexivity.
Defined.


(** The digest ["...."] has no ['/'], and its two slices are [".."]: the
    location is written below the root and lies two directories above
    it. *)
Lemma dotted_digest_escapes_root :
  contains sep dotted_digest = false /\
  ImageStorage.get_path image_storage dotted_digest jpg =
  lit "/mnt/raid1/sai-images/../../.....jpg" /\
  ~ under_root (ImageStorage.base_path image_storage)
               (ImageStorage._get_file_path image_storage dotted_digest jpg).
Proof.
  split; [reflexivity|]. split; [vm_compute; reflexivity|].
  intros [_ [rest [H Hno]]]. vm_compute in H. injection H as <-.
  apply Hno. left. reflexivity.
Qed.

(** Under two different extensions the empty digest and a full-length
    digest can share a location. *)
Lemma empty_digest_collides_across_extensions :
  ImageStorage._get_file_path image_storage [] nested_extension = hello_hash_jpg.
Proof. vm_compute. reflexivity. Qed.


(* ====================================================================== *)
(** * Further properties of the store *)
(* ====================================================================== *)

(** The filesystem a successful [try] block leaves behind. *)
Lemma store_write_ret_fs tp fp data w1 w2 :
  ImageStorage.store_write tp fp data w1 = (Ret tt, w2) ->
  fs w2 = <[fp := File data]>
            (base.delete tp (<[tp := File data]> (<[tp := File []]> (fs w1)))).
Proof.
  unfold ImageStorage.store_write. rewrite !bind_run.
  destruct (aio_open_wb tp w1) as [[[]|e] wa] eqn:Ha; [|discriminate].
  rewrite bind_run.
  destruct (aio_write tp data wa) as [[[]|e] wb] eqn:Hb; [|discriminate].
  intros Hc.
  apply open_wb_ret in Ha. apply write_ret in Hb.
  apply rename_ret in Hc as (n & Hn & ->). subst wb wa.
  cbn [fs advance] in *.
  rewrite lookup_insert_eq in Hn. injection Hn as <-. reflexivity.
Qed.

(** The handler leaves the filesystem as it is or removes the temporary
    path. *)
Lemma store_cleanup_fs tp e0 w2 r w3 :
  ImageStorage.store_cleanup tp e0 w2 = (r, w3) ->
  (exists err, r = Raise err) /\
  (fs w3 = fs w2 \/ fs w3 = base.delete tp (fs w2)).
Proof.
  destruct (fs w2 !! tp) as [n|] eqn:E.
  - rewrite store_cleanup_present by (rewrite E; eauto).
    destruct (aio_remove tp w2) as [[[]|e1] w3'] eqn:Hr; intros H;
      injection H as <- <-.
    + apply remove_ret in Hr as ->. split; [eauto|right; reflexivity].
    + apply remove_raise in Hr as ->. split; [eauto|left; reflexivity].
  - rewrite store_cleanup_absent by assumption.
    destruct (probe_refused w2 tp); intros H; injection H as <- <-;
      (split; [eauto|left; reflexivity]).
Qed.

(** [store] changes nothing but the shard directories, the temporary path
    and the final location. *)
Lemma store_frame self input e w q :
  q <> ImageStorage._get_file_path self
         (ImageStorage._compute_hash (getvalue input)) e ->
  with_suffix (ImageStorage._get_file_path self
                 (ImageStorage._compute_hash (getvalue input)) e) tmp_suffix
  <> Ret q ->
  ~ In q (ancestors (ImageStorage._get_shard_path self
                       (ImageStorage._compute_hash (getvalue input)))) ->
  fs (snd (ImageStorage.store self input e w)) !! q = fs w !! q.
Proof.
  intros Hfp Htp Hanc.
  destruct (fs w !! ImageStorage._get_file_path self
              (ImageStorage._compute_hash (getvalue input)) e) as [n|] eqn:E.
  { rewrite store_duplicate by (rewrite E; eauto). reflexivity. }
  rewrite store_fresh by exact E. cbv zeta.
  destruct (probe_refused w _); [reflexivity|].
  destruct (aio_makedirs _ w) as [[[]|?] w1] eqn:Hmk.
  2:{ cbn [snd]. eapply makedirs_frame; [exact Hmk|exact Hanc]. }
  assert (H1 : fs w1 !! q = fs w !! q)
    by (eapply makedirs_frame; [exact Hmk|exact Hanc]).
  destruct (with_suffix _ _) as [tp|?] eqn:Hsfx; [|exact H1].
  assert (Hq : q <> tp) by congruence.
  unfold try_except.
  destruct (ImageStorage.store_write tp _ _ w1) as [[[]|e0] w2] eqn:Hbody.
  - cbn [snd]. rewrite (store_write_ret_fs _ _ _ _ _ Hbody).
    rewrite lookup_insert_ne, lookup_delete_ne, !lookup_insert_ne by congruence.
    exact H1.
  - apply store_write_raise in Hbody as (Hother & _ & _).
    destruct (ImageStorage.store_cleanup tp e0 w2) as [r3 w3] eqn:Hc.
    apply store_cleanup_fs in Hc as [[err ->] Hfs]. cbn [snd].
    destruct Hfs as [-> | ->]; rewrite ?lookup_delete_ne by congruence;
      rewrite Hother by exact Hq; exact H1.
Qed.

(** X1.  Atomicity of a first write whose temporary path differs from the
    final path: whatever fails and wherever -- directory creation, open,
    write, rename, also a failing cleanup -- [store] either returns, and
    then the final location holds the whole payload and the temporary path
    is gone, or raises, and then the final location still does not exist. *)
Theorem store_all_or_nothing
    (self : ImageStorage.t) (input : image_input) (extension : str)
    (w : world) (temp_path : PurePosixPath) :
  let data := getvalue input in
  let file_path :=
    ImageStorage._get_file_path self (ImageStorage._compute_hash data) extension in
  fs w !! file_path = None ->
  with_suffix file_path tmp_suffix = Ret temp_path ->
  temp_path <> file_path ->
  (forall r w', ImageStorage.store self input extension w = (Ret r, w') ->
                fs w' !! file_path = Some (File data) /\
                fs w' !! temp_path = None) /\
  (forall err w', ImageStorage.store self input extension w = (Raise err, w') ->
                  fs w' !! file_path = None).
Proof.
  intros data file_path Hfree Hsfx Hne. split.
  - intros r w' Hstore. split.
    + apply (store_fresh_ret _ _ _ _ _ _ Hfree Hstore).
    + revert Hstore. rewrite store_fresh by exact Hfree. cbv zeta.
      fold data. fold file_path. rewrite Hsfx.
      destruct (probe_refused w file_path); [discriminate|].
      destruct (aio_makedirs _ w) as [[[]|?] w1]; [|discriminate].
      unfold try_except.
      destruct (ImageStorage.store_write temp_path _ _ w1) as [[[]|e0] w2] eqn:Hbody.
      * intros H. injection H as _ <-.
        rewrite (store_write_ret_fs _ _ _ _ _ Hbody).
        rewrite lookup_insert_ne by congruence. apply lookup_delete_eq.
      * destruct (ImageStorage.store_cleanup temp_path e0 w2) as [r3 w3] eqn:Hc.
        apply store_cleanup_fs in Hc as [[err ->] _]. discriminate.
  - intros err w' Hstore.
    destruct (fs w' !! file_path) as [n|] eqn:Hfp; [|reflexivity]. exfalso.
    revert Hstore. rewrite store_fresh by exact Hfree. cbv zeta.
    fold data. fold file_path. rewrite Hsfx.
    destruct (probe_refused w file_path);
      [intros H; injection H as _ <-; congruence|].
    destruct (aio_makedirs _ w) as [[[]|?] w1] eqn:Hmk;
      pose proof (makedirs_keeps_file_path self data extension w _ w1 Hmk) as H1;
      fold file_path in H1; rewrite Hfree in H1.
    2:{ intros H. injection H as _ <-. congruence. }
    unfold try_except.
    destruct (ImageStorage.store_write temp_path _ _ w1) as [[[]|e0] w2] eqn:Hbody;
      [discriminate|].
    apply store_write_raise in Hbody as (Hother & _ & _).
    destruct (ImageStorage.store_cleanup temp_path e0 w2) as [r3 w3] eqn:Hc.
    apply store_cleanup_fs in Hc as [[err3 ->] Hfs].
    intros H. injection H as _ <-.
    destruct Hfs as [Hfs|Hfs]; rewrite Hfs in Hfp;
      rewrite ?lookup_delete_ne in Hfp by congruence;
      rewrite Hother in Hfp by congruence; congruence.
Qed.

(** X1 at the default store: a write that stops after two bytes and whose
    cleanup fails leaves the final location of [b"hello"] absent. *)
Lemma store_all_or_nothing_witness :
  fs (after (ImageStorage.store image_storage hello_in jpg) write_and_cleanup_fail)
  !! hello_jpg = None.
Proof.
  refine (proj2 (store_all_or_nothing image_storage hello_in jpg
                   write_and_cleanup_fail hello_tmp _ _ _)
                (OSError 13) _ _).
  - vm_compute. reflexivity.
  - vm_compute. reflexivity.
  - vm_compute. discriminate.
  - refine (run_eq (ImageStorage.store image_storage hello_in jpg)
                   write_and_cleanup_fail (Raise (OSError 13)) _).
    vm_compute. reflexivity.
Defined.

Lemma rfind_from_range c s i :
  rfind_from c s i = -1 \/ i <= rfind_from c s i.
Proof.
  revert i. induction s as [|x s IH]; intros i; simpl; [left; reflexivity|].
  destruct (IH (i + 1)) as [H|H].
  - rewrite H. simpl. destruct (Ascii.eqb x c); [right; lia|left; reflexivity].
  - destruct (0 <=? rfind_from c s (i + 1)); [right; lia|].
    destruct (Ascii.eqb x c); [right; lia|left; reflexivity].
Qed.

(** A prefix without the character does not hold its last occurrence. *)
Lemma rfind_from_skip c a b i :
  0 <= i -> contains c a = false ->
  rfind_from c (a ++ b) i = rfind_from c b (i + len a).
Proof.
  revert i. induction a as [|x a IH]; intros i Hi Ha.
  - unfold len. simpl. f_equal. lia.
  - simpl in Ha. apply orb_false_iff in Ha as [Hx Ha].
    cbn [app rfind_from]. rewrite IH by (lia || assumption).
    replace (i + 1 + len a) with (i + len (x :: a)) by (unfold len; cbn [length]; lia).
    destruct (rfind_from_range c b (i + len (x :: a))) as [H|H].
    + rewrite H. simpl. rewrite ascii_eqb_sym, Hx. reflexivity.
    + destruct (0 <=? _) eqn:E; [reflexivity|]. apply Z.leb_gt in E.
      unfold len in *. lia.
Qed.

(** [with_suffix('.tmp')] on a path: it replaces the last component, and a
    dot-free stem at the head of the name stays at the head of the new
    name. *)
Lemma with_suffix_tmp_parts p q :
  with_suffix p tmp_suffix = Ret q ->
  p_parts p <> [] /\ p_root q = p_root p /\
  exists nm', p_parts q = removelast (p_parts p) ++ [nm'] /\
    forall h t, name p = h ++ t -> contains dot h = false ->
                exists s, nm' = h ++ s.
Proof.
  unfold with_suffix.
  change (contains sep tmp_suffix) with false.
  change (str_eqb tmp_suffix []) with false.
  change (startswith dot tmp_suffix) with true.
  change (str_eqb tmp_suffix [dot]) with false.
  cbn [negb andb orb].
  destruct (str_eqb (name p) []) eqn:Hname; [discriminate|].
  apply str_eqb_neq in Hname.
  intros H. injection H as <-. cbn [p_root p_parts].
  split; [intros E; apply Hname; unfold name; rewrite E; reflexivity|].
  split; [reflexivity|]. eexists. split; [reflexivity|].
  intros h t Hnm Hdot.
  destruct (str_eqb (suffix p) []) eqn:Hs.
  - exists (t ++ tmp_suffix). rewrite Hnm, app_assoc. reflexivity.
  - apply str_eqb_neq in Hs. revert Hs. unfold suffix. rewrite Hnm.
    unfold rfind. rewrite rfind_from_skip by (lia || assumption).
    set (i := rfind_from dot t (0 + len h)).
    destruct ((0 <? i) && (i <? len (h ++ t) - 1)) eqn:E; [|congruence].
    intros _. apply andb_true_iff in E as [E1 E2].
    apply Z.ltb_lt in E1, E2.
    assert (Hi : len h <= i).
    { destruct (rfind_from_range dot t (0 + len h)) as [H|H]; fold i in H; lia. }
    set (nm := h ++ t) in *.
    assert (Hlen : len (take (Z.to_nat i) nm) = i).
    { unfold len in *. rewrite length_take. lia. }
    assert (Hb : drop (Z.to_nat i) nm <> []).
    { intros Hnil. apply (f_equal (@length ascii)) in Hnil.
      rewrite length_drop in Hnil. unfold len in *. simpl in Hnil. lia. }
    pose proof (pyslice_tail (take (Z.to_nat i) nm) (drop (Z.to_nat i) nm) Hb) as Ht.
    rewrite take_drop, Hlen in Ht. rewrite Ht.
    pose proof (pyslice_init (take (Z.to_nat i) nm) (drop (Z.to_nat i) nm) Hb) as Hi'.
    rewrite take_drop in Hi'. rewrite Hi'.
    exists (take (Z.to_nat i - length h) t ++ tmp_suffix).
    unfold nm. rewrite take_app, app_assoc. f_equal. f_equal.
    apply take_ge. unfold len in Hi. lia.
Qed.

Lemma last_names_nonempty (a : str) (T : list str) :
  a <> [] -> Forall name_ok T -> List.last (a :: T) [] <> [].
Proof.
  revert a. induction T as [|b T IH]; intros a Ha HT; [exact Ha|].
  inversion HT as [|? ? Hb HT']; subst.
  change (List.last (a :: b :: T) []) with (List.last (b :: T) []).
  apply IH; [apply Hb|assumption].
Qed.

Lemma length_removelast_snoc {A} (l : list A) (x : A) :
  l <> [] -> length (removelast l ++ [x]) = length l.
Proof.
  intros Hl. rewrite removelast_firstn_len, length_app, length_take.
  cbn [length]. destruct l; [congruence|]. cbn [length]. lia.
Qed.

(** The temporary path of a full-length digest always exists as a value
    ([with_suffix] does not raise), keeps the shard directory and a
    component that starts with the digest. *)
Lemma temp_path_digest self h e :
  full_length_digest h ->
  exists tp s rest,
    with_suffix (ImageStorage._get_file_path self h e) tmp_suffix = Ret tp /\
    p_root tp = p_root (ImageStorage._get_shard_path self h) /\
    p_parts tp =
    p_parts (ImageStorage._get_shard_path self h) ++ (h ++ s) :: rest /\
    length (p_parts tp) =
    length (p_parts (ImageStorage._get_file_path self h e)).
Proof.
  intros Hh. rewrite file_path_digest by assumption.
  set (pX := p_parts (ImageStorage._get_shard_path self h)).
  set (a := h ++ hd [] (split_on sep e)).
  set (T := List.filter is_name (tl (split_on sep e))).
  set (fp := PosixPath _ _).
  assert (HT : Forall name_ok T).
  { pose proof (names_of_ok (h ++ e)) as Hall.
    rewrite digest_leaf in Hall by assumption.
    inversion Hall. assumption. }
  assert (Ha : a <> []).
  { unfold a. pose proof (digest_nonempty h Hh). destruct h; [congruence|discriminate]. }
  assert (Hname : name fp = List.last (a :: T) []).
  { unfold name, fp. cbn [p_parts]. clearbody a T pX.
    induction pX as [|x pX IH]; [reflexivity|].
    cbn [app]. destruct (pX ++ a :: T) eqn:E; [|exact IH].
    destruct pX; discriminate. }
  destruct (with_suffix fp tmp_suffix) as [tp|err] eqn:Hsfx.
  2:{ exfalso. revert Hsfx. unfold with_suffix.
      change (contains sep tmp_suffix) with false.
      change (str_eqb tmp_suffix []) with false.
      change (startswith dot tmp_suffix) with true.
      change (str_eqb tmp_suffix [dot]) with false.
      cbn [negb andb orb].
      destruct (str_eqb (name fp) []) eqn:Hn; [|discriminate].
      apply str_eqb_eq in Hn. rewrite Hname in Hn.
      exfalso. exact (last_names_nonempty a T Ha HT Hn). }
  destruct (with_suffix_tmp_parts fp tp Hsfx) as (Hne & Hroot & nm' & Hparts & Hstem).
  assert (Hlen : length (p_parts tp) = length (p_parts fp)).
  { rewrite Hparts. apply length_removelast_snoc. exact Hne. }
  unfold fp in Hparts, Hroot. cbn [p_parts p_root] in Hparts, Hroot.
  destruct T as [|b T'] eqn:ET.
  - destruct (Hstem h (hd [] (split_on sep e))) as [s Hs].
    { rewrite Hname. reflexivity. }
    { apply digest_no_dot, Hh. }
    exists tp, s, []. split; [reflexivity|]. split; [exact Hroot|].
    split; [|exact Hlen].
    rewrite Hparts, removelast_last, Hs. reflexivity.
  - exists tp, (hd [] (split_on sep e)), (removelast (b :: T') ++ [nm']).
    split; [reflexivity|]. split; [exact Hroot|]. split; [|exact Hlen].
    rewrite Hparts.
    assert (Hrl : removelast (pX ++ a :: b :: T') = pX ++ a :: removelast (b :: T')).
    { rewrite removelast_app by discriminate. reflexivity. }
    rewrite Hrl, <- app_assoc. reflexivity.
Qed.

(** X2.  For every payload and every extension [store] finds a temporary
    path: [with_suffix] does not raise.  The temporary path is a sibling of
    the final path (same directory), and it is the final path itself
    exactly when the suffix of the final name already is [.tmp]. *)
Theorem store_temp_is_sibling
    (self : ImageStorage.t) (data : bytes) (extension : str) :
  exists temp_path,
    with_suffix (ImageStorage._get_file_path self (ImageStorage._compute_hash data)
                                            extension) tmp_suffix
    = Ret temp_path /\
    parent temp_path =
    parent (ImageStorage._get_file_path self (ImageStorage._compute_hash data)
                                        extension) /\
    (temp_path =
     ImageStorage._get_file_path self (ImageStorage._compute_hash data) extension
     <-> suffix (ImageStorage._get_file_path self (ImageStorage._compute_hash data)
                                             extension) = tmp_suffix).
Proof.
  destruct (temp_path_digest self (ImageStorage._compute_hash data) extension
              (compute_hash_full_length data)) as (tp & s & rest & Hsfx & _).
  exists tp. split; [exact Hsfx|]. split.
  - destruct (with_suffix_tmp_parts _ _ Hsfx) as (_ & Hroot & nm' & Hparts & _).
    unfold parent. rewrite Hroot, Hparts, removelast_last. reflexivity.
  - apply with_suffix_tmp_fixed. exact Hsfx.
Qed.

(** Two strings of the same length have slices of the same length. *)
Lemma pyslice_length_same {A} (s1 s2 : list A) a b :
  length s1 = length s2 -> length (pyslice s1 a b) = length (pyslice s2 a b).
Proof.
  intros H. unfold pyslice, len. rewrite H.
  destruct (_ <? _); [|reflexivity].
  rewrite !length_take, !length_drop, H. reflexivity.
Qed.

(** Full-length digests have the same number of shard levels. *)
Lemma levels_length_digest self h1 h2 :
  full_length_digest h1 -> full_length_digest h2 ->
  length (List.filter is_name (ImageStorage.shard_parts self h1)) =
  length (List.filter is_name (ImageStorage.shard_parts self h2)).
Proof.
  intros H1 H2. unfold ImageStorage.shard_parts.
  induction (range (ImageStorage.shard_depth self)) as [|i l IH]; [reflexivity|].
  cbn [map List.filter]. cbv zeta.
  rewrite !hex_str_is_name by (apply hex_str_pyslice, digest_hex; assumption).
  rewrite (pyslice_length_same h1 h2)
    by (destruct H1 as [-> _], H2 as [-> _]; reflexivity).
  destruct (negb _); cbn [length]; rewrite IH; reflexivity.
Qed.

Lemma shard_path_length_digest self h1 h2 :
  full_length_digest h1 -> full_length_digest h2 ->
  length (p_parts (ImageStorage._get_shard_path self h1)) =
  length (p_parts (ImageStorage._get_shard_path self h2)).
Proof.
  intros H1 H2. rewrite !shard_path_absent by (apply digest_no_sep; assumption).
  cbn [p_parts]. rewrite !length_app, (levels_length_digest self h1 h2); auto.
Qed.

(** Two paths that carry a digest right after the shard directory are
    different when the digests are. *)
Lemma digest_component_inj (l1 l2 : list str) (h1 h2 s1 s2 : str) r1 r2 :
  length l1 = length l2 -> length h1 = length h2 ->
  l1 ++ (h1 ++ s1) :: r1 = l2 ++ (h2 ++ s2) :: r2 -> h1 = h2.
Proof.
  intros Hl Hh E. apply app_inj_1 in E as [_ E]; [|exact Hl].
  injection E as E _. apply app_inj_1 in E as [E _]; [exact E|exact Hh].
Qed.

(** The final location of another digest is not a path that [store]
    touches for this digest. *)
Lemma other_digest_untouched self h1 e1 h2 e2 :
  full_length_digest h1 -> full_length_digest h2 -> h2 <> h1 ->
  ImageStorage._get_file_path self h2 e2 <> ImageStorage._get_file_path self h1 e1 /\
  with_suffix (ImageStorage._get_file_path self h1 e1) tmp_suffix
  <> Ret (ImageStorage._get_file_path self h2 e2) /\
  ~ In (ImageStorage._get_file_path self h2 e2)
       (ancestors (ImageStorage._get_shard_path self h1)).
Proof.
  intros H1 H2 Hne.
  pose proof (shard_path_length_digest self h2 h1 H2 H1) as Hlen.
  assert (Hh : length h2 = length h1)
    by (destruct H1 as [-> _], H2 as [-> _]; reflexivity).
  split; [|split].
  - rewrite (file_path_digest self h2 e2), (file_path_digest self h1 e1)
      by assumption.
    intros E. injection E as _ E. apply Hne.
    exact (digest_component_inj _ _ _ _ _ _ _ _ Hlen Hh E).
  - destruct (temp_path_digest self h1 e1 H1) as (tp & s & rest & Hsfx & _ & Hparts & _).
    rewrite Hsfx. intros E. injection E as ->.
    rewrite (file_path_digest self h2 e2) in Hparts by assumption.
    cbn [p_parts] in Hparts. apply Hne.
    exact (digest_component_inj _ _ _ _ _ _ _ _ Hlen Hh Hparts).
  - apply longer_not_ancestor.
    rewrite (file_path_digest self h2 e2) by assumption. cbn [p_parts].
    rewrite length_app. cbn [length]. lia.
Qed.

(** X3.  Objects of other digests are out of reach: whatever the outcome
    of [store] for a payload, and of [delete] for a full-length digest, the
    final location of every other full-length digest, under any extension,
    is left exactly as it was. *)
Theorem other_digests_are_untouched
    (self : ImageStorage.t) (h2 e2 : str) (w : world) :
  full_length_digest h2 ->
  (forall input extension,
      h2 <> ImageStorage._compute_hash (getvalue input) ->
      fs (snd (ImageStorage.store self input extension w))
      !! ImageStorage._get_file_path self h2 e2 =
      fs w !! ImageStorage._get_file_path self h2 e2) /\
  (forall h1 extension,
      full_length_digest h1 -> h2 <> h1 ->
      fs (snd (ImageStorage.delete self h1 extension w))
      !! ImageStorage._get_file_path self h2 e2 =
      fs w !! ImageStorage._get_file_path self h2 e2).
Proof.
  intros H2. split.
  - intros input extension Hne.
    destruct (other_digest_untouched self
                (ImageStorage._compute_hash (getvalue input)) extension h2 e2
                (compute_hash_full_length _) H2 Hne) as (Hfp & Htp & Hanc).
    apply store_frame; assumption.
  - intros h1 extension H1 Hne.
    destruct (other_digest_untouched self h1 extension h2 e2 H1 H2 Hne)
      as (Hfp & _ & _).
    unfold ImageStorage.delete. rewrite bind_run.
    destruct (path_exists _ w) as [[[|]|e0] w0] eqn:Hp; cbn [negb];
      apply path_exists_inv in Hp as (-> & _); [|reflexivity..].
    rewrite bind_run.
    destruct (aio_remove _ w) as [[[]|err] w1] eqn:Hr; cbn [snd].
    + apply remove_ret in Hr as ->. cbn [fs advance].
      apply lookup_delete_ne. congruence.
    + apply remove_raise in Hr as ->. reflexivity.
Qed.

(** X4.  A location string names its digest and its extension: on a
    constructed store, two full-length digests under two separator-free
    extensions have the same location only if the digests are equal and
    the extensions are equal. *)
Theorem location_names_digest_and_extension
    (root : str) (d w : Z) (self : ImageStorage.t) (h1 h2 e1 e2 : str) :
  ImageStorage.__init__ root d w = Ret self ->
  full_length_digest h1 -> full_length_digest h2 ->
  contains sep e1 = false -> contains sep e2 = false ->
  ImageStorage.get_path self h1 e1 = ImageStorage.get_path self h2 e2 ->
  h1 = h2 /\ e1 = e2.
Proof.
  intros Hinit H1 H2 He1 He2 E.
  apply path_str_inj in E; [|eapply file_path_wf, Hinit..].
  rewrite (file_path_digest self h1 e1), (file_path_digest self h2 e2) in E
    by assumption.
  rewrite !split_on_absent in E by assumption. cbn [hd tl List.filter] in E.
  injection E as _ E.
  apply app_inj_1 in E as [_ E];
    [|apply shard_path_length_digest; assumption].
  injection E as E.
  apply app_inj_1 in E; [exact E|].
  destruct H1 as [-> _], H2 as [-> _]. reflexivity.
Qed.

(** Parsing the rendering of a well-formed path gives the path back. *)
Lemma Path_path_str p : wf_path p -> Path (path_str p) = p.
Proof.
  intros Hwf. pose proof Hwf as [Hr Hn]. destruct p as [rt parts].
  cbn [p_root p_parts] in *.
  assert (Hnames : names_of (join_with sep parts) = parts).
  { unfold names_of. destruct parts as [|x l]; [reflexivity|].
    rewrite split_on_join;
      [|discriminate|eapply Forall_impl; [exact Hn|]; intros ? (_ & _ & ?); assumption].
    apply filter_is_name_ok. exact Hn. }
  assert (Hrel : startswith sep (join_with sep parts) = false).
  { destruct parts as [|x l]; [reflexivity|].
    apply (join_with_head sep (x :: l)); [apply name_ok_piece, Hn|discriminate]. }
  pose proof (lstrip_body (PosixPath rt parts) Hwf) as Hstrip.
  cbn [p_root p_parts] in Hstrip.
  unfold path_str, Path, parse_parts. cbn [p_root p_parts rev app].
  simpl in Hr. destruct Hr as [<-|[<-|[<-|[]]]].
  - cbn [app]. destruct (join_with sep parts) as [|c s] eqn:Ej.
    + destruct parts as [|x l]; [reflexivity|].
      exfalso. apply (join_with_head sep (x :: l));
        [apply name_ok_piece, Hn|discriminate|exact Ej].
    + cbn [parse_rev]. rewrite (splitroot_relative _ Hrel), Hnames. reflexivity.
  - cbn [app] in *. cbn [parse_rev]. unfold splitroot.
    cbn [startswith]. rewrite Ascii.eqb_refl, Hstrip.
    replace (len (sep :: join_with sep parts) - len (join_with sep parts) =? 2)
      with false by (unfold len; cbn [length]; symmetry; apply Z.eqb_neq; lia).
    rewrite Hnames. reflexivity.
  - cbn [app] in *. cbn [parse_rev]. unfold splitroot.
    cbn [startswith]. rewrite Ascii.eqb_refl, Hstrip.
    replace (len (sep :: sep :: join_with sep parts) - len (join_with sep parts) =? 2)
      with true by (unfold len; cbn [length]; symmetry; apply Z.eqb_eq; lia).
    rewrite Hnames. reflexivity.
Qed.

(** X5.  The location string can be parsed back: on a constructed store,
    [Path(get_path(digest, extension))] is the path the operations
    themselves use, so a caller that keeps the string returned by [store]
    and later opens [Path] of it addresses the stored object. *)
Theorem location_string_parses_back
    (root : str) (d w : Z) (self : ImageStorage.t) :
  ImageStorage.__init__ root d w = Ret self ->
  (forall h e,
      Path (ImageStorage.get_path self h e) = ImageStorage._get_file_path self h e) /\
  (forall input e w0 r w1,
      ImageStorage.store self input e w0 = (Ret r, w1) ->
      Path (StorageResult.path r) =
      ImageStorage._get_file_path self (StorageResult.hash r) e).
Proof.
  intros Hinit. split.
  - intros h e. apply Path_path_str. eapply file_path_wf, Hinit.
  - intros input e w0 r w1 Hstore. apply store_ret_result in Hstore as [dup ->].
    cbn [StorageResult.path StorageResult.hash storage_result].
    apply Path_path_str. eapply file_path_wf, Hinit.
Qed.

(** [delete] returned [True]: the location held a regular file, which is
    gone, and exactly one removal was issued. *)
Lemma delete_true self h e w w' :
  ImageStorage.delete self h e w = (Ret true, w') ->
  (exists c, fs w !! ImageStorage._get_file_path self h e = Some (File c)) /\
  w' = advance w (EvRemove (ImageStorage._get_file_path self h e))
               (base.delete (ImageStorage._get_file_path self h e) (fs w)).
Proof.
  unfold ImageStorage.delete. rewrite bind_run.
  destruct (path_exists _ w) as [[[|]|e0] w0] eqn:Hp; cbn [negb];
    apply path_exists_inv in Hp as (-> & _); [|discriminate..].
  rewrite bind_run.
  destruct (aio_remove _ w) as [[[]|e1] w1] eqn:Hr; [|discriminate].
  intros H. injection H as <-. split; [|apply remove_ret, Hr].
  apply remove_ret_file in Hr as [Hc _]. exact Hc.
Qed.

(** After a [delete] that returned [True] the look-up of the location is
    not refused. *)
Lemma delete_true_quiet self h e w w' :
  ImageStorage.delete self h e w = (Ret true, w') ->
  probe_refused w' (ImageStorage._get_file_path self h e) = None.
Proof.
  unfold ImageStorage.delete. rewrite bind_run.
  destruct (path_exists _ w) as [[[|]|e0] w0] eqn:Hp; cbn [negb];
    apply path_exists_inv in Hp as (-> & _); [|discriminate..].
  rewrite bind_run.
  destruct (aio_remove _ w) as [[[]|e1] w1] eqn:Hr; [|discriminate].
  intros H. injection H as <-.
  pose proof (remove_ret_file _ _ _ Hr) as [[c Hc] Href].
  apply remove_ret in Hr as ->. unfold probe_refused. cbn [fs advance denied].
  rewrite (refusal_dirs _ _ (fs w)), Href; [reflexivity|].
  intros q. apply is_dir_delete_file. unfold is_dir. rewrite Hc. reflexivity.
Qed.

(** X6.  A [delete] that returns [True] removed a regular file from the
    final location and nothing else: every other path, the shard
    directories among them, is as before.  From then on [fetch] returns
    [None], [exists] returns [False] and a second [delete] returns
    [False]. *)
Theorem delete_then_absent
    (self : ImageStorage.t) (image_hash extension : str) (w w' : world) :
  ImageStorage.delete self image_hash extension w = (Ret true, w') ->
  (exists c, fs w !! ImageStorage._get_file_path self image_hash extension
             = Some (File c)) /\
  fs w' = base.delete (ImageStorage._get_file_path self image_hash extension) (fs w) /\
  issued w w' = [EvRemove (ImageStorage._get_file_path self image_hash extension)] /\
  ImageStorage.fetch self image_hash extension w' = (Ret None, w') /\
  ImageStorage.exists_ self image_hash extension w' = (Ret false, w') /\
  ImageStorage.delete self image_hash extension w' = (Ret false, w').
Proof.
  intros H. pose proof (delete_true_quiet _ _ _ _ _ H) as Hquiet.
  apply delete_true in H as [Hc ->].
  split; [exact Hc|]. split; [reflexivity|].
  split; [apply issued_app; reflexivity|].
  unfold ImageStorage.fetch, ImageStorage.exists_, ImageStorage.delete.
  rewrite !bind_run.
  rewrite path_exists_absent, Hquiet by (cbn [fs advance]; apply lookup_delete_eq).
  repeat split; reflexivity.
Qed.

(** X7.  [fetch] only reads: whatever it returns or raises, the filesystem
    is the one it received and at most one system call was issued, a read
    of the final location.  Bytes it returns are the content of the regular
    file at that location, and [None] means that nothing is there. *)
Theorem fetch_only_reads
    (self : ImageStorage.t) (image_hash extension : str) (w w' : world)
    (r : outcome (option bytes)) :
  ImageStorage.fetch self image_hash extension w = (r, w') ->
  fs w' = fs w /\
  (issued w w' = [] \/
   issued w w' = [EvRead (ImageStorage._get_file_path self image_hash extension)]) /\
  (forall c, r = Ret (Some c) ->
             fs w !! ImageStorage._get_file_path self image_hash extension
             = Some (File c)) /\
  (r = Ret None ->
   fs w !! ImageStorage._get_file_path self image_hash extension = None).
Proof.
  unfold ImageStorage.fetch. rewrite bind_run.
  destruct (path_exists _ w) as [[[|]|e0] w0] eqn:Hp; cbn [negb];
    apply path_exists_inv in Hp as (-> & _ & Hno & _).
  - rewrite bind_run.
    destruct (aio_read _ w) as [[c|e1] w1] eqn:Hr; intros H; injection H as <- <-.
    + apply read_ret in Hr as [Hc ->]. split; [reflexivity|].
      split; [right; apply issued_app; reflexivity|].
      split; [intros c' Hc'; injection Hc' as <-; exact Hc|discriminate].
    + apply read_raise in Hr as ->. split; [reflexivity|].
      split; [right; apply issued_app; reflexivity|].
      split; [discriminate|discriminate].
  - intros H. injection H as <- <-.
    split; [reflexivity|].
    split; [left; apply (issued_app w w []); rewrite app_nil_r; reflexivity|].
    split; [discriminate|]. intros _. apply Hno. discriminate.
  - intros H. injection H as <- <-.
    split; [reflexivity|].
    split; [left; apply (issued_app w w []); rewrite app_nil_r; reflexivity|].
    split; discriminate.
Qed.

(** A first write that succeeds leaves the shard directory in place. *)
Lemma store_fresh_shard_dir self input e w r w' :
  fs w !! ImageStorage._get_file_path self
            (ImageStorage._compute_hash (getvalue input)) e = None ->
  ImageStorage.store self input e w = (Ret r, w') ->
  fs w' !! ImageStorage._get_shard_path self
             (ImageStorage._compute_hash (getvalue input)) = Some Dir.
Proof.
  intros Hfree. rewrite store_fresh by exact Hfree. cbv zeta.
  destruct (probe_refused w _); [discriminate|].
  destruct (aio_makedirs _ w) as [[[]|?] w1] eqn:Hmk; [|discriminate].
  destruct (temp_path_digest self (ImageStorage._compute_hash (getvalue input)) e
              (compute_hash_full_length _)) as (tp & s & rest & Hsfx & _ & _ & Hlen).
  rewrite Hsfx. unfold try_except.
  destruct (ImageStorage.store_write tp _ _ w1) as [[[]|e0] w2] eqn:Hbody.
  - intros H. injection H as _ <-.
    rewrite (store_write_ret_fs _ _ _ _ _ Hbody).
    pose proof (file_path_longer self (getvalue input) e) as Hlonger.
    assert (Hfp : ImageStorage._get_file_path self
                    (ImageStorage._compute_hash (getvalue input)) e
                  <> ImageStorage._get_shard_path self
                       (ImageStorage._compute_hash (getvalue input)))
      by (intros E; rewrite E in Hlonger; lia).
    assert (Htp : tp <> ImageStorage._get_shard_path self
                          (ImageStorage._compute_hash (getvalue input)))
      by (intros E; rewrite E in Hlen; lia).
    rewrite lookup_insert_ne, lookup_delete_ne, !lookup_insert_ne by congruence.
    apply makedirs_inv in Hmk as (m & -> & _ & Hdir). cbn [fs advance].
    apply Hdir. reflexivity.
  - destruct (ImageStorage.store_cleanup tp e0 w2) as [r3 w3] eqn:Hc.
    apply store_cleanup_fs in Hc as [[err ->] _]. discriminate.
Qed.

(** After a first write that succeeded the final location is a name the
    operating system does not refuse. *)
Lemma store_fresh_ret_refusal self input e w r w' :
  fs w !! ImageStorage._get_file_path self
            (ImageStorage._compute_hash (getvalue input)) e = None ->
  ImageStorage.store self input e w = (Ret r, w') ->
  refusal (denied w') (fs w')
          (ImageStorage._get_file_path self
             (ImageStorage._compute_hash (getvalue input)) e) = None.
Proof.
  intros Hfree. rewrite store_fresh by exact Hfree. cbv zeta.
  destruct (probe_refused w _); [discriminate|].
  destruct (aio_makedirs _ w) as [[[]|?] w1] eqn:Hmk; [|discriminate].
  destruct (with_suffix _ _) as [tp|?] eqn:Hsfx; [|discriminate].
  unfold try_except.
  destruct (ImageStorage.store_write tp _ _ w1) as [[[]|e0] w2] eqn:Hbody.
  - intros H. injection H as _ <-. eapply store_write_ret_refusal, Hbody.
  - destruct (ImageStorage.store_cleanup tp e0 w2) as [r3 w3] eqn:Hc.
    apply store_cleanup_fs in Hc as [[err ->] _]. discriminate.
Qed.

(** X8.  Store, delete, store again.  After a first write that succeeded,
    a [delete] that no fault hits returns [True]; the location is then free
    while the shard directory it lived in is still there (delete never
    removes directories), and a later [store] of the same payload is a
    first write again, not a duplicate. *)
Theorem store_delete_store
    (self : ImageStorage.t) (input : image_input) (extension : str)
    (w w1 : world) (r : StorageResult.t) :
  let data := getvalue input in
  let image_hash := ImageStorage._compute_hash data in
  let file_path := ImageStorage._get_file_path self image_hash extension in
  fs w !! file_path = None ->
  ImageStorage.store self input extension w = (Ret r, w1) ->
  unfaulted w1 = true ->
  exists w2,
    ImageStorage.delete self (StorageResult.hash r) extension w1 = (Ret true, w2) /\
    fs w2 !! file_path = None /\
    fs w2 !! ImageStorage._get_shard_path self image_hash = Some Dir /\
    forall r' w3,
      ImageStorage.store self input extension w2 = (Ret r', w3) ->
      StorageResult.is_duplicate r' = false /\
      fs w3 !! file_path = Some (File data).
Proof.
  intros data image_hash file_path Hfree Hstore Hu.
  subst file_path image_hash data.
  set (file_path := ImageStorage._get_file_path self
                      (ImageStorage._compute_hash (getvalue input)) extension) in *.
  pose proof (store_fresh_shard_dir _ _ _ _ _ _ Hfree Hstore) as Hdir.
  pose proof (store_fresh_ret_refusal _ _ _ _ _ _ Hfree Hstore) as Href.
  fold file_path in Href.
  destruct (store_fresh_ret _ _ _ _ _ _ Hfree Hstore) as (-> & Hfp & _).
  fold file_path in Hfp.
  cbn [StorageResult.hash storage_result]. fold file_path.
  exists (advance w1 (EvRemove file_path) (base.delete file_path (fs w1))).
  assert (Hgone : base.delete file_path (fs w1) !! file_path = None)
    by apply lookup_delete_eq.
  split; [|split; [exact Hgone|split]].
  - unfold ImageStorage.delete. rewrite bind_run.
    fold file_path. rewrite path_exists_present by (rewrite Hfp; eauto).
    cbn [negb]. rewrite bind_run, (remove_file _ _ _ Hfp Hu Href). reflexivity.
  - cbn [fs advance]. rewrite lookup_delete_ne; [exact Hdir|].
    pose proof (file_path_longer self (getvalue input) extension) as Hlonger.
    fold file_path in Hlonger.
    intros E. rewrite E in Hlonger. lia.
  - intros r' w3 Hstore'.
    destruct (store_fresh_ret self input extension
                (advance w1 (EvRemove file_path) (base.delete file_path (fs w1)))
                r' w3 Hgone Hstore')
      as (-> & Hfp' & _).
    split; [reflexivity|exact Hfp'].
Qed.


(** X10.  What was stored is visible.  After a [store] that returned, with
    the location free or already holding the payload beforehand, [exists]
    answers [True] and a [fetch] that no fault hits returns the payload;
    neither changes the filesystem. *)
Theorem stored_object_is_visible
    (self : ImageStorage.t) (input : image_input) (extension : str)
    (w w1 : world) (r : StorageResult.t) :
  fs w !! ImageStorage._get_file_path self
            (ImageStorage._compute_hash (getvalue input)) extension = None \/
  fs w !! ImageStorage._get_file_path self
            (ImageStorage._compute_hash (getvalue input)) extension
  = Some (File (getvalue input)) ->
  ImageStorage.store self input extension w = (Ret r, w1) ->
  unfaulted w1 = true ->
  ImageStorage.exists_ self (StorageResult.hash r) extension w1 = (Ret true, w1) /\
  fst (ImageStorage.fetch self (StorageResult.hash r) extension w1)
  = Ret (Some (getvalue input)) /\
  fs (snd (ImageStorage.fetch self (StorageResult.hash r) extension w1)) = fs w1.
Proof.
  intros Hpre Hstore Hu.
  rewrite (store_then_fetch self input extension w r w1 Hpre Hstore Hu).
  cbn [fst snd fs advance]. split; [|split; reflexivity].
  assert (Hfp : fs w1 !! ImageStorage._get_file_path self
                  (ImageStorage._compute_hash (getvalue input)) extension
                = Some (File (getvalue input)) /\
                StorageResult.hash r = ImageStorage._compute_hash (getvalue input)).
  { destruct Hpre as [Hfree|Hdup].
    - destruct (store_fresh_ret _ _ _ _ _ _ Hfree Hstore) as (-> & Hfp & _).
      split; [exact Hfp|reflexivity].
    - rewrite store_duplicate in Hstore by (rewrite Hdup; eauto).
      injection Hstore as <- <-. split; [exact Hdup|reflexivity]. }
  destruct Hfp as [Hfp ->].
  unfold ImageStorage.exists_. apply path_exists_present. rewrite Hfp. eauto.
Qed.

(** X11.  A failure of the directory creation surfaces before any write:
    [store] raises the error of [makedirs], and the only call issued is
    that [makedirs].  [makedirs] makes one directory at a time, so the
    levels it made before it failed stay: every path is as it was, or is a
    level of the shard directory that was not there and now is a
    directory.  The final location and the temporary path are as they
    were. *)
Theorem store_makedirs_failure
    (self : ImageStorage.t) (input : image_input) (extension : str)
    (w w1 : world) (err : exn) (temp_path : PurePosixPath) :
  let image_hash := ImageStorage._compute_hash (getvalue input) in
  let file_path := ImageStorage._get_file_path self image_hash extension in
  let shard_dir := ImageStorage._get_shard_path self image_hash in
  fs w !! file_path = None ->
  probe_refused w file_path = None ->
  with_suffix file_path tmp_suffix = Ret temp_path ->
  aio_makedirs shard_dir w = (Raise err, w1) ->
  ImageStorage.store self input extension w = (Raise err, w1) /\
  issued w w1 = [EvMakedirs shard_dir] /\
  (forall q, fs w1 !! q = fs w !! q \/
             (fs w !! q = None /\ fs w1 !! q = Some Dir /\ In q (ancestors shard_dir))) /\
  fs w1 !! file_path = None /\
  fs w1 !! temp_path = fs w !! temp_path.
Proof.
  intros image_hash file_path shard_dir Hfree Hquiet Hsfx Hmk.
  subst file_path shard_dir image_hash.
  split; [|split; [|split; [|split]]].
  - rewrite store_fresh by exact Hfree. cbv zeta. rewrite Hquiet, Hmk. reflexivity.
  - apply issued_app. eapply makedirs_log, Hmk.
  - apply makedirs_inv in Hmk as (m & -> & Hframe & _). exact Hframe.
  - rewrite (makedirs_keeps_file_path _ _ _ _ _ _ Hmk). exact Hfree.
  - eapply makedirs_frame; [exact Hmk|]. apply longer_not_ancestor.
    destruct (temp_path_digest self (ImageStorage._compute_hash (getvalue input))
                extension (compute_hash_full_length _))
      as (tp & s & rest & Hsfx' & _ & _ & Hlen).
    rewrite Hsfx in Hsfx'. injection Hsfx' as <-. rewrite Hlen.
    apply file_path_longer.
Qed.

(** The calls of a [try] block that raised: the open, then possibly the
    write, then possibly the rename. *)
Lemma store_write_raise_log tp fp data w1 e0 w2 :
  ImageStorage.store_write tp fp data w1 = (Raise e0, w2) ->
  exists k, (1 <= k <= 3)%nat /\
    log w2 = log w1 ++ take k [EvOpen tp; EvWrite tp data; EvRename tp fp].
Proof.
  unfold ImageStorage.store_write. rewrite !bind_run.
  destruct (aio_open_wb tp w1) as [[[]|e] wa] eqn:Ha.
  - rewrite bind_run.
    destruct (aio_write tp data wa) as [[[]|e] wb] eqn:Hb.
    + intros Hc. apply open_wb_ret in Ha. apply write_ret in Hb.
      apply rename_raise in Hc. subst w2 wb wa. cbn [fs advance log].
      exists 3%nat. split; [lia|]. rewrite <- !app_assoc. reflexivity.
    + intros H. injection H as _ <-. apply open_wb_ret in Ha.
      apply write_raise in Hb as [k ->]. subst wa. cbn [fs advance log].
      exists 2%nat. split; [lia|]. rewrite <- !app_assoc. reflexivity.
  - intros H. injection H as _ <-. apply open_wb_raise in Ha as ->.
    cbn [advance log]. exists 1%nat. split; [lia|]. reflexivity.
Qed.

(** X12.  The order of the write protocol.  Whatever happens, the system
    calls [store] issues are a prefix of: create the shard directory, open
    the temporary path, write the payload to it, rename it onto the final
    location -- followed, when the [try] block failed, by at most one
    removal of the temporary path.  A call that returns issued none of them
    (a duplicate) or all four and no removal.  Nothing is ever read, and
    nothing but the temporary path is ever removed. *)
Theorem store_protocol_order
    (self : ImageStorage.t) (input : image_input) (extension : str) (w : world) :
  exists (temp_path : PurePosixPath) (k : nat) (cleanup : list event),
    with_suffix (ImageStorage._get_file_path self
                   (ImageStorage._compute_hash (getvalue input)) extension)
                tmp_suffix = Ret temp_path /\
    issued w (snd (ImageStorage.store self input extension w)) =
    take k [EvMakedirs (ImageStorage._get_shard_path self
                          (ImageStorage._compute_hash (getvalue input)));
            EvOpen temp_path;
            EvWrite temp_path (getvalue input);
            EvRename temp_path
              (ImageStorage._get_file_path self
                 (ImageStorage._compute_hash (getvalue input)) extension)]
    ++ cleanup /\
    (cleanup = [] \/ cleanup = [EvRemove temp_path] /\ (2 <= k)%nat) /\
    (forall r, fst (ImageStorage.store self input extension w) = Ret r ->
               cleanup = [] /\ (k = 0 \/ k = 4)%nat).
Proof.
  destruct (temp_path_digest self (ImageStorage._compute_hash (getvalue input))
              extension (compute_hash_full_length _))
    as (tp & s & rest & Hsfx & _).
  exists tp.
  destruct (fs w !! ImageStorage._get_file_path self
              (ImageStorage._compute_hash (getvalue input)) extension)
    as [n|] eqn:E.
  { exists 0%nat, []. split; [exact Hsfx|].
    rewrite store_duplicate by (rewrite E; eauto). cbn [fst snd take app].
    split; [apply issued_app; rewrite app_nil_r; reflexivity|].
    split; [left; reflexivity|]. intros _ _. split; [reflexivity|left; reflexivity]. }
  rewrite store_fresh by exact E. cbv zeta.
  destruct (probe_refused w _).
  { exists 0%nat, []. split; [exact Hsfx|]. cbn [fst snd take app].
    split; [apply issued_app; rewrite app_nil_r; reflexivity|].
    split; [left; reflexivity|]. intros r Hr. discriminate Hr. }
  destruct (aio_makedirs _ w) as [[[]|?] w1] eqn:Hmk.
  2:{ exists 1%nat, []. split; [exact Hsfx|]. cbn [fst snd].
      apply makedirs_log in Hmk.
      split; [apply issued_app; rewrite Hmk; reflexivity|].
      split; [left; reflexivity|]. intros r Hr. discriminate Hr. }
  apply makedirs_log in Hmk.
  rewrite Hsfx. unfold try_except.
  destruct (ImageStorage.store_write tp _ _ w1) as [[[]|e0] w2] eqn:Hbody.
  - exists 4%nat, []. split; [reflexivity|]. cbn [fst snd].
    apply store_write_ret in Hbody as (_ & Hlog & _).
    split; [apply issued_app; rewrite Hlog, Hmk, <- app_assoc; reflexivity|].
    split; [left; reflexivity|]. intros _ _. split; [reflexivity|right; reflexivity].
  - apply store_write_raise_log in Hbody as (k & Hk & Hlog).
    destruct (ImageStorage.store_cleanup tp e0 w2) as [r3 w3] eqn:Hc.
    pose proof (store_cleanup_fs _ _ _ _ _ Hc) as [[err ->] _].
    apply store_cleanup_log in Hc. cbn [fst snd].
    destruct Hc as [Hc|Hc].
    + exists (S k), []. split; [reflexivity|].
      split; [apply issued_app; rewrite Hc, Hlog, Hmk, <- app_assoc, app_nil_r;
              reflexivity|].
      split; [left; reflexivity|]. intros r Hr. discriminate Hr.
    + exists (S k), [EvRemove tp]. split; [reflexivity|].
      split; [apply issued_app; rewrite Hc, Hlog, Hmk, <- !app_assoc; reflexivity|].
      split; [right; split; [reflexivity|lia]|]. intros r Hr. discriminate Hr.
Qed.

(** X13.  The fields of the result that do not name the object.  On every
    return of [store], [is_duplicate] tells whether the final location was
    occupied when the call began, [size] is the length of the payload
    supplied, and a result that is not a duplicate means that the payload
    is now at the final location. *)
Theorem store_result_flag_and_size
    (self : ImageStorage.t) (input : image_input) (extension : str)
    (w w' : world) (r : StorageResult.t) :
  ImageStorage.store self input extension w = (Ret r, w') ->
  StorageResult.is_duplicate r =
  bool_decide (is_Some (fs w !! ImageStorage._get_file_path self
                          (ImageStorage._compute_hash (getvalue input)) extension)) /\
  StorageResult.size r = len (getvalue input) /\
  (StorageResult.is_duplicate r = false ->
   fs w' !! ImageStorage._get_file_path self
              (ImageStorage._compute_hash (getvalue input)) extension
   = Some (File (getvalue input))).
Proof.
  destruct (fs w !! ImageStorage._get_file_path self
              (ImageStorage._compute_hash (getvalue input)) extension)
    as [n|] eqn:E; intros Hstore.
  - rewrite store_duplicate in Hstore by (rewrite E; eauto).
    injection Hstore as <- <-. cbn [StorageResult.is_duplicate StorageResult.size
                                    storage_result].
    rewrite bool_decide_eq_true_2 by eauto.
    split; [reflexivity|]. split; [reflexivity|discriminate].
  - destruct (store_fresh_ret _ _ _ _ _ _ E Hstore) as (-> & Hfp & _).
    cbn [StorageResult.is_duplicate StorageResult.size storage_result].
    rewrite bool_decide_eq_false_2 by apply is_Some_None.
    split; [reflexivity|]. split; [reflexivity|]. intros _. exact Hfp.
Qed.

(** X14.  The digest [_compute_hash] returns is, for every payload, 64
    characters long, made of the characters [0-9a-f] only, and so free of
    path separators and of dots. *)
Theorem compute_hash_is_hex_digest (data : bytes) :
  len (ImageStorage._compute_hash data) = 64 /\
  Forall (fun c => In c (lit "0123456789abcdef")) (ImageStorage._compute_hash data) /\
  contains sep (ImageStorage._compute_hash data) = false /\
  contains dot (ImageStorage._compute_hash data) = false.
Proof.
  pose proof (compute_hash_full_length data) as H.
  split; [|split; [|split]].
  - destruct H as [H _]. unfold len. rewrite H. reflexivity.
  - destruct H as [_ H]. apply Forall_forall. intros c Hc.
    apply list_elem_of_In in Hc.
    rewrite forallb_forall in H. specialize (H c Hc).
    unfold is_hex in H. apply existsb_exists in H as (x & Hx & Hcx).
    apply Ascii.eqb_eq in Hcx. subst x. exact Hx.
  - apply digest_no_sep, H.
  - apply digest_no_dot, H.
Qed.


(** X16.  The temporary name does not depend on the extension.  For every
    payload and every extension of the form [.ext] ([ext] not empty, with
    no dot and no separator in it), the temporary path of [store] is the
    location the same digest has under the extension [.tmp]: stores of one
    payload under [.jpg] and under [.png] write through the same temporary
    file, and that file is the final location of the payload under
    [.tmp]. *)
Theorem temp_path_ignores_extension
    (self : ImageStorage.t) (data : bytes) (ext : str) :
  ext <> [] -> contains dot ext = false -> contains sep ext = false ->
  with_suffix (ImageStorage._get_file_path self (ImageStorage._compute_hash data)
                                          (dot :: ext)) tmp_suffix
  = Ret (ImageStorage._get_file_path self (ImageStorage._compute_hash data)
                                     tmp_suffix).
Proof.
  intros Hne Hdot Hsep.
  pose proof (compute_hash_full_length data) as Hh.
  set (h := ImageStorage._compute_hash data) in *.
  assert (Hsep' : contains sep (dot :: ext) = false)
    by (rewrite contains_cons, Hsep; reflexivity).
  rewrite !file_path_digest by assumption.
  rewrite (split_on_absent sep (dot :: ext)) by assumption.
  change (split_on sep tmp_suffix) with [tmp_suffix]. cbn [hd tl List.filter].
  set (shard := ImageStorage._get_shard_path self h).
  match goal with |- with_suffix ?p _ = _ => set (P := p) end.
  assert (Hname : name P = h ++ dot :: ext) by apply name_snoc.
  assert (Hstem : h <> []) by (apply digest_nonempty, Hh).
  assert (Hs : suffix P = dot :: ext)
    by (apply (suffix_stem_ext _ h ext); assumption).
  unfold with_suffix. rewrite Hs, Hname.
  change (contains sep tmp_suffix) with false.
  change (str_eqb tmp_suffix []) with false.
  change (startswith dot tmp_suffix) with true.
  change (str_eqb tmp_suffix [dot]) with false.
  cbn [negb andb orb].
  replace (str_eqb (h ++ dot :: ext) []) with false
    by (symmetry; apply str_eqb_neq; destruct h; [congruence|discriminate]).
  replace (str_eqb (dot :: ext) []) with false
    by (symmetry; apply str_eqb_neq; discriminate).
  rewrite pyslice_init by discriminate.
  unfold P. cbn [p_root p_parts]. rewrite removelast_last. reflexivity.
Qed.

(* ====================================================================== *)
(** * The further properties on concrete inputs *)
(* ====================================================================== *)

(** X3 at the default store: storing the empty payload leaves the object
    of [hello_hash] as it is. *)
Lemma other_digests_are_untouched_witness :
  fs (snd (ImageStorage.store image_storage (RawBytes []) jpg hello_present))
  !! hello_hash_jpg =
  fs hello_present !! hello_hash_jpg.
Proof.
  refine (proj1 (other_digests_are_untouched image_storage hello_hash jpg
                   hello_present _)
                (RawBytes []) jpg _).
  - split; reflexivity.
  - vm_compute. discriminate.
Defined.

(** X4 at the default store, the digest [hello_hash] and [.jpg]. *)
Lemma location_names_digest_and_extension_witness :
  hello_hash = hello_hash /\ jpg = jpg.
Proof.
  refine (location_names_digest_and_extension ImageStorage.default_base_path 2 2
            image_storage hello_hash hello_hash jpg jpg eq_refl _ _ _ _ eq_refl).
  - split; reflexivity.
  - split; reflexivity.
  - reflexivity.
  - reflexivity.
Defined.

(** X5 at the default store, the digest [hello_hash] and [.jpg]. *)
Lemma location_string_parses_back_witness :
  Path (ImageStorage.get_path image_storage hello_hash jpg) = hello_hash_jpg.
Proof.
  refine (proj1 (location_string_parses_back ImageStorage.default_base_path 2 2
                   image_storage eq_refl)
                hello_hash jpg).
Defined.

(** X6 at the default store: the object of [hello_hash] is deleted. *)
Lemma delete_then_absent_witness :
  (exists c, fs hello_present !! hello_hash_jpg = Some (File c)) /\
  fs hello_deleted = base.delete hello_hash_jpg (fs hello_present) /\
  issued hello_present hello_deleted = [EvRemove hello_hash_jpg] /\
  ImageStorage.fetch image_storage hello_hash jpg hello_deleted
  = (Ret None, hello_deleted) /\
  ImageStorage.exists_ image_storage hello_hash jpg hello_deleted
  = (Ret false, hello_deleted) /\
  ImageStorage.delete image_storage hello_hash jpg hello_deleted
  = (Ret false, hello_deleted).
Proof.
  refine (delete_then_absent image_storage hello_hash jpg hello_present
            hello_deleted _).
  refine (run_eq (ImageStorage.delete image_storage hello_hash jpg) hello_present
                 (Ret true) _).
  vm_compute. reflexivity.
Defined.

(** X7 at the default store: the object of [hello_hash] is fetched. *)
Lemma fetch_only_reads_witness :
  fs hello_fetched = fs hello_present /\
  fs hello_present !! hello_hash_jpg = Some (File hello).
Proof.
  destruct (fetch_only_reads image_storage hello_hash jpg hello_present
              hello_fetched (Ret (Some hello))) as (H1 & _ & H3 & _).
  - refine (run_eq (ImageStorage.fetch image_storage hello_hash jpg) hello_present
                   (Ret (Some hello)) _).
    vm_compute. reflexivity.
  - split; [exact H1|exact (H3 hello eq_refl)].
Defined.

(** X8 at the default store: [b"hello"] stored into an empty filesystem,
    deleted, and stored again. *)
Lemma store_delete_store_witness :
  exists w2,
    ImageStorage.delete image_storage (StorageResult.hash first_result) jpg stored
    = (Ret true, w2) /\
    fs w2 !! hello_jpg = None /\
    fs w2 !! hello_shard = Some Dir /\
    forall r' w3,
      ImageStorage.store image_storage hello_in jpg w2 = (Ret r', w3) ->
      StorageResult.is_duplicate r' = false /\
      fs w3 !! hello_jpg = Some (File (getvalue hello_in)).
Proof.
  refine (store_delete_store image_storage hello_in jpg (fresh 0) stored
            first_result _ _ _).
  - apply lookup_empty.
  - refine (run_eq (ImageStorage.store image_storage hello_in jpg) (fresh 0)
                   (Ret first_result) _).
    vm_compute. reflexivity.
  - vm_compute. reflexivity.
Defined.


(** X10 at the default store: [b"hello"] stored into an empty filesystem is
    there. *)
Lemma stored_object_is_visible_witness :
  ImageStorage.exists_ image_storage (StorageResult.hash first_result) jpg stored
  = (Ret true, stored) /\
  fst (ImageStorage.fetch image_storage (StorageResult.hash first_result) jpg stored)
  = Ret (Some (getvalue hello_in)) /\
  fs (snd (ImageStorage.fetch image_storage (StorageResult.hash first_result) jpg
             stored)) = fs stored.
Proof.
  refine (stored_object_is_visible image_storage hello_in jpg (fresh 0) stored
            first_result _ _ _).
  - left. apply lookup_empty.
  - refine (run_eq (ImageStorage.store image_storage hello_in jpg) (fresh 0)
                   (Ret first_result) _).
    vm_compute. reflexivity.
  - vm_compute. reflexivity.
Defined.

(** The directory creation that fails at its last level leaves the levels
    above the shard directory of [b"hello"] behind. *)
Example makedirs_leaves_levels :
  fst (aio_makedirs hello_shard makedirs_fails) = Raise (OSError 13) /\
  fs makedirs_fails !! parent hello_shard = None /\
  fs makedirs_fails_end !! parent hello_shard = Some Dir /\
  fs makedirs_fails_end !! hello_shard = None.
Proof. vm_compute. repeat split. Qed.

(** X11 at the default store: the creation of the shard directory of
    [b"hello"] is refused at the last level. *)
Lemma store_makedirs_failure_witness :
  ImageStorage.store image_storage hello_in jpg makedirs_fails
  = (Raise (OSError 13), makedirs_fails_end) /\
  issued makedirs_fails makedirs_fails_end = [EvMakedirs hello_shard] /\
  (forall q, fs makedirs_fails_end !! q = fs makedirs_fails !! q \/
             (fs makedirs_fails !! q = None /\
              fs makedirs_fails_end !! q = Some Dir /\
              In q (ancestors hello_shard))) /\
  fs makedirs_fails_end !! hello_jpg = None /\
  fs makedirs_fails_end !! hello_tmp = fs makedirs_fails !! hello_tmp.
Proof.
  refine (store_makedirs_failure image_storage hello_in jpg makedirs_fails
            makedirs_fails_end (OSError 13) hello_tmp _ _ _ _).
  - apply lookup_empty.
  - vm_compute. reflexivity.
  - vm_compute. reflexivity.
  - refine (run_eq (aio_makedirs hello_shard) makedirs_fails (Raise (OSError 13)) _).
    vm_compute. reflexivity.
Defined.

(** X13 at the first write of [b"hello"] into an empty filesystem. *)
Lemma store_result_flag_and_size_witness :
  StorageResult.is_duplicate first_result =
  bool_decide (is_Some (fs (fresh 0) !! hello_jpg)) /\
  StorageResult.size first_result = len (getvalue hello_in) /\
  (StorageResult.is_duplicate first_result = false ->
   fs stored !! hello_jpg = Some (File (getvalue hello_in))).
Proof.
  refine (store_result_flag_and_size image_storage hello_in jpg (fresh 0) stored
            first_result _).
  refine (run_eq (ImageStorage.store image_storage hello_in jpg) (fresh 0)
                 (Ret first_result) _).
  vm_compute. reflexivity.
Defined.


(** X16 at the default store: the temporary path of [b"hello"] under
    [.jpg] is its location under [.tmp]. *)
Lemma temp_path_ignores_extension_witness :
  with_suffix (ImageStorage._get_file_path image_storage hello_digest
                 (dot :: lit "jpg")) tmp_suffix
  = Ret hello_tmp.
Proof.
  refine (temp_path_ignores_extension image_storage hello (lit "jpg") _ _ _).
  - discriminate.
  - reflexivity.
  - reflexivity.
Defined.

(* ====================================================================== *)
(** * Properties of the reprocessing script *)
(* ====================================================================== *)

Import reprocess_bboxes.

Lemma run_bind {A B} (m : P A) (k : A -> P B) tr :
  (m ≫= k) tr =
  match m tr with
  | (Ok a, tr') => k a tr'
  | (Err e, tr') => (Err e, tr')
  end.
Proof. reflexivity. Qed.

Lemma call_inv `{Environment} {A} (a : action) (answer : list action -> A) tr r tr' :
  call a answer tr = (r, tr') ->
  tr' = tr ++ [a] /\
  (raises tr a = None /\ r = Ok (answer tr) \/
   exists e, raises tr a = Some e /\ r = Err e).
Proof.
  unfold call. destruct (raises tr a) as [e|]; intros E; injection E as <- <-;
    split; eauto.
Qed.

Lemma count_app f a b : count f (a ++ b) = count f a + count f b.
Proof. unfold count. rewrite List.filter_app. apply len_app. Qed.

Lemma count_nonneg f evs : 0 <= count f evs.
Proof. apply len_nonneg. Qed.

(** ** [build_detections] *)

Lemma build_detections_loop_app `{Operators} a b out :
  build_detections_loop (a ++ b) out =
  match build_detections_loop a out with
  | Ok out' => build_detections_loop b out'
  | Err e => Err e
  end.
Proof.
  revert out. induction a as [|det a IH]; intros out; [reflexivity|].
  cbn [app build_detections_loop]. unfold mbind, result_bind.
  destruct (build_detection det) as [entry|e]; [apply IH|reflexivity].
Qed.

(** What [build_detection] returns when it returns. *)
Lemma build_detection_ok `{Operators} det entry :
  build_detection det = Ok entry -> dashboard_entry det entry.
Proof.
  unfold build_detection, dashboard_entry.
  destruct det as [| | | | | |items]; try discriminate.
  cbn [get]. unfold xyxy_to_xywh, mbind, result_bind, mret, result_ret.
  cbv beta iota delta [default from_option id].
  set (b := match lookup_key items (lit "bbox") with Some v => v | None => VDict [] end).
  destruct (lookup_key items (lit "class_name")) as [c1|] eqn:E1;
    destruct (lookup_key items (lit "class")) as [c2|] eqn:E2;
    cbn [truthy];
    repeat match goal with |- context [truthy ?c] => destruct (truthy c) eqn:? end;
    destruct b as [| | | | | |bbox] eqn:Eb; try discriminate; cbn [get];
    (match goal with |- context [py_sub ?a ?b] =>
       destruct (py_sub a b) as [width|] eqn:Ew; [|discriminate] end);
    (match goal with |- context [py_sub ?a ?b] =>
       destruct (py_sub a b) as [height|] eqn:Eh; [|discriminate] end);
    intros E; cbv beta iota in E; injection E as E;
    (match type of E with VDict ((_, ?c) :: _) = _ =>
       exists items, bbox, c, width, height end);
    rewrite <- E;
    (split; [reflexivity|]); (split; [reflexivity|]);
    (split; [unfold label_of, truthy_item; rewrite ?E1, ?E2;
             repeat match goal with Ht : truthy _ = _ |- _ => rewrite Ht end;
             reflexivity|]);
    (split; [assumption || reflexivity|]);
    (split; [exact Ew|]); (split; [exact Eh|]); reflexivity.
Qed.

Lemma build_detections_loop_ok `{Operators} dets : forall out0 out,
  build_detections_loop dets out0 = Ok out ->
  exists entries, out = out0 ++ entries /\ Forall2 dashboard_entry dets entries.
Proof.
  induction dets as [|det dets IH]; intros out0 out.
  - cbn. intros E. injection E as <-. exists []. rewrite app_nil_r. auto.
  - cbn [build_detections_loop]. unfold mbind, result_bind.
    destruct (build_detection det) as [entry|e] eqn:Hd; [|discriminate].
    intros E. apply IH in E as (entries & -> & HF).
    exists (entry :: entries). rewrite <- app_assoc. split; [reflexivity|].
    constructor; [apply build_detection_ok, Hd|exact HF].
Qed.

(** X17.  What [build_detections] returns.  When it returns, the value it
    was given could be iterated, and the result has one entry per item, in
    order; every item was a dict, with a dict (or nothing) under ["bbox"],
    and its entry is the dict with the keys ["class"], ["confidence"] and
    ["bounding_box"] in which the label is what the item has under
    ["class_name"] if that is truthy, else what it has under ["class"] if
    that is truthy, else ["unknown"] -- so a label is never falsy -- and
    the box has [x] and [y] copied from ["x1"] and ["y1"] and the
    differences as [width] and [height]. *)
Theorem build_detections_entries `{Operators}
    (raw_detections : value) (out : list value) :
  build_detections raw_detections = Ok out ->
  exists dets,
    iterate raw_detections = Ok dets /\
    len out = len dets /\
    Forall2 dashboard_entry dets out.
Proof.
  unfold build_detections, mbind, result_bind.
  destruct (iterate raw_detections) as [dets|e]; [|discriminate].
  intros E. apply build_detections_loop_ok in E as (entries & -> & HF).
  exists dets. split; [reflexivity|]. cbn [app]. split; [|exact HF].
  unfold len. f_equal. symmetry. eapply Forall2_length, HF.
Qed.

(** X18.  A detection without coordinates is not rejected: when the dict
    has no ["bbox"] entry, or an empty one, the entry made from it carries
    the all-zero box (given that [0 - 0] is [0]) -- a box of width zero,
    which is what [fetch_targets] selects rows by. *)
Theorem detection_without_bbox_gets_zero_box `{Operators}
    (items : list (str * value)) :
  py_sub (VInt 0) (VInt 0) = Ok (VInt 0) ->
  lookup_key items (lit "bbox") = None \/
  lookup_key items (lit "bbox") = Some (VDict []) ->
  exists class confidence,
    build_detection (VDict items) =
    Ok (VDict [(lit "class", class); (lit "confidence", confidence);
               (lit "bounding_box", zero_box)]).
Proof.
  intros Hsub Hbox. unfold build_detection. cbn [get].
  assert (Hb : match lookup_key items (lit "bbox") with
               | Some v => v | None => VDict [] end = VDict [])
    by (destruct Hbox as [-> | ->]; reflexivity).
  rewrite Hb. unfold xyxy_to_xywh, mbind, result_bind, mret, result_ret.
  cbn [get lookup_key]. rewrite Hsub.
  destruct (truthy _); [eauto|]. destruct (truthy _); eauto.
Qed.

(** X19.  What [build_detections] rejects.  After items that convert, an
    item that is not a dict -- or a dict whose ["bbox"] is present and is
    not a dict, [null] included -- makes the whole call raise
    [AttributeError]: no partial list is returned. *)
Theorem build_detections_rejects `{Operators}
    (good : list value) (det : value) (rest : list value) (out0 : list value) :
  build_detections_loop good [] = Ok out0 ->
  is_dict det = false \/
  (exists items b, det = VDict items /\
                   lookup_key items (lit "bbox") = Some b /\ is_dict b = false) ->
  build_detections (VList (good ++ det :: rest)) = Err AttributeError.
Proof.
  intros Hgood Hbad. unfold build_detections. cbn [iterate].
  unfold mbind at 1, result_bind at 1.
  rewrite build_detections_loop_app, Hgood. cbn [build_detections_loop].
  unfold mbind at 1, result_bind at 1.
  assert (Hd : build_detection det = Err AttributeError).
  { destruct Hbad as [Hnd|(items & b & -> & Hb & Hnd)].
    - destruct det; try reflexivity. discriminate Hnd.
    - unfold build_detection. cbn [get]. rewrite Hb.
      unfold mbind, result_bind, mret, result_ret.
      destruct (truthy _); [|destruct (truthy _)];
        destruct b; try reflexivity; discriminate Hnd. }
  rewrite Hd. reflexivity.
Qed.

(** ** [update_analysis] *)

Lemma lift_bind {A B} (r : result A) (k : A -> P B) tr :
  (lift r ≫= k) tr =
  match r with
  | Ok a => k a tr
  | Err e => (Err e, tr)
  end.
Proof. rewrite run_bind. unfold lift. destruct r; reflexivity. Qed.

(** The three ways [update_analysis] can end: an exception before
    anything was done, the line of a dry run, or one [UPDATE]. *)
Lemma update_analysis_inv `{Operators} `{Environment}
    (id : Z) (result : value) (dry : bool) tr r tr' :
  update_analysis id result dry tr = (r, tr') ->
  (exists e, r = Err e /\ tr' = tr) \/
  (dry = true /\ r = Ok true /\
   exists n hf hs, tr' = tr ++ [Print (LDryRun id n hf hs)]) \/
  (dry = false /\
   exists row,
     tr' = tr ++ [Execute (UpdateExecutionAnalysis row)] /\
     execution_id row = id /\
     detection_count row = len (detections row) /\
     build_detections (default (VList []) (match result with
                                           | VDict items => lookup_key items (lit "detections")
                                           | _ => None
                                           end)) = Ok (detections row) /\
     (confidence_fire row = VNone \/
      py_gt (confidence_fire row) (VInt 0) = Ok true) /\
     (confidence_smoke row = VNone \/
      py_gt (confidence_smoke row) (VInt 0) = Ok true) /\
     (raises tr (Execute (UpdateExecutionAnalysis row)) = None /\
      r = Ok (rowcount tr' =? 1) \/
      exists e, raises tr (Execute (UpdateExecutionAnalysis row)) = Some e /\
                r = Err e)).
Proof.
  unfold update_analysis.
  destruct result as [| | | | | |items];
    try (rewrite lift_bind; cbn [get]; intros E; injection E as <- <-; eauto).
  rewrite lift_bind. cbn [get].
  rewrite lift_bind.
  destruct (build_detections _) as [dets|e] eqn:Hdets;
    [|intros E; injection E as <- <-; eauto].
  rewrite lift_bind.
  set (scores := match lookup_key items (lit "confidence_scores") with
                 | Some v => v | None => VDict [] end).
  destruct scores as [| | | | | |sc];
    try (rewrite lift_bind; cbn [get]; intros E; injection E as <- <-; eauto).
  rewrite lift_bind. cbn [get]. rewrite !lift_bind.
  set (conf_fire := if truthy _ then _ else VInt 0).
  set (conf_smoke := if truthy _ then _ else VInt 0).
  unfold py_max, mbind at 1, result_bind at 1.
  destruct (py_gt conf_smoke conf_fire) as [g|e];
    [|intros E; injection E as <- <-; eauto].
  cbn [mret result_ret].
  set (conf_score := if truthy _ then _ else VNone).
  destruct dry.
  - rewrite !lift_bind. rewrite run_bind. unfold print.
    destruct (raises tr _) as [e|]; intros E; injection E as <- <-;
      [left; eauto|right; left; eauto 10].
  - rewrite !lift_bind.
    destruct (py_gt conf_fire (VInt 0)) as [gf|e] eqn:Hgf;
      [|intros E; injection E as <- <-; eauto].
    rewrite lift_bind.
    destruct (py_gt conf_smoke (VInt 0)) as [gs|e] eqn:Hgs;
      [|intros E; injection E as <- <-; eauto].
    rewrite run_bind. unfold do.
    match goal with |- context [call ?a ?f tr] =>
      destruct (call a f tr) as [[[]|e] tr1] eqn:Hcall end;
      apply call_inv in Hcall as [-> Hcall];
      intros E; injection E as <- <-; right; right; (split; [reflexivity|]);
      eexists; (split; [reflexivity|]); cbn [execution_id detection_count detections
                                             confidence_fire confidence_smoke];
      (split; [reflexivity|]); (split; [reflexivity|]);
      (split; [first [exact Hdets|reflexivity]|]);
      (split; [destruct gf; [right; exact Hgf|left; reflexivity]|]);
      (split; [destruct gs; [right; exact Hgs|left; reflexivity]|]).
    + left. destruct Hcall as [[Hr _]|(e & _ & He)]; [|discriminate].
      split; [exact Hr|reflexivity].
    + right. destruct Hcall as [[_ He]|(e' & Hr & He)]; [discriminate|].
      injection He as <-. eauto.
Qed.

(** X20.  A dry run of [update_analysis] touches nothing: it makes no
    call at all -- no statement reaches the database -- and either raises
    before printing, or prints its one line and returns [True]. *)
Theorem update_analysis_dry_run `{Operators} `{Environment}
    (execution_id : Z) (result : value) (tr : list action)
    (r : reprocess_bboxes.result bool) (tr' : list action) :
  update_analysis execution_id result true tr = (r, tr') ->
  (exists e, r = Err e /\ tr' = tr) \/
  (r = Ok true /\
   exists n has_fire has_smoke,
     tr' = tr ++ [Print (LDryRun execution_id n has_fire has_smoke)]).
Proof.
  intros E. apply update_analysis_inv in E as [E|[(_ & E)|(E & _)]];
    [left; exact E|right; exact E|discriminate E].
Qed.

(** X21.  The row [update_analysis] writes.  Outside a dry run, a call
    that returns has executed exactly one statement, the [UPDATE] of
    [execution_analysis] for the execution it was given; in it
    [detection_count] is the number of entries of [detections], which is
    [build_detections] of the result's ["detections"], and each of
    [confidence_fire] and [confidence_smoke] is [None] or a value that
    compares greater than zero.  The call returns whether the statement
    touched exactly one row. *)
Theorem update_analysis_row `{Operators} `{Environment}
    (id : Z) (result : value) (tr : list action) (updated : bool)
    (tr' : list action) :
  update_analysis id result false tr = (Ok updated, tr') ->
  exists row,
    tr' = tr ++ [Execute (UpdateExecutionAnalysis row)] /\
    execution_id row = id /\
    detection_count row = len (detections row) /\
    (exists raw, get result (lit "detections") (VList []) = Ok raw /\
                 build_detections raw = Ok (detections row)) /\
    (confidence_fire row = VNone \/ py_gt (confidence_fire row) (VInt 0) = Ok true) /\
    (confidence_smoke row = VNone \/ py_gt (confidence_smoke row) (VInt 0) = Ok true) /\
    updated = (rowcount tr' =? 1).
Proof.
  intros E. pose proof E as E0.
  apply update_analysis_inv in E as [(e & E & _)|[(E & _)|(_ & row & -> & Hid & Hn & Hd & Hf & Hs & Hr)]];
    try discriminate.
  exists row. split; [reflexivity|]. split; [exact Hid|]. split; [exact Hn|].
  split.
  { destruct result as [| | | | | |items];
      try (unfold update_analysis in E0; rewrite lift_bind in E0; discriminate E0).
    cbn [get]. eexists. split; [reflexivity|exact Hd]. }
  split; [exact Hf|]. split; [exact Hs|].
  destruct Hr as [[_ Hr]|(e & _ & Hr)]; [|discriminate].
  injection Hr as ->. reflexivity.
Qed.

(** X22.  The key ["fire"] hides the fallback key.  When
    ["confidence_scores"] has ["fire"] with a falsy value -- [0], [0.0],
    [null], [false] -- the row written has [confidence_fire = None],
    whatever ["DetectionClass.FIRE"] holds (given that [0 > 0] is
    [False]). *)
Theorem falsy_fire_score_hides_fallback `{Operators} `{Environment}
    (id : Z) (result : value) (scores : list (str * value)) (v : value)
    (tr : list action) (updated : bool) (tr' : list action) :
  py_gt (VInt 0) (VInt 0) = Ok false ->
  get result (lit "confidence_scores") (VDict []) = Ok (VDict scores) ->
  lookup_key scores (lit "fire") = Some v ->
  truthy v = false ->
  update_analysis id result false tr = (Ok updated, tr') ->
  exists row,
    tr' = tr ++ [Execute (UpdateExecutionAnalysis row)] /\
    confidence_fire row = VNone.
Proof.
  intros Hgt Hscores Hfire Hv. unfold update_analysis.
  destruct result as [| | | | | |items]; try discriminate Hscores.
  assert (Hs : match lookup_key items (lit "confidence_scores") with
               | Some v => v | None => VDict [] end = VDict scores)
    by (cbn [get] in Hscores; injection Hscores as Hs; exact Hs).
  rewrite lift_bind. cbn [get]. rewrite lift_bind.
  destruct (build_detections _) as [dets|e]; [|discriminate].
  rewrite lift_bind, Hs. rewrite lift_bind. cbn [get]. rewrite !lift_bind.
  rewrite Hfire, Hv.
  set (conf_smoke := if truthy _ then _ else VInt 0).
  unfold py_max, mbind at 1, result_bind at 1.
  destruct (py_gt conf_smoke (VInt 0)) as [g|e]; [|cbv beta iota; discriminate].
  cbn [mret result_ret]. rewrite !lift_bind. rewrite Hgt. rewrite !lift_bind.
  rewrite run_bind. unfold do.
  match goal with |- context [call ?a ?f tr] =>
    destruct (call a f tr) as [[[]|e] tr1] eqn:Hcall end; [|discriminate].
  apply call_inv in Hcall as [-> _]. intros E. injection E as _ <-.
  eexists. split; reflexivity.
Qed.

(** ** [infer_image] *)

Lemma count_cons f a evs :
  count f (a :: evs) = (if f a then 1 else 0) + count f evs.
Proof.
  unfold count, len. cbn [List.filter]. destruct (f a); cbn [length]; lia.
Qed.

Lemma count_nil f : count f [] = 0.
Proof. reflexivity. Qed.

Lemma count_zero f evs :
  count f evs = 0 -> forall a, In a evs -> f a = false.
Proof.
  induction evs as [|x evs IH]; [intros _ a []|].
  rewrite count_cons. pose proof (count_nonneg f evs).
  intros Hc a [->|Hin].
  - destruct (f a); [lia|reflexivity].
  - apply IH; [destruct (f x); lia|exact Hin].
Qed.

Lemma count_inference f evs :
  (forall a, is_inference_call a = true -> f a = false) ->
  forallb is_inference_call evs = true -> count f evs = 0.
Proof.
  intros Hf. induction evs as [|x evs IH]; [reflexivity|].
  cbn [forallb]. intros Hx. apply andb_true_iff in Hx as [Hx Hevs].
  rewrite count_cons, (Hf x Hx), IH by exact Hevs. reflexivity.
Qed.

(** The runs of [infer_image]: the calls it made, and how it ended. *)
Lemma infer_image_cases `{Environment} (p : str) tr r tr' :
  infer_image p tr = (r, tr') ->
  exists evs,
    tr' = tr ++ evs /\
    forallb is_inference_call evs = true /\
    (exists rest, evs = Open p :: rest) /\
    (raises tr (Open p) = None -> In FileClose evs) /\
    (forall v, r = Ok v -> v <> VNone ->
     evs = [Open p; inference_request p; FileClose; RaiseForStatus; Json]) /\
    (forall e, In (Print (LInferenceError e)) evs -> r = Ok VNone) /\
    (forall e, r = Err e ->
       (is_Exception e = false /\ exists t a, raises t a = Some e) \/
       exists e0, is_Exception e0 = true /\
                  raises tr' (Print (LInferenceError e0)) = Some e).
Proof.
  unfold infer_image, try_except, with_open, do, call, print, lift,
    mbind, P_bind, mret, P_ret.
  fold (inference_request p).
  repeat match goal with
         | |- context [match raises ?t ?a with _ => _ end] =>
             destruct (raises t a) eqn:?
         | |- context [if is_Exception ?e then _ else _] =>
             destruct (is_Exception e) eqn:?
         end;
    intros E; injection E as <- <-;
    (eexists; split; [rewrite <- ?app_assoc; cbn [app]; reflexivity|]);
    (split; [reflexivity|]);
    (split; [eauto|]);
    (split; [first [congruence | intros _; cbn [In]; auto 10]|]).
  all: split; [first [reflexivity | congruence]|].
  all: split; [first [intros ? Hin; exfalso; unfold inference_request in Hin;
                      cbn [In] in Hin;
                      repeat destruct Hin as [Hin|Hin]; discriminate || contradiction
                     | reflexivity]|].
  all: try discriminate.
  all: intros e' He'; injection He' as <-.
  all: first [left; split; [assumption|eauto]
                  | right; eexists; split; [eassumption|];
                    rewrite <- ?app_assoc; cbn [app];
                    rewrite <- ?app_assoc in *; cbn [app] in *; eassumption].
Qed.


(** ** [main] *)

Lemma ret_run {A} (a : A) (tr : list action) : (mret a : P A) tr = (Ok a, tr).
Proof. reflexivity. Qed.

Lemma ret_bind {A B} (a : A) (k : A -> P B) tr : (mret a ≫= k) tr = k a tr.
Proof. reflexivity. Qed.

Lemma print_bind `{Environment} {B} (l : line) (k : unit -> P B) tr :
  (print l ≫= k) tr =
  match raises tr (Print l) with
  | Some e => (Err e, tr)
  | None => k tt (tr ++ [Print l])
  end.
Proof.
  rewrite run_bind. unfold print. destruct (raises tr (Print l)); reflexivity.
Qed.

Lemma print_run `{Environment} (l : line) tr :
  print l tr =
  match raises tr (Print l) with
  | Some e => (Err e, tr)
  | None => (Ok tt, tr ++ [Print l])
  end.
Proof. reflexivity. Qed.

Lemma do_bind `{Environment} {B} (a : action) (k : unit -> P B) tr :
  (do a ≫= k) tr =
  match raises tr a with
  | Some e => (Err e, tr ++ [a])
  | None => k tt (tr ++ [a])
  end.
Proof.
  rewrite run_bind. unfold do, call. destruct (raises tr a); reflexivity.
Qed.

Lemma do_run `{Environment} (a : action) tr :
  do a tr =
  match raises tr a with
  | Some e => (Err e, tr ++ [a])
  | None => (Ok tt, tr ++ [a])
  end.
Proof. reflexivity. Qed.

Lemma call_bind `{Environment} {A B} (a : action) (answer : list action -> A)
    (k : A -> P B) tr :
  (call a answer ≫= k) tr =
  match raises tr a with
  | Some e => (Err e, tr ++ [a])
  | None => k (answer tr) (tr ++ [a])
  end.
Proof.
  rewrite run_bind. unfold call. destruct (raises tr a); reflexivity.
Qed.

Lemma bind_assoc {A B C} (m : P A) (f : A -> P B) (g : B -> P C) tr :
  ((m ≫= f) ≫= g) tr = (m ≫= (fun x => f x ≫= g)) tr.
Proof.
  rewrite !run_bind. destruct (m tr) as [[x|e] tr1]; [|reflexivity].
  rewrite run_bind. reflexivity.
Qed.

Ltac run :=
  repeat first
    [ rewrite bind_assoc
    | rewrite ret_bind
    | rewrite print_bind
    | rewrite lift_bind
    | rewrite do_bind
    | rewrite call_bind
    | rewrite do_run
    | rewrite print_run
    | rewrite ret_run ].

Ltac tally :=
  unfold quiet, settled;
  repeat first [rewrite count_app | rewrite count_cons | rewrite count_nil];
  cbn [is_close is_update is_commit is_rollback is_sleep ok skip fail];
  repeat match goal with
         | H : count _ ?e = 0 |- context [count _ ?e] => rewrite H
         end;
  repeat split; intros;
  repeat match goal with
         | H : Ok _ = Ok _ |- _ => injection H as H; try subst
         | H : Err _ = Ok _ |- _ => discriminate H
         end;
  cbn [ok skip fail];
  try destruct (_ <? _); try lia; try congruence.

Ltac extend :=
  rewrite <- ?app_assoc; cbn [app];
  eexists; split; [reflexivity|].

Ltac leaf := intros E; injection E as <- <-; extend; tally.

(** The next call of the run: it raises, and the run ends there, or the
    run goes on. *)
Ltac step :=
  match goal with
  | |- (match raises ?t ?x with _ => _ end) = _ -> _ =>
      destruct (raises t x) as [?|] eqn:?; [leaf|]
  end.

Ltac steps := repeat (run; step).

(** One target. *)
Lemma main_body_run `{Operators} `{Environment} (a : args) (total i : Z)
    (exec_id : Z) (img_path : str) (c : counters) tr r tr' :
  main_body a total i exec_id img_path c tr = (r, tr') ->
  exists evs,
    tr' = tr ++ evs /\ quiet a evs /\
    count is_sleep evs <= (if i <? total then 1 else 0) /\
    forall c', r = Ok c' -> settled a c c' 1 evs.
Proof.
  unfold main_body. run. step.
  destruct (path_exists tr); cbn [negb]; run; step; [|run; leaf].
  rewrite run_bind.
  destruct (infer_image img_path _) as [rI trI] eqn:Hinf.
  apply infer_image_cases in Hinf as (evs1 & -> & Hcalls & _).
  assert (Hc1 : count is_close evs1 = 0)
    by (apply count_inference; [intros []; cbn; congruence|exact Hcalls]).
  assert (Hc2 : count is_update evs1 = 0)
    by (apply count_inference; [intros []; cbn; congruence|exact Hcalls]).
  assert (Hc3 : count is_commit evs1 = 0)
    by (apply count_inference; [intros []; cbn; congruence|exact Hcalls]).
  assert (Hc4 : count is_rollback evs1 = 0)
    by (apply count_inference; [intros []; cbn; congruence|exact Hcalls]).
  assert (Hc5 : count is_sleep evs1 = 0)
    by (apply count_inference; [intros []; cbn; congruence|exact Hcalls]).
  clear Hcalls.
  destruct rI as [v|eI]; [|leaf].
  assert (Hrest : forall (result : value),
    (n_det ← lift (get result (lit "detection_count") (VInt 0));
     print (LDetections n_det);;
     updated ← update_analysis exec_id result (dry_run a);
     c' ← (if updated : bool then
             (if negb (dry_run a) then do Commit else mret tt);;
             print LUpdated;;
             mret {| ok := ok c + 1; skip := skip c; fail := fail c |}
           else
             print LZeroRows;;
             do Rollback;;
             mret {| ok := ok c; skip := skip c; fail := fail c + 1 |});
     (if PrimFloat.ltb PrimFloat.zero (delay a) && (i <? total)
      then do (Sleep (delay a)) else mret tt);;
     mret c')
      ((((tr ++ [PathExists img_path]) ++
         [Print (LInferring i total exec_id img_path)]) ++ evs1)) = (r, tr') ->
    exists evs,
      tr' = tr ++ evs /\ quiet a evs /\
      count is_sleep evs <= (if i <? total then 1 else 0) /\
      forall c', r = Ok c' -> settled a c c' 1 evs).
  { intros result. run.
    destruct (get result (lit "detection_count") (VInt 0)) as [n_det|e]; [|leaf].
    run. step. rewrite run_bind.
    destruct (update_analysis exec_id result (dry_run a) _) as [ru trU] eqn:Hup.
    apply update_analysis_inv in Hup
      as [(e & -> & ->)|[(Hdry & -> & n & hf & hs & ->)|(Hdry & row & -> & _ & _ & _ & _ & _ & Hr)]].
    - leaf.
    - rewrite Hdry. cbn [negb]. run. step.
      destruct (PrimFloat.ltb PrimFloat.zero (delay a)) eqn:Hd;
        destruct (i <? total) eqn:Hi; cbn [andb]; steps; run; leaf.
    - rewrite Hdry. cbn [negb].
      destruct Hr as [[_ ->]|(e & _ & ->)]; [|leaf].
      destruct (rowcount _ =? 1); run; step; run; step;
        destruct (PrimFloat.ltb PrimFloat.zero (delay a)) eqn:Hd;
        destruct (i <? total) eqn:Hi; cbn [andb]; steps; run; leaf. }
  destruct v; [run; step; run; leaf|apply Hrest..].
Qed.

Lemma quiet_app (a : args) e1 e2 : quiet a e1 -> quiet a e2 -> quiet a (e1 ++ e2).
Proof.
  unfold quiet. rewrite !count_app.
  intros (A1 & A2 & A3 & A4) (B1 & B2 & B3 & B4).
  split; [lia|]. split; [intros Hd; specialize (A2 Hd); specialize (B2 Hd); lia|].
  split; [intros Hd; specialize (A3 Hd); specialize (B3 Hd); lia|lia].
Qed.

Lemma settled_app (a : args) c c1 c2 n1 n2 e1 e2 :
  settled a c c1 n1 e1 -> settled a c1 c2 n2 e2 ->
  settled a c c2 (n1 + n2) (e1 ++ e2).
Proof.
  unfold settled. rewrite !count_app.
  intros (A1 & A2 & A3 & A4 & A5) (B1 & B2 & B3 & B4 & B5).
  split; [lia|]. split; [lia|]. split; [lia|]. split; [lia|].
  intros Hd. specialize (A5 Hd). specialize (B5 Hd). lia.
Qed.

(** The loop. *)
Lemma main_loop_run `{Operators} `{Environment} (a : args) (total : Z)
    (targets : list (Z * str)) : forall i c tr r tr',
  main_loop a total i targets c tr = (r, tr') ->
  exists evs,
    tr' = tr ++ evs /\ quiet a evs /\
    count is_sleep evs <= Z.max 0 (Z.min (len targets) (total - i)) /\
    forall c', r = Ok c' -> settled a c c' (len targets) evs.
Proof.
  induction targets as [|[exec_id img_path] rest IH]; intros i c tr r tr'.
  - cbn [main_loop]. rewrite ret_run. intros E. injection E as <- <-.
    exists []. rewrite app_nil_r. split; [reflexivity|].
    split; [unfold quiet; rewrite !count_nil; repeat split; intros; lia|].
    split; [rewrite count_nil; unfold len; cbn; lia|].
    intros c' E. injection E as <-. unfold settled, len. cbn [length].
    rewrite !count_nil. repeat split; intros; lia.
  - cbn [main_loop]. rewrite run_bind.
    destruct (main_body a total i exec_id img_path c tr) as [[c1|e] tr1] eqn:Hb;
      apply main_body_run in Hb as (evs1 & -> & Hq1 & Hs1 & Hc1).
    + intros E. apply IH in E as (evs2 & -> & Hq2 & Hs2 & Hc2).
      exists (evs1 ++ evs2). rewrite app_assoc. split; [reflexivity|].
      split; [apply quiet_app; assumption|].
      split.
      * rewrite count_app. unfold len in *. cbn [length].
        destruct (i <? total) eqn:Hi; [apply Z.ltb_lt in Hi|apply Z.ltb_ge in Hi]; lia.
      * intros c' ->.
        replace (len ((exec_id, img_path) :: rest)) with (1 + len rest)
          by (unfold len; cbn [length]; lia).
        apply (settled_app a c c1 c'); [apply Hc1; reflexivity|apply Hc2; reflexivity].
    + intros E. injection E as <- <-. exists evs1. split; [reflexivity|].
      split; [exact Hq1|]. split; [|discriminate].
      unfold len. cbn [length].
      destruct (i <? total) eqn:Hi; [apply Z.ltb_lt in Hi|apply Z.ltb_ge in Hi]; lia.
Qed.

(** The runs of [main]: it fails while starting up, or when it reports
    what it found; or finds no target; or goes through the targets and
    fails on the way; or reaches the end and closes the cursor and then
    the connection. *)
Lemma main_run `{Operators} `{Environment} (a : args) tr r tr' :
  main a tr = (r, tr') ->
  exists evs, tr' = tr ++ evs /\
  ((exists e k, r = Err e /\ evs = take k (startup (limit a))) \/
   (r = Ok tt /\
    len (rows (tr ++ take 4 (startup (limit a)))) = 0 /\
    evs = startup (limit a) ++
          [Print (LFound 0 (dry_run a)); Print LNothingToDo]) \/
   (exists total evsL tail,
      total = len (rows (tr ++ take 4 (startup (limit a)))) /\
      0 < total /\
      evs = startup (limit a) ++ Print (LFound total (dry_run a)) :: evsL ++ tail /\
      quiet a evsL /\ count is_sleep evsL <= total - 1 /\
      ((exists e, r = Err e /\ tail = []) \/
       (exists c,
          settled a {| ok := 0; skip := 0; fail := 0 |} c total evsL /\
          (r = Ok tt /\
           tail = [Print (LDone (ok c) (skip c) (fail c)); CursorClose;
                   ConnectionClose] \/
           exists e, r = Err e /\
             (tail = [Print (LDone (ok c) (skip c) (fail c)); CursorClose] \/
              tail = [Print (LDone (ok c) (skip c) (fail c)); CursorClose;
                      ConnectionClose]))))) \/
   (exists e, r = Err e /\
      len (rows (tr ++ take 4 (startup (limit a)))) = 0 /\
      evs = startup (limit a) ++ [Print (LFound 0 (dry_run a))])).
Proof.
  unfold main, fetch_targets. run.
  destruct (raises tr Connect) as [e|];
    [intros E; injection E as <- <-; extend; left; exists e, 1%nat; auto|].
  destruct (raises _ (SetAutocommit false)) as [e|];
    [intros E; injection E as <- <-; extend; left; exists e, 2%nat; auto|].
  destruct (raises _ Cursor) as [e|];
    [intros E; injection E as <- <-; extend; left; exists e, 3%nat; auto|].
  destruct (raises _ (Execute _)) as [e|];
    [intros E; injection E as <- <-; extend; left; exists e, 4%nat; auto|].
  destruct (raises _ Fetchall) as [e|];
    [intros E; injection E as <- <-; extend; left; exists e, 5%nat; auto|].
  match goal with |- context [rows ?t] =>
    replace t with (tr ++ take 4 (startup (limit a)))
      by (cbn [take startup]; rewrite <- !app_assoc; reflexivity)
  end.
  set (targets := rows _). run.
  destruct (raises _ (Print (LFound _ _))) as [e|];
    [intros E; injection E as <- <-; extend; left; exists e, 5%nat; auto|].
  destruct (len targets =? 0) eqn:Hz.
  - apply Z.eqb_eq in Hz. rewrite Hz. run.
    destruct (raises _ (Print LNothingToDo)) as [e|];
      intros E; injection E as <- <-; extend.
    + right. right. right. exists e. auto.
    + right. left. auto.
  - apply Z.eqb_neq in Hz.
    assert (Hpos : 0 < len targets) by (pose proof (len_nonneg targets); lia).
    rewrite run_bind.
    match goal with |- context [main_loop a ?n 1 targets ?c0 ?t] =>
      destruct (main_loop a n 1 targets c0 t) as [[c|e] trL] eqn:HL end;
      apply main_loop_run in HL as (evsL & -> & Hq & Hs & Hc).
    + run.
      destruct (raises _ (Print (LDone _ _ _))) as [e|].
      { intros E. injection E as <- <-. extend. right. right. left.
        exists (len targets), evsL, [].
        split; [reflexivity|].
        split; [exact Hpos|]. split; [rewrite app_nil_r; reflexivity|].
        split; [exact Hq|]. split; [lia|]. left. eauto. }
      destruct (raises _ CursorClose) as [e|].
      { intros E. injection E as <- <-. extend. right. right. left.
        exists (len targets), evsL,
          [Print (LDone (ok c) (skip c) (fail c)); CursorClose].
        split; [reflexivity|].
        split; [exact Hpos|]. split; [reflexivity|].
        split; [exact Hq|]. split; [lia|]. right. exists c.
        split; [apply Hc; reflexivity|]. right. exists e. auto. }
      destruct (raises _ ConnectionClose) as [e|];
        intros E; injection E as <- <-; extend; right; right; left;
        exists (len targets), evsL,
          [Print (LDone (ok c) (skip c) (fail c)); CursorClose; ConnectionClose];
        (split; [reflexivity|]);
        (split; [exact Hpos|]); (split; [reflexivity|]);
        (split; [exact Hq|]); (split; [lia|]); right; exists c;
        (split; [apply Hc; reflexivity|]).
      * right. exists e. auto.
      * left. auto.
    + intros E. injection E as <- <-. extend. right. right. left.
      exists (len targets), evsL, [].
      split; [reflexivity|].
      split; [exact Hpos|]. split; [rewrite app_nil_r; reflexivity|].
      split; [exact Hq|]. split; [lia|]. left. eauto.
Qed.

Lemma count_startup f (limit : option Z) k :
  f Connect = false -> f (SetAutocommit false) = false -> f Cursor = false ->
  f (Execute (SelectTargets (limit_clause limit))) = false -> f Fetchall = false ->
  count f (take k (startup limit)) = 0.
Proof.
  intros H1 H2 H3 H4 H5. unfold startup.
  do 6 (destruct k as [|k]; cbn [take];
        rewrite ?count_cons, ?count_nil, ?H1, ?H2, ?H3, ?H4, ?H5; try reflexivity).
Qed.

Lemma count_startup_all f (limit : option Z) :
  f Connect = false -> f (SetAutocommit false) = false -> f Cursor = false ->
  f (Execute (SelectTargets (limit_clause limit))) = false -> f Fetchall = false ->
  count f (startup limit) = 0.
Proof.
  intros H1 H2 H3 H4 H5.
  rewrite <- (count_startup f limit 5) by assumption. reflexivity.
Qed.

(** X24.  Every target is counted once.  A run of [main] that returns
    either found no target -- it then says so and returns at once -- or
    printed, as its summary, counters [ok], [skip] and [fail] that are not
    negative and add up to the number of targets the query returned. *)
Theorem main_counts_every_target `{Operators} `{Environment}
    (a : args) (tr tr' : list action) :
  main a tr = (Ok tt, tr') ->
  exists evs,
    tr' = tr ++ evs /\
    (len (rows (tr ++ take 4 (startup (limit a)))) = 0 /\
     evs = startup (limit a) ++
           [Print (LFound 0 (dry_run a)); Print LNothingToDo] \/
     exists ok skip fail pre,
       evs = pre ++ [Print (LDone ok skip fail); CursorClose; ConnectionClose] /\
       0 <= ok /\ 0 <= skip /\ 0 <= fail /\
       ok + skip + fail = len (rows (tr ++ take 4 (startup (limit a)))) /\
       In (Print (LFound (ok + skip + fail) (dry_run a))) pre).
Proof.
  intros E. apply main_run in E as (evs & -> & [(e & k & E & _)|[(_ & Hz & ->)|
    [(total & evsL & tail & -> & Hpos & -> & _ & _ & [(e & E & _)|(c & Hc & [[_ ->]|(e & E & _)])])|
     (e & E & _)]]]);
    try discriminate E.
  - eexists. split; [reflexivity|]. left. auto.
  - eexists. split; [reflexivity|]. right.
    destruct Hc as (Hsum & Hok & Hskip & Hfail & _). cbn [ok skip fail] in *.
    exists (ok c), (skip c), (fail c).
    eexists (startup (limit a) ++ Print (LFound _ (dry_run a)) :: evsL).
    split; [rewrite <- app_assoc; reflexivity|].
    split; [lia|]. split; [lia|]. split; [lia|]. split; [lia|].
    apply in_or_app. right. left. f_equal. f_equal. lia.
Qed.

(** X25.  A dry run writes nothing.  With [--dry-run], whatever happens,
    [main] executes no [UPDATE], commits nothing and rolls nothing back:
    the only statement that reaches the database is the query for the
    targets. *)
Theorem main_dry_run_writes_nothing `{Operators} `{Environment}
    (a : args) (tr : list action) (r : reprocess_bboxes.result unit)
    (tr' : list action) :
  dry_run a = true ->
  main a tr = (r, tr') ->
  exists evs,
    tr' = tr ++ evs /\
    forall x, In x evs ->
      x <> Commit /\ x <> Rollback /\
      forall row, x <> Execute (UpdateExecutionAnalysis row).
Proof.
  intros Hdry E. apply main_run in E as (evs & -> & Hshape).
  exists evs. split; [reflexivity|].
  assert (Hcount : count is_update evs = 0 /\ count is_commit evs = 0 /\
                   count is_rollback evs = 0).
  { destruct Hshape as [(e & k & _ & ->)|[(_ & _ & ->)|
      [(total & evsL & tail & _ & _ & -> & Hq & _ & Htail)|(e & _ & _ & ->)]]].
    4:{ rewrite !count_app, !count_startup_all by reflexivity.
        repeat split; reflexivity. }
    - repeat split; apply count_startup; reflexivity.
    - rewrite !count_app, !count_startup_all by reflexivity.
      repeat split; reflexivity.
    - destruct Hq as (_ & Hq & _). destruct (Hq Hdry) as (Q1 & Q2 & Q3).
      rewrite !count_app, !count_cons, !count_app, !count_startup_all by reflexivity.
      rewrite Q1, Q2, Q3. cbn [is_update is_commit is_rollback].
      destruct Htail as [(e & _ & ->)|(c & _ & [[_ ->]|(e & _ & [-> | ->])])];
        repeat split; reflexivity. }
  destruct Hcount as (C1 & C2 & C3). intros x Hx.
  pose proof (count_zero _ _ C1 x Hx) as X1.
  pose proof (count_zero _ _ C2 x Hx) as X2.
  pose proof (count_zero _ _ C3 x Hx) as X3.
  split; [intros ->; discriminate X2|].
  split; [intros ->; discriminate X3|].
  intros row ->. discriminate X1.
Qed.

(** X26.  One transaction per target.  Outside a dry run, a run of [main]
    that reaches its end made as many commits as its summary counts [ok];
    every [UPDATE] it executed was committed or rolled back; and it rolled
    back at most as many as it counts [fail]. *)
Theorem main_commits_each_update `{Operators} `{Environment}
    (a : args) (tr tr' : list action) :
  dry_run a = false ->
  main a tr = (Ok tt, tr') ->
  exists evs,
    tr' = tr ++ evs /\
    (evs = startup (limit a) ++
           [Print (LFound 0 (dry_run a)); Print LNothingToDo] \/
     exists ok skip fail pre,
       evs = pre ++ [Print (LDone ok skip fail); CursorClose; ConnectionClose] /\
       count is_commit evs = ok /\
       count is_update evs = count is_commit evs + count is_rollback evs /\
       count is_rollback evs <= fail).
Proof.
  intros Hdry E. apply main_run in E as (evs & -> & [(e & k & E & _)|[(_ & _ & ->)|
    [(total & evsL & tail & -> & Hpos & -> & _ & _ & [(e & E & _)|(c & Hc & [[_ ->]|(e & E & _)])])|
     (e & E & _)]]]);
    try discriminate E.
  - eexists. split; [reflexivity|]. left. reflexivity.
  - eexists. split; [reflexivity|]. right.
    destruct Hc as (_ & _ & _ & _ & Hc). destruct (Hc Hdry) as (C1 & C2 & C3).
    cbn [ok skip fail] in *.
    exists (ok c), (skip c), (fail c).
    eexists (startup (limit a) ++ Print (LFound _ (dry_run a)) :: evsL).
    split; [rewrite <- app_assoc; reflexivity|].
    rewrite !count_app, !count_cons, !count_app, !count_cons, !count_nil,
      !count_startup_all by reflexivity.
    cbn [is_update is_commit is_rollback]. lia.
Qed.

(** X27.  The cursor and the connection are closed only after the summary
    of a run that went through all its targets.  Every other run leaves
    both open: the one that raises on the way, and -- the only run that
    returns without closing -- the one that finds no target. *)
Theorem main_closes_only_at_the_end `{Operators} `{Environment}
    (a : args) (tr : list action) (r : reprocess_bboxes.result unit)
    (tr' : list action) :
  main a tr = (r, tr') ->
  exists evs,
    tr' = tr ++ evs /\
    (count is_close evs = 0 \/
     exists pre ok skip fail rest,
       evs = pre ++ Print (LDone ok skip fail) :: CursorClose :: rest /\
       count is_close pre = 0 /\
       (rest = [] /\ r <> Ok tt \/ rest = [ConnectionClose])) /\
    (r = Ok tt -> count is_close evs = 0 ->
     evs = startup (limit a) ++
           [Print (LFound 0 (dry_run a)); Print LNothingToDo]).
Proof.
  intros E. apply main_run in E as (evs & -> & Hshape).
  exists evs. split; [reflexivity|].
  destruct Hshape as [(e & k & -> & ->)|[(-> & _ & ->)|
      [(total & evsL & tail & _ & _ & -> & Hq & _ & Htail)|(e & -> & _ & ->)]]].
  4:{ split; [|discriminate]. left.
      rewrite count_app, count_startup_all by reflexivity. reflexivity. }
  - split; [left; apply count_startup; reflexivity|discriminate].
  - split; [|reflexivity]. left.
    rewrite count_app, count_startup_all by reflexivity. reflexivity.
  - destruct Hq as (Hq & _).
    assert (Hpre : count is_close
                     (startup (limit a) ++ Print (LFound total (dry_run a)) :: evsL) = 0).
    { rewrite count_app, count_cons, count_startup_all by reflexivity.
      rewrite Hq. reflexivity. }
    destruct Htail as [(e & -> & ->)|(c & _ & [[-> ->]|(e & -> & [-> | ->])])].
    + rewrite app_nil_r. split; [left; exact Hpre|discriminate].
    + split.
      * right.
        exists (startup (limit a) ++ Print (LFound total (dry_run a)) :: evsL),
          (ok c), (skip c), (fail c), [ConnectionClose].
        split; [rewrite <- app_assoc; reflexivity|]. split; [exact Hpre|].
        right. reflexivity.
      * intros _. rewrite !count_app, !count_cons, !count_app, !count_cons, !count_nil,
          !count_startup_all by reflexivity.
        rewrite Hq. cbn [is_close]. lia.
    + split; [|discriminate]. right.
      exists (startup (limit a) ++ Print (LFound total (dry_run a)) :: evsL),
        (ok c), (skip c), (fail c), [].
      split; [rewrite <- app_assoc; reflexivity|]. split; [exact Hpre|].
      left. split; [reflexivity|discriminate].
    + split; [|discriminate]. right.
      exists (startup (limit a) ++ Print (LFound total (dry_run a)) :: evsL),
        (ok c), (skip c), (fail c), [ConnectionClose].
      split; [rewrite <- app_assoc; reflexivity|]. split; [exact Hpre|].
      right. reflexivity.
Qed.

(** X28.  [main] sleeps between targets only: in any run the number of
    calls of [time.sleep] is below the number of targets the query
    returned (none for zero targets), and it is zero when [--delay] is
    not greater than zero. *)
Theorem main_sleeps_between_targets `{Operators} `{Environment}
    (a : args) (tr : list action) (r : reprocess_bboxes.result unit)
    (tr' : list action) :
  main a tr = (r, tr') ->
  exists evs,
    tr' = tr ++ evs /\
    count is_sleep evs <=
    Z.max 0 (len (rows (tr ++ take 4 (startup (limit a)))) - 1) /\
    (PrimFloat.ltb PrimFloat.zero (delay a) = false -> count is_sleep evs = 0).
Proof.
  intros E. apply main_run in E as (evs & -> & Hshape).
  exists evs. split; [reflexivity|].
  destruct Hshape as [(e & k & _ & ->)|[(_ & _ & ->)|
      [(total & evsL & tail & <- & Hpos & -> & Hq & Hs & Htail)|(e & _ & _ & ->)]]].
  4:{ rewrite count_app, count_startup_all, !count_cons, count_nil by reflexivity.
      cbn [is_sleep]. split; [lia|reflexivity]. }
  - rewrite count_startup by reflexivity. split; [lia|reflexivity].
  - rewrite count_app, count_startup_all, !count_cons, count_nil by reflexivity.
    cbn [is_sleep]. split; [lia|reflexivity].
  - destruct Hq as (_ & _ & Hq & _).
    assert (Ht : count is_sleep tail = 0)
      by (destruct Htail as [(e & _ & ->)|(c & _ & [[_ ->]|(e & _ & [-> | ->])])];
          reflexivity).
    rewrite !count_app, !count_cons, !count_app, Ht, !count_startup_all by reflexivity.
    cbn [is_sleep]. split; [lia|]. intros Hd. rewrite (Hq Hd). reflexivity.
Qed.

(** X29.  [--limit 0] is no limit.  [fetch_targets] tests [if limit:], so
    a limit of zero adds no [LIMIT] clause: the run is the run without
    [--limit]. *)
Theorem main_limit_zero_is_no_limit `{Operators} `{Environment}
    (a : args) (tr : list action) :
  limit a = Some 0 ->
  main a tr =
  main {| dry_run := dry_run a; limit := None; delay := delay a |} tr.
Proof.
  destruct a as [d l s]. cbn [dry_run limit delay]. intros ->.
  unfold main, fetch_targets. cbn [dry_run limit delay].
  change (limit_clause (Some 0)) with (limit_clause None).
  assert (Hloop : forall targets total i c tr0,
            main_loop {| dry_run := d; limit := Some 0; delay := s |} total i targets c tr0 =
            main_loop {| dry_run := d; limit := None; delay := s |} total i targets c tr0).
  { induction targets as [|[exec_id img_path] rest IH]; intros total i c tr0;
      [reflexivity|].
    cbn [main_loop]. rewrite !run_bind.
    change (main_body {| dry_run := d; limit := Some 0; delay := s |} total i
                      exec_id img_path c tr0)
      with (main_body {| dry_run := d; limit := None; delay := s |} total i
                      exec_id img_path c tr0).
    destruct (main_body _ total i exec_id img_path c tr0) as [[c1|e] tr1];
      [apply IH|reflexivity]. }
  run.
  repeat (match goal with |- context [raises ?t ?x] => destruct (raises t x) end;
          [reflexivity|]).
  run. destruct (len _ =? 0); [reflexivity|].
  rewrite !run_bind, Hloop. reflexivity.
Qed.

Lemma p_run_eq {A} (m : P A) (tr : list action) (r : reprocess_bboxes.result A) :
  fst (m tr) = r -> m tr = (r, snd (m tr)).
Proof. destruct (m tr). cbn [fst snd]. intros ->. reflexivity. Qed.

(* ====================================================================== *)
(** * The properties of the script on concrete inputs *)
(* ====================================================================== *)

(** X17 on a list of one detection. *)
Lemma build_detections_entries_witness :
  exists dets,
    iterate (VList [sample_detection]) = Ok dets /\
    len [sample_entry] = len dets /\
    Forall2 (@dashboard_entry int_operators) dets [sample_entry].
Proof.
  refine (@build_detections_entries int_operators (VList [sample_detection])
            [sample_entry] _).
  vm_compute. reflexivity.
Defined.

(** X18 on a detection that has a label and nothing else. *)
Lemma detection_without_bbox_gets_zero_box_witness :
  exists class confidence,
    @build_detection int_operators (VDict bare_detection) =
    Ok (VDict [(lit "class", class); (lit "confidence", confidence);
               (lit "bounding_box", zero_box)]).
Proof.
  refine (@detection_without_bbox_gets_zero_box int_operators bare_detection _ _).
  - reflexivity.
  - left. reflexivity.
Defined.

(** X19 on a detection whose ["bbox"] is [null], after one that
    converts. *)
Lemma build_detections_rejects_witness :
  @build_detections int_operators
    (VList ([sample_detection] ++ null_bbox_detection :: [])) =
  Err AttributeError.
Proof.
  refine (@build_detections_rejects int_operators [sample_detection]
            null_bbox_detection [] [sample_entry] _ _).
  - vm_compute. reflexivity.
  - right. exists [(lit "bbox", VNone)], VNone.
    split; [reflexivity|]. split; reflexivity.
Defined.

(** X20 on [sample_result]. *)
Lemma update_analysis_dry_run_witness :
  (exists e, Ok true = Err e /\
             snd (@update_analysis int_operators three_targets 7 sample_result true [])
             = []) \/
  (Ok true = Ok true /\
   exists n has_fire has_smoke,
     snd (@update_analysis int_operators three_targets 7 sample_result true [])
     = [] ++ [Print (LDryRun 7 n has_fire has_smoke)]).
Proof.
  refine (@update_analysis_dry_run int_operators three_targets 7 sample_result []
            (Ok true) _ _).
  refine (p_run_eq (@update_analysis int_operators three_targets 7 sample_result true)
                   [] (Ok true) _).
  vm_compute. reflexivity.
Defined.

(** X21 on [sample_result]. *)
Lemma update_analysis_row_witness :
  exists row,
    snd (@update_analysis int_operators three_targets 7 sample_result false [])
    = [] ++ [Execute (UpdateExecutionAnalysis row)] /\
    execution_id row = 7 /\
    detection_count row = len (detections row) /\
    (exists raw, get sample_result (lit "detections") (VList []) = Ok raw /\
                 @build_detections int_operators raw = Ok (detections row)) /\
    (confidence_fire row = VNone \/
     @py_gt int_operators (confidence_fire row) (VInt 0) = Ok true) /\
    (confidence_smoke row = VNone \/
     @py_gt int_operators (confidence_smoke row) (VInt 0) = Ok true) /\
    true =
    (@rowcount three_targets
       (snd (@update_analysis int_operators three_targets 7 sample_result false []))
     =? 1).
Proof.
  refine (@update_analysis_row int_operators three_targets 7 sample_result [] true
            _ _).
  refine (p_run_eq (@update_analysis int_operators three_targets 7 sample_result false)
                   [] (Ok true) _).
  vm_compute. reflexivity.
Defined.

(** X22 on a body with ["fire": 0] and ["DetectionClass.FIRE": 1]. *)
Lemma falsy_fire_score_hides_fallback_witness :
  exists row,
    snd (@update_analysis int_operators three_targets 7 shadowed_result false [])
    = [] ++ [Execute (UpdateExecutionAnalysis row)] /\
    confidence_fire row = VNone.
Proof.
  refine (@falsy_fire_score_hides_fallback int_operators three_targets 7
            shadowed_result shadowed_scores (VInt 0) [] true _ _ _ _ _ _).
  - reflexivity.
  - reflexivity.
  - reflexivity.
  - reflexivity.
  - refine (p_run_eq (@update_analysis int_operators three_targets 7 shadowed_result
                        false) [] (Ok true) _).
    vm_compute. reflexivity.
Defined.

(** Two runs of [infer_image] that raise: the interrupt of the request is
    not caught, though the file is closed; and the error of the handler's
    own [print] comes out in place of the error of the [open]. *)
Example infer_image_raises :
  @infer_image interrupted (lit "/data/b.jpg") [] =
  (Err KeyboardInterrupt,
   [Open (lit "/data/b.jpg"); inference_request (lit "/data/b.jpg"); FileClose]) /\
  @infer_image stderr_closed (lit "/data/b.jpg") [] =
  (Err (OtherError 9), [Open (lit "/data/b.jpg")]).
Proof. split; reflexivity. Qed.


(** X24 on the run with three targets: one is skipped, one updated, one
    fails. *)
Lemma main_counts_every_target_witness :
  exists evs,
    snd (@main int_operators three_targets default_args []) = [] ++ evs /\
    (len (@rows three_targets ([] ++ take 4 (startup (limit default_args)))) = 0 /\
     evs = startup (limit default_args) ++
           [Print (LFound 0 (dry_run default_args)); Print LNothingToDo] \/
     exists ok skip fail pre,
       evs = pre ++ [Print (LDone ok skip fail); CursorClose; ConnectionClose] /\
       0 <= ok /\ 0 <= skip /\ 0 <= fail /\
       ok + skip + fail =
       len (@rows three_targets ([] ++ take 4 (startup (limit default_args)))) /\
       In (Print (LFound (ok + skip + fail) (dry_run default_args))) pre).
Proof.
  refine (@main_counts_every_target int_operators three_targets default_args [] _ _).
  refine (p_run_eq (@main int_operators three_targets default_args) [] (Ok tt) _).
  vm_compute. reflexivity.
Defined.

(** X25 on the dry run with three targets. *)
Lemma main_dry_run_writes_nothing_witness :
  exists evs,
    snd (@main int_operators three_targets dry_run_args []) = [] ++ evs /\
    forall x, In x evs ->
      x <> Commit /\ x <> Rollback /\
      forall row, x <> Execute (UpdateExecutionAnalysis row).
Proof.
  refine (@main_dry_run_writes_nothing int_operators three_targets dry_run_args []
            (Ok tt) _ _ _).
  - reflexivity.
  - refine (p_run_eq (@main int_operators three_targets dry_run_args) [] (Ok tt) _).
    vm_compute. reflexivity.
Defined.

(** X26 on the run with three targets. *)
Lemma main_commits_each_update_witness :
  exists evs,
    snd (@main int_operators three_targets default_args []) = [] ++ evs /\
    (evs = startup (limit default_args) ++
           [Print (LFound 0 (dry_run default_args)); Print LNothingToDo] \/
     exists ok skip fail pre,
       evs = pre ++ [Print (LDone ok skip fail); CursorClose; ConnectionClose] /\
       count is_commit evs = ok /\
       count is_update evs = count is_commit evs + count is_rollback evs /\
       count is_rollback evs <= fail).
Proof.
  refine (@main_commits_each_update int_operators three_targets default_args [] _ _ _).
  - reflexivity.
  - refine (p_run_eq (@main int_operators three_targets default_args) [] (Ok tt) _).
    vm_compute. reflexivity.
Defined.

(** X27 on the run that finds no target. *)
Lemma main_closes_only_at_the_end_witness :
  exists evs,
    snd (@main int_operators no_target default_args []) = [] ++ evs /\
    (count is_close evs = 0 \/
     exists pre ok skip fail rest,
       evs = pre ++ Print (LDone ok skip fail) :: CursorClose :: rest /\
       count is_close pre = 0 /\
       (rest = [] /\ Ok tt <> Ok tt \/ rest = [ConnectionClose])) /\
    (Ok tt = Ok tt -> count is_close evs = 0 ->
     evs = startup (limit default_args) ++
           [Print (LFound 0 (dry_run default_args)); Print LNothingToDo]).
Proof.
  refine (@main_closes_only_at_the_end int_operators no_target default_args []
            (Ok tt) _ _).
  refine (p_run_eq (@main int_operators no_target default_args) [] (Ok tt) _).
  vm_compute. reflexivity.
Defined.

(** X28 on the run with three targets. *)
Lemma main_sleeps_between_targets_witness :
  exists evs,
    snd (@main int_operators three_targets default_args []) = [] ++ evs /\
    count is_sleep evs <=
    Z.max 0 (len (@rows three_targets
                    ([] ++ take 4 (startup (limit default_args)))) - 1) /\
    (PrimFloat.ltb PrimFloat.zero (delay default_args) = false ->
     count is_sleep evs = 0).
Proof.
  refine (@main_sleeps_between_targets int_operators three_targets default_args []
            (Ok tt) _ _).
  refine (p_run_eq (@main int_operators three_targets default_args) [] (Ok tt) _).
  vm_compute. reflexivity.
Defined.

(** X29 on the run with three targets. *)
Lemma main_limit_zero_is_no_limit_witness :
  @main int_operators three_targets limit_zero_args [] =
  @main int_operators three_targets
    {| dry_run := dry_run limit_zero_args; limit := None;
       delay := delay limit_zero_args |} [].
Proof.
  refine (@main_limit_zero_is_no_limit int_operators three_targets limit_zero_args
            [] _).
  reflexivity.
Defined.
